(** * Live translation: the session pipeline of the WebSocket server,
      the streaming-text translator and the engine gateway.

    A shallow embedding of
      - services/websocket-server.js (sessions, audio buffering, flushes),
      - translators/index.js         (translateStream, transcribeAudio),
      - services/gemini.js and services/gemini-live.js (engine gateway),
      - utils/validators.js and config/index.js (language validation).

    Conventions of the embedding.
      - A JavaScript string is the list of its UTF-16 code units ([list N]).
      - A Node [Buffer] is a [list byte].
      - The engine (the Gemini SDK) is an oracle: its answer to a call may
        depend on every call made before it.  Every call is appended to a
        log, which is how a theorem observes that a call was made.
      - [ws.send] appends to a wire log; messages are kept as structured
        values instead of their [JSON.stringify] text.
      - An [async] handler of the WebSocket server runs to completion
        before the next one starts.  The handlers of [translateStream] are
        not awaited by the input stream: each one runs up to its first
        [await] when its event arrives and is resumed later, one action on
        the output stream at a time, in any order among the suspended
        handlers.
      - Calls to the logger only write to the console and are left out. *)

From Stdlib Require Import ZArith NArith List Bool Lia Ascii String.
From Stdlib Require Import Strings.Byte.
From stdpp Require Import base option list countable gmap.

Set Warnings "-register-all".

Open Scope N_scope.
Open Scope list_scope.

(** ** JavaScript strings *)

Module Js.

Abbreviation jsstring := (list N).

(** A string literal of the source, one code unit per character. *)
Definition lit (s : string) : jsstring :=
  List.map N_of_ascii (list_ascii_of_string s).
Arguments lit : simpl never.

(** WhiteSpace and LineTerminator code points: what [String.prototype.trim]
    strips and what [\s] matches in a regular expression. *)
Definition is_space (c : N) : bool :=
  (N.leb 9 c && N.leb c 13)
  || N.eqb c 32 || N.eqb c 160 || N.eqb c 5760
  || (N.leb 8192 c && N.leb c 8202)
  || N.eqb c 8232 || N.eqb c 8233 || N.eqb c 8239
  || N.eqb c 8287 || N.eqb c 12288 || N.eqb c 65279.

Fixpoint trimStart (s : jsstring) : jsstring :=
  match s with
  | c :: rest => if is_space c then trimStart rest else s
  | [] => []
  end.

Definition trimEnd (s : jsstring) : jsstring := rev (trimStart (rev s)).

Definition trim (s : jsstring) : jsstring := trimEnd (trimStart s).

(** Truthiness of a string: the empty string is the only falsy one. *)
Definition nonempty (s : jsstring) : bool :=
  match s with [] => false | _ :: _ => true end.

Fixpoint eqb (s t : jsstring) : bool :=
  match s, t with
  | [], [] => true
  | a :: s', b :: t' => N.eqb a b && eqb s' t'
  | _, _ => false
  end.

Fixpoint join (sep : jsstring) (parts : list jsstring) : jsstring :=
  match parts with
  | [] => []
  | [p] => p
  | p :: rest => p ++ sep ++ join sep rest
  end.

(** [buf.toString('base64')]: the standard alphabet, padded with [=]. *)
Definition b64_digit (i : N) : N :=
  if N.ltb i 26 then 65 + i
  else if N.ltb i 52 then 97 + (i - 26)
  else if N.ltb i 62 then 48 + (i - 52)
  else if N.eqb i 62 then 43 else 47.

Fixpoint base64_of (bs : list N) : jsstring :=
  match bs with
  | [] => []
  | [a] => [b64_digit (a / 4); b64_digit ((a mod 4) * 16); 61; 61]
  | [a; b] =>
      [b64_digit (a / 4); b64_digit ((a mod 4) * 16 + b / 16);
       b64_digit ((b mod 16) * 4); 61]
  | a :: b :: c :: rest =>
      b64_digit (a / 4) :: b64_digit ((a mod 4) * 16 + b / 16)
      :: b64_digit ((b mod 16) * 4 + c / 64) :: b64_digit (c mod 64)
      :: base64_of rest
  end.

Definition base64 (buf : list byte) : jsstring :=
  base64_of (List.map Byte.to_N buf).

(** [Buffer.concat(list)] *)
Definition Buffer_concat (chunks : list (list byte)) : list byte :=
  List.concat chunks.

(** [s.startsWith(prefix)] and [s.includes(part)] *)
Fixpoint startsWith (prefix s : jsstring) : bool :=
  match prefix, s with
  | [], _ => true
  | p :: prefix', c :: s' => N.eqb p c && startsWith prefix' s'
  | _ :: _, [] => false
  end.

Fixpoint includes (part s : jsstring) : bool :=
  startsWith part s
  || match s with
     | [] => false
     | _ :: s' => includes part s'
     end.

End Js.

Import Js.

(** ** JSON values, as [JSON.parse] returns them *)

(** A JSON number is kept as the two things the server can observe of it:
    its truthiness and the text a template literal renders it as. *)
Record JsNumber := mkNumber { num_truthy : bool; num_text : list N }.

Inductive Json :=
| JNull
| JBool (b : bool)
| JNum (n : JsNumber)
| JStr (s : list N)
| JArr (items : list Json)
| JObj (fields : list (list N * Json)).

(** A value read out of a command: [None] is [undefined]. *)
Fixpoint assoc (key : list N) (fields : list (list N * Json)) : option Json :=
  match fields with
  | [] => None
  | (k, v) :: rest => if Js.eqb k key then Some v else assoc key rest
  end.

(** [command.<key>]: reading a property of [null] throws a TypeError;
    of the keys the server reads, only an object can own one. *)
Definition get_prop (v : Json) (key : list N) : option (option Json) :=
  match v with
  | JNull => None
  | JObj fields => Some (assoc key fields)
  | _ => Some None
  end.

Definition truthy (v : option Json) : bool :=
  match v with
  | None => false
  | Some JNull => false
  | Some (JBool b) => b
  | Some (JNum n) => num_truthy n
  | Some (JStr s) => Js.nonempty s
  | Some (JArr _) => true
  | Some (JObj _) => true
  end.

(** [v === 'text'] for a string literal. *)
Definition is_str (v : Json) (text : list N) : bool :=
  match v with
  | JStr s => Js.eqb s text
  | _ => false
  end.

(** The text [`${v}`] puts into a template literal. *)
Fixpoint to_text (v : Json) : list N :=
  match v with
  | JNull => lit "null"
  | JBool true => lit "true"
  | JBool false => lit "false"
  | JNum n => num_text n
  | JStr s => s
  | JArr items =>
      Js.join (lit ",")
        (List.map (fun x => match x with JNull => [] | _ => to_text x end) items)
  | JObj _ => lit "[object Object]"
  end.

(** ** The engine: the calls of the Gemini SDK and the oracle answering them *)

(** What [model.generateContent] is given: a prompt string, or one user turn
    made of a text part and an inline audio part. *)
Inductive Request :=
| Prompt (text : list N)
| PromptWithAudio (text mimeType data : list N).

(** A model or chat object is named by the position of the call that made
    it in the call log. *)
Inductive EngineCall :=
| GetGenerativeModel (safetySettings : bool)
| StartChat (model : nat)
| SendMessage (chat : nat) (mimeType data : list N)
| GenerateContent (model : nat) (request : Request)
| GenerateContentStream (model : nat) (prompt : list N).

(** The outcome of a call: the text of the response, or an exception with
    its [message]. *)
Inductive Reply :=
| Returned (text : list N)
| Threw (message : list N).

(** A streamed response: the chunk texts, then normal completion ([None])
    or an exception. *)
Record StreamReply := mkStream {
  chunks : list (list N);
  failure : option (list N)
}.

Record Engine := mkEngine {
  answer : list EngineCall -> EngineCall -> Reply;
  answer_stream : list EngineCall -> EngineCall -> StreamReply
}.

(** ** Computations that may throw *)

Inductive Outcome (A : Type) :=
| Done (a : A)
| Raised (message : list N).
Arguments Done {A} a.
Arguments Raised {A} message.

(** A computation over a state [S]: the state survives an exception, as
    the heap of the program does. *)
Definition Eff (S A : Type) : Type := S -> Outcome A * S.

Definition ret {S A} (a : A) : Eff S A := fun s => (Done a, s).

Definition throw {S A} (message : list N) : Eff S A :=
  fun s => (Raised message, s).

Definition bind {S A B} (m : Eff S A) (k : A -> Eff S B) : Eff S B :=
  fun s =>
    match m s with
    | (Done a, s') => k a s'
    | (Raised e, s') => (Raised e, s')
    end.

Definition try_catch {S A} (m : Eff S A) (handler : list N -> Eff S A) : Eff S A :=
  fun s =>
    match m s with
    | (Done a, s') => (Done a, s')
    | (Raised e, s') => handler e s'
    end.

Definition gets {S A} (f : S -> A) : Eff S A := fun s => (Done (f s), s).

Definition modify {S} (f : S -> S) : Eff S unit := fun s => (Done tt, f s).

(** Runs a computation on a part of the state. *)
Definition zoom {S T A} (get : S -> T) (set : T -> S -> S) (m : Eff T A) : Eff S A :=
  fun s =>
    match m (get s) with
    | (r, t') => (r, set t' s)
    end.

Declare Scope eff_scope.
Delimit Scope eff_scope with eff.
Notation "x <- m ;; k" := (bind m (fun x => k))
  (at level 20, m at level 99, k at level 200, only parsing) : eff_scope.
Notation "m ;;; k" := (bind m (fun _ => k))
  (at level 20, k at level 200, only parsing) : eff_scope.
Open Scope eff_scope.

(** The engine gateway works on the call log alone. *)
Abbreviation Gateway := (Eff (list EngineCall)).

Section EngineCalls.
Variable engine : Engine.

(** A call whose result is a text. *)
Definition call (c : EngineCall) : Gateway (list N) :=
  fun log =>
    (match answer engine log c with
     | Returned text => Done text
     | Threw message => Raised message
     end, log ++ [c]).

(** A call whose result is a new object: its name is its position. *)
Definition construct (c : EngineCall) : Gateway nat :=
  fun log =>
    (match answer engine log c with
     | Returned _ => Done (length log)
     | Threw message => Raised message
     end, log ++ [c]).

(** A call whose result is a stream, read to its end: the chunks and how
    the stream ended. *)
Definition call_stream (c : EngineCall) : Gateway StreamReply :=
  fun log => (Done (answer_stream engine log c), log ++ [c]).
End EngineCalls.

(** ** config/index.js *)

Module Config.
Definition defaultSourceLang : list N := lit "auto".
Definition defaultTargetLang : list N := lit "en".

Definition supportedLanguages : list (list N) :=
  List.map lit
    ["ar"; "bn"; "de"; "en"; "es"; "fr"; "gu"; "hi"; "id"; "it";
     "ja"; "kn"; "ko"; "ml"; "mr"; "nl"; "pl"; "pt"; "ru"; "ta";
     "te"; "th"; "tr"; "vi"; "cmn"]%string.
End Config.

(** ** utils/validators.js *)

Module Validators.
(** [isValidLanguage(langCode)]; [None] is an [undefined] argument. *)
Definition isValidLanguage (langCode : option (list N)) : bool :=
  match langCode with
  | None => false
  | Some code =>
      if Js.nonempty code
      then existsb (Js.eqb code) Config.supportedLanguages
      else false
  end.

(** The result of [validateTranslationRequest]. *)
Record Validation := mkValidation {
  isValid : bool;
  errors : list (list N)
}.

(** Truthiness of a parameter that is a string or [undefined]. *)
Definition given (param : option (list N)) : bool :=
  match param with
  | Some s => Js.nonempty s
  | None => false
  end.

(** The text a template literal renders such a parameter as. *)
Definition rendered (param : option (list N)) : list N :=
  match param with
  | Some s => s
  | None => lit "undefined"
  end.

(** [validateTranslationRequest({text, targetLang, sourceLang})] *)
Definition validateTranslationRequest (text targetLang sourceLang : option (list N))
  : Validation :=
  let errors :=
    (if negb (given text) then [lit "Text is required for translation"] else [])
    ++ (if negb (given targetLang) then [lit "Target language is required"]
        else if negb (isValidLanguage targetLang)
        then [lit "Target language '" ++ rendered targetLang ++ lit "' is not supported"]
        else [])
    ++ (if given sourceLang
           && negb (Js.eqb (rendered sourceLang) (lit "auto"))
           && negb (isValidLanguage sourceLang)
        then [lit "Source language '" ++ rendered sourceLang ++ lit "' is not supported"]
        else []) in
  {| isValid := (length errors =? 0)%nat; errors := errors |}.
End Validators.

(** [process.env.NODE_ENV !== 'production'] *)
Definition not_production (NODE_ENV : option (list N)) : bool :=
  match NODE_ENV with
  | Some v => negb (Js.eqb v (lit "production"))
  | None => true
  end.

(** ** services/gemini.js *)

Module Gemini.
Section Gemini.
Variable engine : Engine.
Variable NODE_ENV : option (list N).

Definition generateContent (prompt : list N) : Gateway (list N) :=
  try_catch
    (model <- construct engine (GetGenerativeModel false) ;;
     call engine (GenerateContent model (Prompt prompt)))
    (fun message => throw (lit "Gemini API Error: " ++ message)).

(** One run of the generator: the chunks it yields, in order, and the
    error it ends with, if any.  Empty chunk texts are not yielded. *)
Definition generateContentStream (prompt : list N)
  : Gateway (list (list N) * option (list N)) :=
  try_catch
    (model <- construct engine (GetGenerativeModel false) ;;
     reply <- call_stream engine (GenerateContentStream model prompt) ;;
     ret (List.filter Js.nonempty (chunks reply),
          option_map (fun message => lit "Gemini API Streaming Error: " ++ message)
                     (failure reply)))
    (fun message => ret ([], Some (lit "Gemini API Streaming Error: " ++ message))).

Definition transcription_prompt : list N :=
  lit "Please transcribe the following audio accurately. Only provide the transcription, no additional text.".

Definition fallback_transcription : list N :=
  lit "This is a fallback transcription. The Gemini API encountered an error processing your audio.".

Definition transcribeAudio (audioData : list byte) (audioFormat : list N)
  : Gateway (list N) :=
  try_catch
    (let base64Audio := Js.base64 audioData in
     model <- construct engine (GetGenerativeModel false) ;;
     try_catch
       (call engine
          (GenerateContent model
             (PromptWithAudio transcription_prompt audioFormat base64Audio)))
       (fun _apiError => ret fallback_transcription))
    (fun message =>
       if not_production NODE_ENV
       then ret fallback_transcription
       else throw (lit "Gemini API Transcription Error: " ++ message)).
End Gemini.
End Gemini.

(** ** services/gemini-live.js *)

Module GeminiLive.
Section GeminiLive.
Variable engine : Engine.
Variable NODE_ENV : option (list N).

Definition fallback_transcription : list N :=
  lit "This is a fallback transcription. The Gemini Live API encountered an error processing your audio.".

Definition transcribeAudio (audioData : list byte) (audioFormat : list N)
  : Gateway (list N) :=
  try_catch
    (model <- construct engine (GetGenerativeModel true) ;;
     chat <- construct engine (StartChat model) ;;
     let base64Audio := Js.base64 audioData in
     call engine (SendMessage chat audioFormat base64Audio))
    (fun message =>
       if not_production NODE_ENV
       then ret fallback_transcription
       else throw (lit "Gemini Live API Error: " ++ message)).
End GeminiLive.
End GeminiLive.

(** ** translators/index.js *)

Module Translators.

(** [/[.!?]\s*$/]: the character class, and the match tried at one start
    position and then at every later one. *)
Definition is_terminal (c : N) : bool :=
  N.eqb c 46 || N.eqb c 33 || N.eqb c 63.

Definition match_here (s : list N) : bool :=
  match s with
  | c :: rest => is_terminal c && forallb Js.is_space rest
  | [] => false
  end.

Fixpoint regex_test (s : list N) : bool :=
  match s with
  | [] => false
  | _ :: rest => match_here s || regex_test rest
  end.

(** The directive sent to the engine for a piece of text. *)
Definition translation_prompt (targetLang sourceLang text : list N) : list N :=
  if Js.eqb sourceLang (lit "auto") || Js.eqb sourceLang Config.defaultSourceLang
  then lit "Translate the following text to " ++ targetLang
       ++ lit ". Only respond with the translation, no explanations or additional text:"
       ++ [10; 10] ++ text
  else lit "Translate the following text from " ++ sourceLang ++ lit " to " ++ targetLang
       ++ lit ". Only respond with the translation, no explanations or additional text:"
       ++ [10; 10] ++ text.

(** What is done to the output stream: the calls made on it. *)
Inductive OutEvent :=
| Push (chunk : list N)
| EmitError (message : list N)
| PushNull.

(** What the input stream signals. *)
Inductive InEvent :=
| OnData (chunk : list N)
| OnEnd
| OnError (message : list N).

(** The state one [translateStream] call closes over, with the engine's
    call log.  [suspended] holds, for each handler waiting at an [await],
    what it will still do to the output stream, in order. *)
Record Stream := mkStreamState {
  textBuffer : list N;
  output : list OutEvent;
  engineLog : list EngineCall;
  suspended : list (list OutEvent)
}.

(** What happens to a stream: the input stream signals an event, or the
    suspended handler at a position is resumed for its next action.  A
    handler is resumed for one action at a time and in any order, which
    allows every order the event loop can produce. *)
Inductive Step :=
| Signal (ev : InEvent)
| Resume (handler : nat).

Section Translators.
Variable engine : Engine.
Variable NODE_ENV : option (list N).

Section Stream.
Variable targetLang sourceLang : list N.

(** The body of both [try] blocks, up to its first [await]: the
    generator is started, which asks the engine for the model and for
    the streamed translation.  What comes back is delivered later: each
    chunk is pushed, an error is emitted on the output stream. *)
Definition request (text : list N) (log : list EngineCall)
  : list OutEvent * list EngineCall :=
  let prompt := translation_prompt targetLang sourceLang text in
  match Gemini.generateContentStream engine prompt log with
  | (Done (yielded, ending), log') =>
      (List.map Push yielded
       ++ match ending with
          | Some message => [EmitError message]
          | None => []
          end,
       log')
  | (Raised message, log') => ([EmitError message], log')
  end.

(** [inputStream.on('data', ...)], up to the first [await]; [chunk] is
    [chunk.toString()]. *)
Definition on_data (chunk : list N) (st : Stream) : Stream :=
  let buffered := textBuffer st ++ chunk in
  if regex_test buffered
  then
    let textToTranslate := buffered in
    let (todo, log') := request textToTranslate (engineLog st) in
    {| textBuffer := [];
       output := output st;
       engineLog := log';
       suspended := suspended st ++ [todo] |}
  else
    {| textBuffer := buffered;
       output := output st;
       engineLog := engineLog st;
       suspended := suspended st |}.

(** [inputStream.on('end', ...)], up to the first [await]: with an
    empty buffer there is none and the stream is ended at once;
    otherwise [push(null)] waits for the handler's own translation. *)
Definition on_end (st : Stream) : Stream :=
  if (0 <? length (textBuffer st))%nat
  then
    let (todo, log') := request (textBuffer st) (engineLog st) in
    {| textBuffer := textBuffer st;
       output := output st;
       engineLog := log';
       suspended := suspended st ++ [todo ++ [PushNull]] |}
  else
    {| textBuffer := textBuffer st;
       output := output st ++ [PushNull];
       engineLog := engineLog st;
       suspended := suspended st |}.

(** [inputStream.on('error', ...)] *)
Definition on_error (message : list N) (st : Stream) : Stream :=
  {| textBuffer := textBuffer st;
     output := output st ++ [EmitError message; PushNull];
     engineLog := engineLog st;
     suspended := suspended st |}.

Definition on_event (ev : InEvent) (st : Stream) : Stream :=
  match ev with
  | OnData chunk => on_data chunk st
  | OnEnd => on_end st
  | OnError message => on_error message st
  end.

(** A suspended handler goes on to its next action on the output
    stream; one that has nothing left to do has returned. *)
Definition resume (handler : nat) (st : Stream) : Stream :=
  match suspended st !! handler with
  | Some (ev :: rest) =>
      {| textBuffer := textBuffer st;
         output := output st ++ [ev];
         engineLog := engineLog st;
         suspended := <[handler := rest]> (suspended st) |}
  | _ => st
  end.

Definition step (s : Step) (st : Stream) : Stream :=
  match s with
  | Signal ev => on_event ev st
  | Resume handler => resume handler st
  end.

Definition run_stream (steps : list Step) (st : Stream) : Stream :=
  fold_left (fun acc s => step s acc) steps st.
End Stream.

(** [translateStream(inputStream, targetLang, sourceLang)] for a readable
    input stream: the checks made before the handlers are installed, and
    the state they start from. *)
Definition translateStream (targetLang : option (list N)) (sourceLang : list N)
           (log : list EngineCall) : Outcome Stream :=
  if negb (Validators.isValidLanguage targetLang)
  then Raised (lit "Target language '"
               ++ match targetLang with
                  | Some code => code
                  | None => lit "undefined"
                  end
               ++ lit "' is not supported")
  else if negb (Js.eqb sourceLang (lit "auto"))
          && negb (Validators.isValidLanguage (Some sourceLang))
  then Raised (lit "Source language '" ++ sourceLang ++ lit "' is not supported")
  else Done {| textBuffer := []; output := []; engineLog := log; suspended := [] |}.

(** [transcribeAudio(audioData, audioFormat)]: [audioData] is [None] when
    the argument is missing or not a Buffer, [audioFormat] is [None] when
    it is missing. *)
Definition transcribeAudio (audioData : option (list byte))
           (audioFormat : option (list N)) : Gateway (list N) :=
  match audioData with
  | None => throw (lit "Audio data must be provided as a Buffer")
  | Some data =>
      match audioFormat with
      | None => throw (lit "Audio format must be specified")
      | Some format =>
          if negb (Js.nonempty format)
          then throw (lit "Audio format must be specified")
          else
            try_catch
              (transcription <- GeminiLive.transcribeAudio engine NODE_ENV data format ;;
               ret (Js.trim transcription))
              (fun _ =>
                 fallbackTranscription <- Gemini.transcribeAudio engine NODE_ENV data format ;;
                 ret (Js.trim fallbackTranscription))
      end
  end.

(** [translate(text, targetLang, sourceLang)]: each argument is a string
    or [undefined]; an [undefined] [sourceLang] takes the default. *)
Definition translate (text targetLang sourceLang : option (list N))
  : Gateway (list N) :=
  let sourceLang := match sourceLang with
                    | Some s => s
                    | None => Config.defaultSourceLang
                    end in
  let validation :=
    Validators.validateTranslationRequest text targetLang (Some sourceLang) in
  if negb (Validators.isValid validation)
  then throw (Js.join (lit ", ") (Validators.errors validation))
  else
    let prompt := translation_prompt (Validators.rendered targetLang) sourceLang
                                     (Validators.rendered text) in
    translation <- Gemini.generateContent engine prompt ;;
    ret (Js.trim translation).
End Translators.
End Translators.

(** ** api/server.js *)

Module ApiServer.

(** The JSON bodies the routes answer with. *)
Inductive Body :=
| Health
| Languages (languages : list (list N))
| Translated (original translated sourceLang targetLang : list N)
| Transcribed (transcription contentType : list N)
| Failure (error : list N) (details : option (list N)).

Record Response := mkResponse {
  status : nat;
  body : Body
}.

Definition transcription_details : list N :=
  lit "There was an error processing your audio with the Gemini API. This may be due to audio format incompatibility or API limitations.".

Section ApiServer.
Variable engine : Engine.
Variable NODE_ENV : option (list N).

(** [app.get('/health')] and [app.get('/languages')] *)
Definition getHealth : Response := {| status := 200; body := Health |}.

Definition getLanguages : Response :=
  {| status := 200; body := Languages Config.supportedLanguages |}.

(** [app.post('/translate')]: the three fields of the request body, each
    a string or missing. *)
Definition postTranslate (text targetLang sourceLang : option (list N))
  : Gateway Response :=
  try_catch
    (if negb (Validators.given text) || negb (Validators.given targetLang)
     then ret {| status := 400;
                 body := Failure (lit "Missing required parameters. Please provide text and targetLang.") None |}
     else
       translatedText <- Translators.translate engine text targetLang sourceLang ;;
       ret {| status := 200;
              body := Translated (Validators.rendered text) translatedText
                                 (if Validators.given sourceLang
                                  then Validators.rendered sourceLang
                                  else lit "auto-detected")
                                 (Validators.rendered targetLang) |})
    (fun message => ret {| status := 500; body := Failure message None |}).

(** [app.post('/transcribe')]: [requestBody] is [Some] when [req.body] is
    a Buffer, [contentType] is the header, when there is one. *)
Definition postTranscribe (requestBody : option (list byte))
           (contentType : option (list N)) : Gateway Response :=
  try_catch
    (match requestBody with
     | None =>
         ret {| status := 400;
                body := Failure (lit "Missing audio data. Please provide audio content in the request body.") None |}
     | Some audio =>
         if (length audio =? 0)%nat
         then ret {| status := 400;
                     body := Failure (lit "Missing audio data. Please provide audio content in the request body.") None |}
         else if negb (Validators.given contentType)
                 || negb (Js.startsWith (lit "audio/") (Validators.rendered contentType))
         then ret {| status := 400;
                     body := Failure (lit "Invalid content type. Please provide audio content with a valid audio/* MIME type.") None |}
         else
           try_catch
             (transcription <-
                Translators.transcribeAudio engine NODE_ENV (Some audio) contentType ;;
              ret {| status := 200;
                     body := Transcribed transcription (Validators.rendered contentType) |})
             (fun message =>
                if Js.includes (lit "Gemini API") message
                then ret {| status := 500;
                            body := Failure message (Some transcription_details) |}
                else throw message)
     end)
    (fun message => ret {| status := 500; body := Failure message None |}).
End ApiServer.
End ApiServer.

(** ** services/websocket-server.js *)

Module WebsocketServer.

(** The messages the server sends, before [JSON.stringify]. *)
Inductive ServerMsg :=
| MsgSession (sessionId : list N)
| MsgStarted (message : list N)
| MsgStopped (message : list N)
| MsgLanguageSet (language : Json)
| MsgTranscription (text : list N) (error : bool)
| MsgTranslation (text sourceText : list N) (targetLanguage : Json) (error : bool)
| MsgError (error : list N).

(** What the server can do to a socket. *)
Inductive SocketOp :=
| WsSend (msg : ServerMsg)
| WsClose.

(** What arrives on a socket: a string, or a Buffer. *)
Inductive Message :=
| StringMsg (text : list N)
| BufferMsg (data : list byte).

(** A session object.  [geminiModel] and [geminiChat] are [None] while
    they are [null] or not yet set; the field [geminiStream] stays [null]
    and is never read. *)
Record Session := mkSession {
  ws : nat;
  targetLanguage : Json;
  audioChunks : list (list byte);
  isTranscribing : bool;
  geminiModel : option nat;
  geminiChat : option nat
}.

(** The module's state: the map of active sessions, what was done to the
    sockets, in order, and the engine's call log. *)
Record World := mkWorld {
  activeSessions : gmap (list N) Session;
  wire : list (nat * SocketOp);
  calls : list EngineCall
}.

Abbreviation Server := (Eff World).

Definition set_isTranscribing (b : bool) (s : Session) : Session :=
  {| ws := ws s; targetLanguage := targetLanguage s;
     audioChunks := audioChunks s; isTranscribing := b;
     geminiModel := geminiModel s; geminiChat := geminiChat s |}.

Definition set_audioChunks (l : list (list byte)) (s : Session) : Session :=
  {| ws := ws s; targetLanguage := targetLanguage s;
     audioChunks := l; isTranscribing := isTranscribing s;
     geminiModel := geminiModel s; geminiChat := geminiChat s |}.

Definition set_targetLanguage (v : Json) (s : Session) : Session :=
  {| ws := ws s; targetLanguage := v;
     audioChunks := audioChunks s; isTranscribing := isTranscribing s;
     geminiModel := geminiModel s; geminiChat := geminiChat s |}.

Definition set_geminiModel (m : option nat) (s : Session) : Session :=
  {| ws := ws s; targetLanguage := targetLanguage s;
     audioChunks := audioChunks s; isTranscribing := isTranscribing s;
     geminiModel := m; geminiChat := geminiChat s |}.

Definition set_geminiChat (c : option nat) (s : Session) : Session :=
  {| ws := ws s; targetLanguage := targetLanguage s;
     audioChunks := audioChunks s; isTranscribing := isTranscribing s;
     geminiModel := geminiModel s; geminiChat := c |}.

(** [ws.send(JSON.stringify(msg))] *)
Definition send (socket : nat) (msg : ServerMsg) : Server unit :=
  modify (fun w =>
    {| activeSessions := activeSessions w;
       wire := wire w ++ [(socket, WsSend msg)];
       calls := calls w |}).

(** An assignment to a field of the session object. *)
Definition update (sessionId : list N) (f : Session -> Session) : Server unit :=
  modify (fun w =>
    {| activeSessions := alter f sessionId (activeSessions w);
       wire := wire w;
       calls := calls w |}).

(** [const session = activeSessions.get(sessionId)] followed by the first
    read of a field of [session]: a TypeError when there is no such
    session. *)
Definition get_session (sessionId : list N) (typeError : string) : Server Session :=
  fun w =>
    match activeSessions w !! sessionId with
    | Some session => (Done session, w)
    | None => (Raised (lit typeError), w)
    end.

Definition null_command_error : list N :=
  lit "Cannot read properties of null (reading 'type')".

(** A gateway computation, run on the world's call log. *)
Definition engine_do {A} (m : Gateway A) : Server A :=
  zoom calls
       (fun log w => {| activeSessions := activeSessions w;
                        wire := wire w; calls := log |})
       m.

Definition audio_error_text : list N :=
  lit "Audio processing error. Please try again.".

Definition translation_error_text : list N :=
  lit "Translation error. Please try again.".

(** [message.toString().startsWith('{')] for a Buffer holds exactly when
    its first byte is 0x7b: that byte decodes to the brace, and no other
    first byte does. *)
Definition buffer_starts_with_brace (data : list byte) : bool :=
  match data with
  | b :: _ => N.eqb (Byte.to_N b) 123
  | [] => false
  end.

Section Server.
(** [JSON.parse(message.toString())]: the value, or the message of the
    SyntaxError; [toString] of a Buffer. *)
Variable JSON_parse : list N -> Json + list N.
Variable Buffer_toString : list byte -> list N.
Variable engine : Engine.

Definition handleConnection (socket : nat) (sessionId : list N) : Server unit :=
  modify (fun w =>
    {| activeSessions :=
         <[sessionId :=
             {| ws := socket;
                targetLanguage := JStr (lit "en");
                audioChunks := [];
                isTranscribing := false;
                geminiModel := None;
                geminiChat := None |}]> (activeSessions w);
       wire := wire w;
       calls := calls w |}) ;;;
  send socket (MsgSession sessionId).

Definition translateAndSend (text : list N) (targetLanguage : Json) (socket : nat)
  : Server unit :=
  try_catch
    (model <- engine_do (construct engine (GetGenerativeModel false)) ;;
     let prompt := lit "Translate the following English text to "
                   ++ to_text targetLanguage ++ [58; 32; 34] ++ text ++ [34] in
     translation <- engine_do (call engine (GenerateContent model (Prompt prompt))) ;;
     send socket (MsgTranslation (Js.trim translation) text targetLanguage false))
    (fun _ =>
       send socket (MsgTranslation translation_error_text text targetLanguage true)).

Definition processAudioChunks (sessionId : list N) : Server unit :=
  session <- get_session sessionId
               "Cannot read properties of undefined (reading 'audioChunks')" ;;
  if (length (audioChunks session) =? 0)%nat then ret tt
  else
    try_catch
      (let combinedAudio := Js.Buffer_concat (audioChunks session) in
       let base64Audio := Js.base64 combinedAudio in
       update sessionId (set_audioChunks []) ;;;
       transcription <-
         match geminiChat session with
         | Some chat =>
             engine_do (call engine (SendMessage chat (lit "audio/webm") base64Audio))
         | None => throw (lit "Cannot read properties of undefined (reading 'sendMessage')")
         end ;;
       if Js.nonempty transcription && Js.nonempty (Js.trim transcription)
       then
         send (ws session) (MsgTranscription (Js.trim transcription) false) ;;;
         if negb (is_str (targetLanguage session) (lit "en"))
         then translateAndSend (Js.trim transcription) (targetLanguage session) (ws session)
         else ret tt
       else ret tt)
      (fun _ =>
         send (ws session) (MsgTranscription audio_error_text true)).

Definition handleStartCommand (command : Json) (sessionId : list N) : Server unit :=
  session <- get_session sessionId
               "Cannot read properties of undefined (reading 'isTranscribing')" ;;
  if isTranscribing session then ret tt
  else
    update sessionId (set_isTranscribing true) ;;;
    update sessionId (set_audioChunks []) ;;;
    try_catch
      (model <- engine_do (construct engine (GetGenerativeModel false)) ;;
       update sessionId (set_geminiModel (Some model)) ;;;
       chat <- engine_do (construct engine (StartChat model)) ;;
       update sessionId (set_geminiChat (Some chat)) ;;;
       send (ws session) (MsgStarted (lit "Transcription started")))
      (fun message =>
         update sessionId (set_isTranscribing false) ;;;
         throw message).

Definition handleStopCommand (sessionId : list N) : Server unit :=
  session <- get_session sessionId
               "Cannot read properties of undefined (reading 'isTranscribing')" ;;
  if negb (isTranscribing session) then ret tt
  else
    (if (0 <? length (audioChunks session))%nat
     then try_catch (processAudioChunks sessionId) (fun _ => ret tt)
     else ret tt) ;;;
    update sessionId (set_isTranscribing false) ;;;
    update sessionId (set_audioChunks []) ;;;
    send (ws session) (MsgStopped (lit "Transcription stopped")).

(** [command] is never [null] here: its [type] was read before. *)
Definition handleSetLanguageCommand (command : Json) (sessionId : list N)
  : Server unit :=
  match get_prop command (lit "language") with
  | None => throw (lit "Cannot read properties of null (reading 'language')")
  | Some language =>
      if negb (truthy language) then ret tt
      else
        match language with
        | None => ret tt
        | Some value =>
            session <- get_session sessionId
                "Cannot set properties of undefined (setting 'targetLanguage')" ;;
            update sessionId (set_targetLanguage value) ;;;
            send (ws session) (MsgLanguageSet value)
        end
  end.

Definition handleAudioData (audioData : list byte) (sessionId : list N)
  : Server unit :=
  session <- get_session sessionId
               "Cannot read properties of undefined (reading 'isTranscribing')" ;;
  if negb (isTranscribing session) then ret tt
  else
    update sessionId (fun s => set_audioChunks (audioChunks s ++ [audioData]) s) ;;;
    if (5 <=? length (audioChunks session ++ [audioData]))%nat
    then processAudioChunks sessionId
    else ret tt.

(** The branch taken for a string, or for a Buffer whose text starts
    with a brace. *)
Definition handleCommand (text : list N) (sessionId : list N) : Server unit :=
  match JSON_parse text with
  | inr message => throw message
  | inl command =>
      match get_prop command (lit "type") with
      | None => throw null_command_error
      | Some (Some (JStr type)) =>
          if Js.eqb type (lit "start") then handleStartCommand command sessionId
          else if Js.eqb type (lit "stop") then handleStopCommand sessionId
          else if Js.eqb type (lit "setLanguage")
               then handleSetLanguageCommand command sessionId
          else ret tt
      | Some _ => ret tt
      end
  end.

Definition handleMessage (message : Message) (sessionId : list N) : Server unit :=
  fun w =>
    match activeSessions w !! sessionId with
    | None => (Done tt, w)
    | Some session =>
        try_catch
          (match message with
           | StringMsg text => handleCommand text sessionId
           | BufferMsg data =>
               if buffer_starts_with_brace data
               then handleCommand (Buffer_toString data) sessionId
               else handleAudioData data sessionId
           end)
          (fun message => send (ws session) (MsgError message))
          w
    end.

(** The fields of the session object are reset before it is removed; the
    object cannot be reached from the map afterwards. *)
Definition handleClose (sessionId : list N) : Server unit :=
  fun w =>
    match activeSessions w !! sessionId with
    | Some _ =>
        (Done tt,
         {| activeSessions := delete sessionId (activeSessions w);
            wire := wire w;
            calls := calls w |})
    | None => (Done tt, w)
    end.

Definition handleError (sessionId : list N) : Server unit :=
  handleClose sessionId.

(** What the WebSocket library delivers to the handlers. *)
Inductive Event :=
| Connection (socket : nat) (sessionId : list N)
| Incoming (message : Message) (sessionId : list N)
| Closed (sessionId : list N)
| SocketError (sessionId : list N).

Definition step (ev : Event) (w : World) : World :=
  snd (match ev with
       | Connection socket sessionId => handleConnection socket sessionId w
       | Incoming message sessionId => handleMessage message sessionId w
       | Closed sessionId => handleClose sessionId w
       | SocketError sessionId => handleError sessionId w
       end).

Definition run (events : list Event) (w : World) : World :=
  fold_left (fun acc ev => step ev acc) events w.
End Server.

(** The state of the module when the server starts. *)
Definition initial : World :=
  {| activeSessions := ∅; wire := []; calls := [] |}.
End WebsocketServer.

Import WebsocketServer.

(** ** Requests named in the statements *)

(** The one engine call of a flush: the buffered fragments, concatenated in
    the order they were appended and encoded, on the session's chat. *)
Definition flush_request (session : Session) (chat : nat) : EngineCall :=
  SendMessage chat (lit "audio/webm")
              (Js.base64 (Js.Buffer_concat (audioChunks session))).

(** The translation call made for a transcript. *)
Definition translate_request (text : list N) (lang : Json) (model : nat) : EngineCall :=
  GenerateContent model
    (Prompt (lit "Translate the following English text to "
             ++ to_text lang ++ [58; 32; 34] ++ text ++ [34])).

Definition is_SendMessage (c : EngineCall) : bool :=
  match c with
  | SendMessage _ _ _ => true
  | _ => false
  end.

(** Every audio submission in a call log carries the mime type
    [audio/webm]. *)
Definition webm_call (c : EngineCall) : Prop :=
  match c with
  | SendMessage _ mimeType _ => mimeType = lit "audio/webm"
  | _ => True
  end.

Definition webm_only (log : list EngineCall) : Prop := Forall webm_call log.

(** ** Invariant of the sessions *)

(** Between two events the buffer of a session is below the threshold, and
    a transcribing session has its chat. *)
Definition session_ok (s : Session) : Prop :=
  (length (audioChunks s) < 5)%nat
  /\ (isTranscribing s = true -> is_Some (geminiChat s)).

Definition world_ok (w : World) : Prop :=
  map_Forall (fun _ s => session_ok s) (activeSessions w).

(** The socket of no session was closed by the server. *)
Definition never_closed (w : World) : Prop :=
  forall socket, (socket, WsClose) ∉ wire w.

(** A computation keeps a property of the state, however it ends. *)
Definition keeps {S A} (P : S -> Prop) (m : Eff S A) : Prop :=
  forall s, P s -> P (snd (m s)).

Definition webm_world (w : World) : Prop := webm_only (calls w).

(** A parsed command the [switch] of [handleMessage] sends to its
    [default] branch: its [type] is missing, is not a string, or is a
    string other than the three command names. *)
Definition unknown_type (command : Json) : bool :=
  match get_prop command (lit "type") with
  | None => false
  | Some (Some (JStr type)) =>
      negb (Js.eqb type (lit "start") || Js.eqb type (lit "stop")
            || Js.eqb type (lit "setLanguage"))
  | Some _ => true
  end.

(** The same, for a [type] that is missing or is a string, a number, a
    boolean or [null]: a value any template literal can render. *)
Definition unknown_plain_type (command : Json) : bool :=
  match get_prop command (lit "type") with
  | None => false
  | Some (Some (JObj _)) => false
  | Some (Some (JArr _)) => false
  | Some _ => unknown_type command
  end.

(** The text [handleMessage] parses as a command: that of a string, and
    that of a Buffer whose first byte is an opening brace.  Any other
    Buffer is audio. *)
Definition parsed_text (Buffer_toString : list byte -> list N) (message : Message)
  : option (list N) :=
  match message with
  | StringMsg text => Some text
  | BufferMsg data =>
      if buffer_starts_with_brace data then Some (Buffer_toString data) else None
  end.

(** An entry of the wire log that is not an [error] message. *)
Definition not_error (entry : nat * SocketOp) : Prop :=
  forall message, snd entry <> WsSend (MsgError message).

Definition has_type (command : Json) (name : string) : bool :=
  match get_prop command (lit "type") with
  | Some (Some (JStr type)) => Js.eqb type (lit name)
  | _ => false
  end.

(** The session [sessionId] is in the map. *)
Definition has_session (sessionId : list N) (w : World) : Prop :=
  is_Some (activeSessions w !! sessionId).

(** How the translation of [text], begun on the call log [log], ends: the
    text and the error flag of the [translation] message, and the calls
    made after the model was asked for. *)
Definition translation_ends (engine : Engine) (log : list EngineCall)
           (text : list N) (lang : Json)
           (translated : list N) (error : bool) (more : list EngineCall) : Prop :=
  match answer engine log (GetGenerativeModel false) with
  | Threw _ => translated = translation_error_text /\ error = true /\ more = []
  | Returned _ =>
      more = [translate_request text lang (length log)]
      /\ match answer engine (log ++ [GetGenerativeModel false])
                      (translate_request text lang (length log)) with
         | Returned reply => translated = Js.trim reply /\ error = false
         | Threw _ => translated = translation_error_text /\ error = true
         end
  end.

(** ** The Sentence Buffer, as the specification words it *)

(** "Ends with one of [.], [!], [?], optionally followed by whitespace". *)
Definition ends_sentence (s : list N) : Prop :=
  exists before c spaces,
    s = before ++ c :: spaces
    /\ (c = 46 \/ c = 33 \/ c = 63)
    /\ Forall (fun x => Js.is_space x = true) spaces.

Module SentenceBuffer.
(** [isComplete()]: past the trailing whitespace, the last character is
    a sentence terminal. *)
Definition isComplete (buffer : list N) : bool :=
  match Js.trimStart (rev buffer) with
  | c :: _ => Translators.is_terminal c
  | [] => false
  end.

(** The texts the buffer hands over for a list of appended fragments
    followed by end-of-input: a drain whenever the buffer is complete,
    and the non-empty remainder at the end. *)
Fixpoint released (buffer : list N) (fragments : list (list N)) : list (list N) :=
  match fragments with
  | [] => if Js.nonempty buffer then [buffer] else []
  | fragment :: rest =>
      let appended := buffer ++ fragment in
      if isComplete appended
      then appended :: released [] rest
      else released appended rest
  end.
End SentenceBuffer.

(** The engine calls made when a text is handed to the gateway. *)
Definition stream_calls (engine : Engine) (log : list EngineCall) (prompt : list N)
  : list EngineCall :=
  GetGenerativeModel false
  :: match answer engine log (GetGenerativeModel false) with
     | Returned _ => [GenerateContentStream (length log) prompt]
     | Threw _ => []
     end.

(** The call log after the texts [texts] were handed to the gateway one
    after the other, starting from [log]. *)
Definition requested (engine : Engine) (targetLang sourceLang : list N)
           (texts : list (list N)) (log : list EngineCall) : list EngineCall :=
  fold_left (fun acc text =>
               acc ++ stream_calls engine acc
                        (Translators.translation_prompt targetLang sourceLang text))
            texts log.

(** The events the input stream signals among the steps of a stream, in
    order. *)
Definition signals (steps : list Translators.Step) : list Translators.InEvent :=
  flat_map (fun s => match s with
                     | Translators.Signal ev => [ev]
                     | Translators.Resume _ => []
                     end) steps.

(** ** Concrete inputs for the examples *)

Module Fixture.
Definition quoted (s : string) : list N := 34 :: lit s ++ [34].

(** [{"type":"<name>"}] and [{"type":"<name>","<key>":"<value>"}] *)
Definition command_text (name : string) : list N :=
  lit "{" ++ quoted "type" ++ lit ":" ++ quoted name ++ lit "}".

Definition command_text_with (name key value : string) : list N :=
  lit "{" ++ quoted "type" ++ lit ":" ++ quoted name ++ lit ","
  ++ quoted key ++ lit ":" ++ quoted value ++ lit "}".

Definition command (name : string) : Json :=
  JObj [(lit "type", JStr (lit name))].

Definition command_with (name key value : string) : Json :=
  JObj [(lit "type", JStr (lit name)); (lit key, JStr (lit value))].

(** [JSON.parse] on the texts the examples use; any other text is
    rejected. *)
Definition JSON_parse (text : list N) : Json + list N :=
  if Js.eqb text (command_text_with "start" "format" "audio/ogg")
  then inl (command_with "start" "format" "audio/ogg")
  else if Js.eqb text (command_text_with "start" "format" "audio/wav")
  then inl (command_with "start" "format" "audio/wav")
  else if Js.eqb text (command_text "stop") then inl (command "stop")
  else if Js.eqb text (command_text_with "setLanguage" "language" "es")
  then inl (command_with "setLanguage" "language" "es")
  else if Js.eqb text (command_text "bogus") then inl (command "bogus")
  else if Js.eqb text (lit "null") then inl JNull
  else inr (lit "Unexpected token in JSON").

(** [toString] of a Buffer of ASCII bytes. *)
Definition Buffer_toString (data : list byte) : list N :=
  List.map Byte.to_N data.

Definition sid : list N := lit "k3x9".

(** An engine that answers every call. *)
Definition steady : Engine :=
  {| answer := fun _ c =>
       match c with
       | SendMessage _ _ _ => Returned (lit " good morning ")
       | GenerateContent _ _ => Returned (lit "buenos dias")
       | _ => Returned []
       end;
     answer_stream := fun _ _ =>
       {| chunks := [lit "bon"; []; lit "jour"]; failure := None |} |}.

(** An engine that makes models and chats but rejects every request for
    content. *)
Definition quota : Engine :=
  {| answer := fun _ c =>
       match c with
       | SendMessage _ _ _ => Threw (lit "quota exceeded")
       | GenerateContent _ _ => Threw (lit "quota exceeded")
       | _ => Returned []
       end;
     answer_stream := fun _ _ =>
       {| chunks := []; failure := Some (lit "quota exceeded") |} |}.

(** An engine that hears nothing: its transcripts are blank. *)
Definition blank : Engine :=
  {| answer := fun _ c =>
       match c with
       | SendMessage _ _ _ => Returned (lit "  ")
       | _ => Returned []
       end;
     answer_stream := fun _ _ => {| chunks := []; failure := None |} |}.

Definition session_with (lang : string) (buffered : list (list byte))
           (transcribing : bool) : Session :=
  {| ws := 7;
     targetLanguage := JStr (lit lang);
     audioChunks := buffered;
     isTranscribing := transcribing;
     geminiModel := Some 0%nat;
     geminiChat := Some 1%nat |}.

(** A world with one session, after its [start]. *)
Definition world_with (session : Session) : World :=
  {| activeSessions := {[ sid := session ]};
     wire := [(7%nat, WsSend (MsgSession sid));
              (7%nat, WsSend (MsgStarted (lit "Transcription started")))];
     calls := [GetGenerativeModel false; StartChat 0] |}.

Definition fragment1 : list byte := [x1a; x45]%byte.
Definition fragment2 : list byte := [xdf; xa3]%byte.

(** A fragment whose first byte happens to be an opening brace. *)
Definition brace_fragment : list byte := [x7b; x1a]%byte.

(** A connection, a [start], and four audio fragments. *)
Definition four_fragments : list Event :=
  [Connection 7 sid;
   Incoming (StringMsg (command_text_with "start" "format" "audio/ogg")) sid;
   Incoming (BufferMsg fragment1) sid;
   Incoming (BufferMsg fragment2) sid;
   Incoming (BufferMsg fragment1) sid;
   Incoming (BufferMsg fragment2) sid].

(** An engine that is down: every call throws. *)
Definition down : Engine :=
  {| answer := fun _ _ => Threw (lit "service unavailable");
     answer_stream := fun _ _ =>
       {| chunks := []; failure := Some (lit "service unavailable") |} |}.

Definition six_fragments : list (list byte) :=
  [fragment1; fragment2; fragment1; fragment2; fragment1; fragment2].

Definition empty_stream : Translators.Stream :=
  {| Translators.textBuffer := [];
     Translators.output := [];
     Translators.engineLog := [];
     Translators.suspended := [] |}.
End Fixture.

(** ** Notions used by the further properties *)

(** An entry of the wire log that is a message sent on [socket]. *)
Definition sent_on (socket : nat) (entry : nat * SocketOp) : Prop :=
  exists msg, entry = (socket, WsSend msg).

(** What handling a message for the session [sessionId], whose socket is
    [socket], may do to a world [w0]: append messages for that socket to
    the wire, append calls to the engine's log, and change the session
    itself, but not its socket. *)
Definition touches_only (sessionId : list N) (socket : nat) (w0 w : World) : Prop :=
  (forall other, other <> sessionId ->
                 activeSessions w !! other = activeSessions w0 !! other)
  /\ (exists s, activeSessions w !! sessionId = Some s /\ ws s = socket)
  /\ (exists sent, wire w = wire w0 ++ sent /\ Forall (sent_on socket) sent)
  /\ (exists more, calls w = calls w0 ++ more).

(** The value of [command.language], [None] when there is none. *)
Definition language_of (command : Json) : option Json :=
  match get_prop command (lit "language") with
  | Some value => value
  | None => None
  end.

(** The command [handleMessage] parses out of a message, when it takes the
    command branch and the text parses. *)
Definition command_of (JSON_parse : list N -> Json + list N)
           (Buffer_toString : list byte -> list N) (message : Message) : option Json :=
  match message with
  | StringMsg text =>
      match JSON_parse text with
      | inl command => Some command
      | inr _ => None
      end
  | BufferMsg data =>
      if buffer_starts_with_brace data
      then match JSON_parse (Buffer_toString data) with
           | inl command => Some command
           | inr _ => None
           end
      else None
  end.

Definition is_start (JSON_parse : list N -> Json + list N)
           (Buffer_toString : list byte -> list N) (message : Message) : bool :=
  match command_of JSON_parse Buffer_toString message with
  | Some command => has_type command "start"
  | None => false
  end.

(** An idle session holds no audio. *)
Definition idle_empty (s : Session) : Prop :=
  isTranscribing s = false -> audioChunks s = [].

Definition world_idle_empty (w : World) : Prop :=
  map_Forall (fun _ s => idle_empty s) (activeSessions w).

(** A text with no whitespace at either end. *)
Definition trimmed (text : list N) : Prop := Js.trim text = text.

(** The audio payloads submitted in a call log, oldest first. *)
Definition audio_payloads (log : list EngineCall) : list (list N) :=
  flat_map (fun c => match c with
                     | SendMessage _ _ data => [data]
                     | _ => []
                     end) log.

(** The audio submitted in a call log, oldest first: the mime type and
    the payload of each message sent to a chat. *)
Definition audio_submissions (log : list EngineCall) : list (list N * list N) :=
  flat_map (fun c => match c with
                     | SendMessage _ mimeType data => [(mimeType, data)]
                     | _ => []
                     end) log.

(** The audio fragments [fragments] handed, in order, to [handleAudioData]
    for one session. *)
Definition feed_audio (engine : Engine) (sessionId : list N)
           (fragments : list (list byte)) (w : World) : World :=
  fold_left (fun acc fragment => snd (handleAudioData engine fragment sessionId acc))
            fragments w.

(** A translation request that passes validation: a text, a supported
    target language, and a source language that is missing, [auto] or
    supported. *)
Definition acceptable (text targetLang sourceLang : option (list N)) : bool :=
  Validators.given text
  && Validators.isValidLanguage targetLang
  && (negb (Validators.given sourceLang)
      || Js.eqb (Validators.rendered sourceLang) (lit "auto")
      || Validators.isValidLanguage sourceLang).

(** The source language [translate] works with. *)
Definition source_or_default (sourceLang : option (list N)) : list N :=
  match sourceLang with
  | Some s => s
  | None => Config.defaultSourceLang
  end.

(** The calls of a gateway run made with the mime type [format] and the
    payload [data], when they carry audio. *)
Definition carries (format data : list N) (c : EngineCall) : Prop :=
  match c with
  | SendMessage _ mimeType payload => mimeType = format /\ payload = data
  | GenerateContent _ (PromptWithAudio _ mimeType payload) =>
      mimeType = format /\ payload = data
  | GenerateContent _ (Prompt _) => False
  | GenerateContentStream _ _ => False
  | _ => True
  end.

(** What a translation does to the output stream: it pushes chunks that
    are not empty, and emits errors. *)
Definition clean (ev : Translators.OutEvent) : Prop :=
  match ev with
  | Translators.Push chunk => Js.nonempty chunk = true
  | Translators.EmitError _ => True
  | Translators.PushNull => False
  end.

(** How many times the output stream was ended in a list of actions. *)
Definition end_markers (events : list Translators.OutEvent) : nat :=
  length (List.filter (fun ev => match ev with
                                 | Translators.PushNull => true
                                 | _ => false
                                 end) events).

(** Every handler of the stream has returned. *)
Definition settled (st : Translators.Stream) : Prop :=
  Forall (fun todo => todo = []) (Translators.suspended st).

(** A request to [/transcribe] that passes the two checks of the route: a
    non-empty Buffer as body and a content type that starts with
    [audio/]. *)
Definition audio_request (requestBody : option (list byte))
           (contentType : option (list N)) : bool :=
  match requestBody with
  | Some audio =>
      negb (length audio =? 0)%nat
      && Validators.given contentType
      && Js.startsWith (lit "audio/") (Validators.rendered contentType)
  | None => false
  end.

(** * Proofs *)

Lemma jseqb_eq (s t : list N) : Js.eqb s t = true -> s = t.
Proof.
  revert t. induction s as [|a s IH]; intros [|b t] H; cbn in H; try discriminate.
  - reflexivity.
  - apply andb_true_iff in H as [Hab Hst]. apply N.eqb_eq in Hab.
    rewrite Hab, (IH t Hst). reflexivity.
Qed.

Lemma jseqb_refl (s : list N) : Js.eqb s s = true.
Proof.
  induction s as [|a s IH]; [reflexivity|]. cbn. rewrite N.eqb_refl. exact IH.
Qed.

Section Keeps.
Context {S : Type} (P : S -> Prop).

Lemma keeps_ret {A} (a : A) : keeps P (ret a).
Proof. intros s H. exact H. Qed.

Lemma keeps_throw {A} message : keeps P (@throw S A message).
Proof. intros s H. exact H. Qed.

Lemma keeps_bind {A B} (m : Eff S A) (k : A -> Eff S B) :
  keeps P m -> (forall a, keeps P (k a)) -> keeps P (bind m k).
Proof.
  intros Hm Hk s H. unfold bind. specialize (Hm s H).
  destruct (m s) as [[a|e] s']; cbn [snd] in *; [apply Hk; exact Hm|exact Hm].
Qed.

Lemma keeps_try_catch {A} (m : Eff S A) (handler : list N -> Eff S A) :
  keeps P m -> (forall e, keeps P (handler e)) -> keeps P (try_catch m handler).
Proof.
  intros Hm Hh s H. unfold try_catch. specialize (Hm s H).
  destruct (m s) as [[a|e] s']; cbn [snd] in *; [exact Hm|apply Hh; exact Hm].
Qed.

Lemma keeps_if {A} (b : bool) (m1 m2 : Eff S A) :
  keeps P m1 -> keeps P m2 -> keeps P (if b then m1 else m2).
Proof. destruct b; auto. Qed.
End Keeps.

Section Proofs.
Variable JSON_parse : list N -> Json + list N.
Variable Buffer_toString : list byte -> list N.
Variable engine : Engine.

Lemma translateAndSend_run text lang sock w :
  exists tr err more,
    translateAndSend engine text lang sock w =
      (Done tt,
       {| activeSessions := activeSessions w;
          wire := wire w ++ [(sock, WsSend (MsgTranslation tr text lang err))];
          calls := calls w ++ GetGenerativeModel false :: more |})
    /\ translation_ends engine (calls w) text lang tr err more.
Proof.
  unfold translation_ends.
  unfold translateAndSend, try_catch, bind, engine_do, zoom, construct, call, send, modify.
  cbn [calls wire activeSessions]. unfold translate_request.
  destruct (answer engine (calls w) (GetGenerativeModel false)) as [x|e].
  - cbn [calls wire activeSessions].
    match goal with |- context [answer engine (calls w ++ [GetGenerativeModel false]) ?c] =>
      destruct (answer engine (calls w ++ [GetGenerativeModel false]) c) as [r|e] end.
    + exists (Js.trim r), false, [translate_request text lang (length (calls w))].
      rewrite <- !app_assoc. repeat split; reflexivity.
    + exists translation_error_text, true, [translate_request text lang (length (calls w))].
      rewrite <- !app_assoc. repeat split; reflexivity.
  - exists translation_error_text, true, []. repeat split; reflexivity.
Qed.

Lemma alter_lookup_insert (f : Session -> Session) (sid : list N) (m : gmap (list N) Session) x :
  m !! sid = Some x -> alter f sid m = <[sid := f x]> m.
Proof.
  intros H. apply map_eq. intros k. destruct (decide (k = sid)) as [->|Hne].
  - rewrite lookup_alter_eq, H, lookup_insert_eq. reflexivity.
  - rewrite lookup_alter_ne, lookup_insert_ne by congruence. reflexivity.
Qed.

Lemma nonempty_trim text :
  Js.nonempty text && Js.nonempty (Js.trim text) = Js.nonempty (Js.trim text).
Proof. destruct text; reflexivity. Qed.

Lemma processAudioChunks_run (sid : list N) w session chat :
  activeSessions w !! sid = Some session ->
  audioChunks session <> [] ->
  geminiChat session = Some chat ->
  exists sent more,
    processAudioChunks engine sid w =
      (Done tt,
       {| activeSessions := <[sid := set_audioChunks [] session]> (activeSessions w);
          wire := wire w ++ sent;
          calls := calls w ++ flush_request session chat :: more |})
    /\ match answer engine (calls w) (flush_request session chat) with
       | Threw _ =>
           sent = [(ws session, WsSend (MsgTranscription audio_error_text true))]
           /\ more = []
       | Returned text =>
           if Js.nonempty (Js.trim text)
           then
             if is_str (targetLanguage session) (lit "en")
             then sent = [(ws session, WsSend (MsgTranscription (Js.trim text) false))]
                  /\ more = []
             else exists tr err more',
                 sent = [(ws session, WsSend (MsgTranscription (Js.trim text) false));
                         (ws session, WsSend (MsgTranslation tr (Js.trim text)
                                                (targetLanguage session) err))]
                 /\ more = GetGenerativeModel false :: more'
                 /\ translation_ends engine (calls w ++ [flush_request session chat])
                                      (Js.trim text) (targetLanguage session) tr err more'
           else sent = [] /\ more = []
       end.
Proof.
  intros Hs Hne Hchat.
  unfold processAudioChunks, bind at 1, get_session. rewrite Hs.
  destruct (audioChunks session) as [|c0 cs] eqn:Hc; [congruence|].
  cbn [length Nat.eqb].
  unfold try_catch, bind at 1, update, modify. cbn [activeSessions wire calls].
  rewrite (alter_lookup_insert _ _ _ _ Hs). rewrite Hchat.
  unfold bind at 1, engine_do, zoom, call. cbn [activeSessions wire calls].
  unfold flush_request. rewrite Hc.
  destruct (answer engine (calls w) _) as [text|e] eqn:E.
  - rewrite nonempty_trim. destruct (Js.nonempty (Js.trim text)) eqn:Ht.
    + unfold bind at 1, send at 1, modify. cbn [activeSessions wire calls].
      destruct (is_str (targetLanguage session) (lit "en")) eqn:Hl; cbn [negb].
      * exists [(ws session, WsSend (MsgTranscription (Js.trim text) false))], [].
        split; [reflexivity|]. split; reflexivity.
      * match goal with |- context [translateAndSend engine ?t ?l ?s ?w0] =>
          destruct (translateAndSend_run t l s w0) as (tr & err & more' & Heq & Hends) end.
        rewrite Heq. cbn [activeSessions wire calls] in *.
        eexists _, _. split.
        { rewrite <- !app_assoc. cbn [app]. reflexivity. }
        exists tr, err, more'. split; [reflexivity|]. split; [reflexivity|exact Hends].
    + exists [], []. rewrite app_nil_r. split; [reflexivity|]. split; reflexivity.
  - unfold send, modify. cbn [activeSessions wire calls].
    exists [(ws session, WsSend (MsgTranscription audio_error_text true))], [].
    split; [reflexivity|]. split; reflexivity.
Qed.

Lemma handleAudioData_run (data : list byte) (sid : list N) w session :
  activeSessions w !! sid = Some session ->
  isTranscribing session = true ->
  let buffered := audioChunks session ++ [data] in
  let w1 := {| activeSessions := <[sid := set_audioChunks buffered session]> (activeSessions w);
               wire := wire w; calls := calls w |} in
  handleAudioData engine data sid w =
    if (5 <=? length buffered)%nat then processAudioChunks engine sid w1
    else (Done tt, w1).
Proof.
  intros Hs Ht. cbv zeta.
  unfold handleAudioData, bind at 1, get_session. rewrite Hs, Ht. cbn [negb].
  unfold bind at 1, update, modify. cbn [activeSessions wire calls].
  rewrite (alter_lookup_insert _ _ _ _ Hs).
  destruct (5 <=? _)%nat; reflexivity.
Qed.

Lemma handleStopCommand_run (sid : list N) w session :
  activeSessions w !! sid = Some session ->
  isTranscribing session = true ->
  let w1 := if (0 <? length (audioChunks session))%nat
            then snd (processAudioChunks engine sid w) else w in
  handleStopCommand engine sid w =
    (Done tt,
     {| activeSessions :=
          alter (set_audioChunks []) sid
            (alter (set_isTranscribing false) sid (activeSessions w1));
        wire := wire w1 ++ [(ws session, WsSend (MsgStopped (lit "Transcription stopped")))];
        calls := calls w1 |}).
Proof.
  intros Hs Ht. cbv zeta.
  unfold handleStopCommand, bind at 1, get_session. rewrite Hs, Ht. cbn [negb].
  unfold bind at 1.
  destruct (0 <? length (audioChunks session))%nat.
  - unfold try_catch. destruct (processAudioChunks engine sid w) as [[[]|e] w1]; reflexivity.
  - reflexivity.
Qed.

Lemma translateAndSend_sessions text lang sock w :
  activeSessions (snd (translateAndSend engine text lang sock w)) = activeSessions w
  /\ fst (translateAndSend engine text lang sock w) = Done tt.
Proof.
  destruct (translateAndSend_run text lang sock w) as (tr & err & more & Heq & _).
  rewrite Heq. split; reflexivity.
Qed.

Lemma set_audioChunks_id (s : Session) :
  audioChunks s = [] -> set_audioChunks [] s = s.
Proof. destruct s; cbn; intros ->; reflexivity. Qed.

Lemma processAudioChunks_sessions (sid : list N) w session :
  activeSessions w !! sid = Some session ->
  activeSessions (snd (processAudioChunks engine sid w))
  = <[sid := set_audioChunks [] session]> (activeSessions w)
  /\ fst (processAudioChunks engine sid w) = Done tt.
Proof.
  intros Hs.
  destruct (audioChunks session) as [|c0 cs] eqn:Hc.
  - assert (Heq : processAudioChunks engine sid w = (Done tt, w)).
    { unfold processAudioChunks, bind at 1, get_session. rewrite Hs, Hc. reflexivity. }
    rewrite Heq. cbn [fst snd].
    rewrite set_audioChunks_id by exact Hc. rewrite insert_id by exact Hs. split; reflexivity.
  - destruct (geminiChat session) as [chat|] eqn:Hchat.
    + destruct (processAudioChunks_run sid w session chat Hs) as (sent & more & Heq & _);
        [congruence|exact Hchat|].
      rewrite Heq. split; reflexivity.
    + assert (Heq : processAudioChunks engine sid w =
                      (Done tt,
                       {| activeSessions := <[sid := set_audioChunks [] session]> (activeSessions w);
                          wire := wire w ++ [(ws session, WsSend (MsgTranscription audio_error_text true))];
                          calls := calls w |})).
      { unfold processAudioChunks, bind at 1, get_session. rewrite Hs, Hc, Hchat.
        cbn [length Nat.eqb]. unfold try_catch, bind at 1, update, modify.
        cbn [activeSessions wire calls].
        rewrite (alter_lookup_insert _ _ _ _ Hs). reflexivity. }
      rewrite Heq. split; reflexivity.
Qed.

Lemma handleStopCommand_result (sid : list N) w session :
  activeSessions w !! sid = Some session ->
  isTranscribing session = true ->
  let flushed := if (0 <? length (audioChunks session))%nat
                 then snd (processAudioChunks engine sid w) else w in
  handleStopCommand engine sid w =
    (Done tt,
     {| activeSessions :=
          <[sid := set_audioChunks [] (set_isTranscribing false session)]>
            (activeSessions w);
        wire := wire flushed
                ++ [(ws session, WsSend (MsgStopped (lit "Transcription stopped")))];
        calls := calls flushed |}).
Proof.
  intros Hs Ht. cbv zeta.
  rewrite (handleStopCommand_run sid w session Hs Ht).
  destruct (0 <? length (audioChunks session))%nat eqn:Hlen.
  - destruct (processAudioChunks_sessions sid w session Hs) as [-> _].
    do 2 f_equal. apply map_eq. intros k. destruct (decide (k = sid)) as [->|Hne].
    + rewrite !lookup_alter_eq, !lookup_insert_eq. reflexivity.
    + rewrite !lookup_alter_ne, !lookup_insert_ne by congruence. reflexivity.
  - do 2 f_equal. apply map_eq. intros k. destruct (decide (k = sid)) as [->|Hne].
    + rewrite !lookup_alter_eq, Hs, !lookup_insert_eq. reflexivity.
    + rewrite !lookup_alter_ne, !lookup_insert_ne by congruence. reflexivity.
Qed.

(** C4. A [stop] received while transcribing flushes a non-empty buffer
    first (the flush runs on the world as [stop] found it, its messages
    come before [stopped] and its engine call carries every buffered
    fragment), then sets [isTranscribing] to false, empties the buffer and
    sends [stopped].  A [stop] while idle and a [start] while transcribing
    change nothing. *)
Theorem stop_flushes_then_idles (sid : list N) w session :
  activeSessions w !! sid = Some session ->
  (isTranscribing session = true ->
     let flushed := if (0 <? length (audioChunks session))%nat
                    then snd (processAudioChunks engine sid w) else w in
     handleStopCommand engine sid w =
       (Done tt,
        {| activeSessions :=
             <[sid := set_audioChunks [] (set_isTranscribing false session)]>
               (activeSessions w);
           wire := wire flushed
                   ++ [(ws session, WsSend (MsgStopped (lit "Transcription stopped")))];
           calls := calls flushed |})
     /\ (forall chat,
           geminiChat session = Some chat ->
           (0 < length (audioChunks session))%nat ->
           exists more, calls flushed = calls w ++ flush_request session chat :: more)
     /\ (forall command, handleStartCommand engine command sid w = (Done tt, w)))
  /\ (isTranscribing session = false ->
        handleStopCommand engine sid w = (Done tt, w)).
Proof.
  intros Hs. split.
  - intros Ht. cbv zeta. split; [|split].
    + exact (handleStopCommand_result sid w session Hs Ht).
    + intros chat Hchat Hlen.
      assert (Hlt : (0 <? length (audioChunks session))%nat = true)
        by (apply Nat.ltb_lt; exact Hlen).
      rewrite Hlt.
      destruct (processAudioChunks_run sid w session chat Hs) as (sent & more & Heq & _);
        [destruct (audioChunks session); [cbn in Hlen; lia|congruence]|exact Hchat|].
      rewrite Heq. exists more. reflexivity.
    + intros command. unfold handleStartCommand, bind at 1, get_session.
      rewrite Hs, Ht. reflexivity.
  - intros Hf. unfold handleStopCommand, bind at 1, get_session. rewrite Hs, Hf. reflexivity.
Qed.

Lemma alter_insert_same (f : Session -> Session) (sid : list N)
      (m : gmap (list N) Session) x :
  alter f sid (<[sid := x]> m) = <[sid := f x]> m.
Proof.
  rewrite (alter_lookup_insert f sid _ x) by apply lookup_insert_eq.
  apply insert_insert_eq.
Qed.

Lemma world_ok_insert (sid : list N) w w' s' :
  world_ok w -> session_ok s' ->
  activeSessions w' = <[sid := s']> (activeSessions w) ->
  world_ok w'.
Proof.
  unfold world_ok. intros Hw Hs' ->. apply map_Forall_insert_2; assumption.
Qed.

Lemma world_ok_same w w' :
  world_ok w -> activeSessions w' = activeSessions w -> world_ok w'.
Proof. unfold world_ok. intros Hw ->. exact Hw. Qed.

Lemma world_ok_lookup (sid : list N) w s :
  world_ok w -> activeSessions w !! sid = Some s -> session_ok s.
Proof. unfold world_ok. intros Hw Hs. exact (Hw sid s Hs). Qed.

Lemma session_ok_cleared s :
  session_ok s -> session_ok (set_audioChunks [] s).
Proof. intros [_ H]. split; [cbn; lia|exact H]. Qed.

Lemma handleStartCommand_ok command (sid : list N) w :
  world_ok w -> world_ok (snd (handleStartCommand engine command sid w)).
Proof.
  intros Hw. unfold handleStartCommand, bind at 1, get_session.
  destruct (activeSessions w !! sid) as [session|] eqn:Hs; [|exact Hw].
  destruct (isTranscribing session) eqn:Ht; [exact Hw|].
  unfold bind, update, modify, try_catch, engine_do, zoom, construct, send, throw.
  cbn [activeSessions wire calls].
  rewrite (alter_lookup_insert _ _ _ _ Hs), !alter_insert_same.
  destruct (answer engine (calls w) (GetGenerativeModel false)) as [x|e];
    cbn [activeSessions wire calls].
  - rewrite !alter_insert_same.
    match goal with |- context [answer engine ?l ?c] => destruct (answer engine l c) as [y|e] end;
      cbn [activeSessions wire calls snd]; rewrite !alter_insert_same.
    + eapply world_ok_insert; [exact Hw| |reflexivity].
      split; [cbn; lia|cbn; eauto].
    + eapply world_ok_insert; [exact Hw| |reflexivity].
      split; [cbn; lia|cbn; discriminate].
  - rewrite !alter_insert_same.
    eapply world_ok_insert; [exact Hw| |reflexivity].
    split; [cbn; lia|cbn; discriminate].
Qed.

Lemma handleStopCommand_ok (sid : list N) w :
  world_ok w -> world_ok (snd (handleStopCommand engine sid w)).
Proof.
  intros Hw.
  destruct (activeSessions w !! sid) as [session|] eqn:Hs.
  - destruct (isTranscribing session) eqn:Ht.
    + rewrite (handleStopCommand_result sid w session Hs Ht). cbn [snd].
      eapply world_ok_insert; [exact Hw| |reflexivity].
      split; [cbn; lia|cbn; discriminate].
    + unfold handleStopCommand, bind at 1, get_session. rewrite Hs, Ht. exact Hw.
  - unfold handleStopCommand, bind at 1, get_session. rewrite Hs. exact Hw.
Qed.

Lemma handleAudioData_ok data (sid : list N) w :
  world_ok w -> world_ok (snd (handleAudioData engine data sid w)).
Proof.
  intros Hw.
  destruct (activeSessions w !! sid) as [session|] eqn:Hs.
  - destruct (isTranscribing session) eqn:Ht.
    + rewrite (handleAudioData_run data sid w session Hs Ht).
      destruct (world_ok_lookup sid w session Hw Hs) as [Hlen Hchat].
      destruct (5 <=? length (audioChunks session ++ [data]))%nat eqn:Hth.
      * match goal with |- context [processAudioChunks engine sid ?w1] =>
          destruct (processAudioChunks_sessions sid w1 (set_audioChunks (audioChunks session ++ [data]) session))
            as [Heq _] end.
        { apply lookup_insert_eq. }
        eapply world_ok_insert; [exact Hw| |rewrite Heq; cbn [activeSessions]; apply insert_insert_eq].
        split; [cbn; lia|cbn; exact Hchat].
      * eapply world_ok_insert; [exact Hw| |reflexivity].
        apply Nat.leb_gt in Hth. split; [exact Hth|exact Hchat].
    + unfold handleAudioData, bind at 1, get_session. rewrite Hs, Ht. exact Hw.
  - unfold handleAudioData, bind at 1, get_session. rewrite Hs. exact Hw.
Qed.

Lemma handleSetLanguageCommand_run command (sid : list N) w session :
  activeSessions w !! sid = Some session ->
  handleSetLanguageCommand command sid w =
    match get_prop command (lit "language") with
    | None => (Raised (lit "Cannot read properties of null (reading 'language')"), w)
    | Some None => (Done tt, w)
    | Some (Some value) =>
        if truthy (Some value)
        then (Done tt,
              {| activeSessions := <[sid := set_targetLanguage value session]> (activeSessions w);
                 wire := wire w ++ [(ws session, WsSend (MsgLanguageSet value))];
                 calls := calls w |})
        else (Done tt, w)
    end.
Proof.
  intros Hs. unfold handleSetLanguageCommand.
  destruct (get_prop command (lit "language")) as [[value|]|]; try reflexivity.
  destruct (truthy (Some value)); [|reflexivity]. cbn [negb].
  unfold bind at 1, get_session. rewrite Hs.
  unfold bind, update, modify, send. cbn [activeSessions wire calls].
  rewrite (alter_lookup_insert _ _ _ _ Hs). reflexivity.
Qed.

Lemma handleSetLanguageCommand_ok command (sid : list N) w :
  world_ok w -> world_ok (snd (handleSetLanguageCommand command sid w)).
Proof.
  intros Hw.
  destruct (activeSessions w !! sid) as [session|] eqn:Hs.
  - rewrite (handleSetLanguageCommand_run command sid w session Hs).
    destruct (get_prop command (lit "language")) as [[value|]|]; try exact Hw.
    destruct (truthy (Some value)); [|exact Hw].
    eapply world_ok_insert; [exact Hw| |reflexivity].
    exact (world_ok_lookup sid w session Hw Hs).
  - unfold handleSetLanguageCommand.
    destruct (get_prop command (lit "language")) as [[value|]|]; try exact Hw.
    destruct (negb (truthy (Some value))); [exact Hw|].
    unfold bind at 1, get_session. rewrite Hs. exact Hw.
Qed.

Lemma handleCommand_ok text (sid : list N) w :
  world_ok w -> world_ok (snd (handleCommand JSON_parse engine text sid w)).
Proof.
  intros Hw. unfold handleCommand.
  destruct (JSON_parse text) as [command|e]; [|exact Hw].
  destruct (get_prop command (lit "type")) as [[[]|]|]; try exact Hw.
  destruct (Js.eqb s (lit "start")); [apply handleStartCommand_ok; exact Hw|].
  destruct (Js.eqb s (lit "stop")); [apply handleStopCommand_ok; exact Hw|].
  destruct (Js.eqb s (lit "setLanguage")); [apply handleSetLanguageCommand_ok; exact Hw|].
  exact Hw.
Qed.

Lemma try_catch_send_ok (m : Server unit) socket w :
  world_ok (snd (m w)) ->
  world_ok (snd (try_catch m (fun message => send socket (MsgError message)) w)).
Proof.
  unfold try_catch. destruct (m w) as [[[]|e] w1]; intros H; exact H.
Qed.

Lemma handleMessage_ok message (sid : list N) w :
  world_ok w ->
  world_ok (snd (handleMessage JSON_parse Buffer_toString engine message sid w)).
Proof.
  intros Hw. unfold handleMessage.
  destruct (activeSessions w !! sid) as [session|]; [|exact Hw].
  apply try_catch_send_ok.
  destruct message as [text|data].
  - apply handleCommand_ok; exact Hw.
  - destruct (buffer_starts_with_brace data).
    + apply handleCommand_ok; exact Hw.
    + apply handleAudioData_ok; exact Hw.
Qed.

Lemma step_ok ev w :
  world_ok w -> world_ok (step JSON_parse Buffer_toString engine ev w).
Proof.
  intros Hw. destruct ev as [socket sid|message sid|sid|sid]; unfold step.
  - unfold handleConnection, bind, modify, send. cbn [snd activeSessions].
    eapply world_ok_insert; [exact Hw| |reflexivity].
    split; [cbn; lia|cbn; discriminate].
  - apply handleMessage_ok; exact Hw.
  - unfold handleClose. destruct (activeSessions w !! sid); [|exact Hw].
    cbn [snd]. unfold world_ok. cbn [activeSessions]. apply map_Forall_delete. exact Hw.
  - unfold handleError, handleClose. destruct (activeSessions w !! sid); [|exact Hw].
    cbn [snd]. unfold world_ok. cbn [activeSessions]. apply map_Forall_delete. exact Hw.
Qed.

Lemma run_ok events w :
  world_ok w -> world_ok (run JSON_parse Buffer_toString engine events w).
Proof.
  revert w. induction events as [|ev events IH]; intros w Hw; [exact Hw|].
  cbn. apply IH. apply step_ok. exact Hw.
Qed.

Lemma initial_ok : world_ok initial.
Proof. unfold world_ok, initial. cbn. apply map_Forall_empty. Qed.

Lemma flush_calls_once (sid : list N) w session chat :
  activeSessions w !! sid = Some session ->
  audioChunks session <> [] ->
  geminiChat session = Some chat ->
  exists sent more,
    processAudioChunks engine sid w =
      (Done tt,
       {| activeSessions := <[sid := set_audioChunks [] session]> (activeSessions w);
          wire := wire w ++ sent;
          calls := calls w ++ flush_request session chat :: more |})
    /\ existsb is_SendMessage more = false.
Proof.
  intros Hs Hne Hchat.
  destruct (processAudioChunks_run sid w session chat Hs Hne Hchat)
    as (sent & more & Heq & Hcase).
  exists sent, more. split; [exact Heq|].
  destruct (answer engine (calls w) (flush_request session chat)) as [text|e].
  - destruct (Js.nonempty (Js.trim text)).
    + destruct (is_str (targetLanguage session) (lit "en")).
      * destruct Hcase as [_ ->]. reflexivity.
      * destruct Hcase as (tr & err & more' & _ & -> & Hends).
        unfold translation_ends in Hends.
        destruct (answer engine _ (GetGenerativeModel false)).
        -- destruct Hends as [-> _]. reflexivity.
        -- destruct Hends as (_ & _ & ->). reflexivity.
    + destruct Hcase as [_ ->]. reflexivity.
  - destruct Hcase as [_ ->]. reflexivity.
Qed.

(** C5. In a world the server can reach, a fragment appended to the buffer
    of a transcribing session brings it to at most five fragments; below
    five nothing is sent to the engine and the fragment stays buffered; at
    five exactly one audio submission is made.  Every flush submits the
    concatenation of the buffered fragments, oldest first, and leaves the
    buffer empty. *)
Theorem flush_exactly_at_threshold :
  (forall events (sid : list N) session data,
     let w := run JSON_parse Buffer_toString engine events initial in
     activeSessions w !! sid = Some session ->
     isTranscribing session = true ->
     let buffered := audioChunks session ++ [data] in
     (length buffered <= 5)%nat
     /\ ((length buffered < 5)%nat ->
           handleAudioData engine data sid w =
             (Done tt,
              {| activeSessions :=
                   <[sid := set_audioChunks buffered session]> (activeSessions w);
                 wire := wire w;
                 calls := calls w |}))
     /\ ((length buffered = 5)%nat ->
           exists chat sent more,
             geminiChat session = Some chat
             /\ handleAudioData engine data sid w =
                  (Done tt,
                   {| activeSessions :=
                        <[sid := set_audioChunks [] session]> (activeSessions w);
                      wire := wire w ++ sent;
                      calls := calls w
                               ++ SendMessage chat (lit "audio/webm")
                                    (Js.base64 (Js.Buffer_concat buffered))
                               :: more |})
             /\ existsb is_SendMessage more = false))
  /\ (forall (sid : list N) w session chat,
        activeSessions w !! sid = Some session ->
        (0 < length (audioChunks session))%nat ->
        geminiChat session = Some chat ->
        exists sent more,
          processAudioChunks engine sid w =
            (Done tt,
             {| activeSessions :=
                  <[sid := set_audioChunks [] session]> (activeSessions w);
                wire := wire w ++ sent;
                calls := calls w
                         ++ SendMessage chat (lit "audio/webm")
                              (Js.base64 (Js.Buffer_concat (audioChunks session)))
                         :: more |})
          /\ existsb is_SendMessage more = false).
Proof.
  split.
  - intros events sid session data w Hs Ht buffered.
    assert (Hok : session_ok session).
    { apply (world_ok_lookup sid w); [|exact Hs]. apply run_ok, initial_ok. }
    destruct Hok as [Hlen Hchat].
    assert (Hb : length buffered = S (length (audioChunks session))).
    { unfold buffered. rewrite length_app. cbn. lia. }
    split; [lia|]. split.
    + intros Hlt. rewrite (handleAudioData_run data sid w session Hs Ht).
      fold buffered. apply Nat.leb_gt in Hlt. rewrite Hlt. reflexivity.
    + intros H5. destruct (Hchat Ht) as [chat Hc]. exists chat.
      rewrite (handleAudioData_run data sid w session Hs Ht). fold buffered.
      assert (Hle : (5 <=? length buffered)%nat = true) by (apply Nat.leb_le; lia).
      rewrite Hle.
      match goal with |- context [processAudioChunks engine sid ?w1] =>
        destruct (flush_calls_once sid w1 (set_audioChunks buffered session) chat)
          as (sent & more & Heq & Hmore) end.
      { apply lookup_insert_eq. }
      { cbn. intros E. rewrite E in H5. discriminate. }
      { exact Hc. }
      exists sent, more. split; [exact Hc|]. split; [|exact Hmore].
      rewrite Heq. cbn [activeSessions wire calls]. rewrite insert_insert_eq. reflexivity.
  - intros sid w session chat Hs Hlen Hchat.
    apply (flush_calls_once sid w session chat Hs); [|exact Hchat].
    intros E. rewrite E in Hlen. cbn in Hlen. lia.
Qed.

(** C1. When the transcription call of a flush throws, the flush itself
    does not throw; the session's socket is sent one [transcription]
    message with the placeholder text and [error: true]; nothing is closed;
    the session stays in the map with its buffer emptied and its other
    fields as they were; and the next audio fragment is handled as usual:
    a transcribing session buffers it. *)
Theorem failed_flush_keeps_session (sid : list N) w session chat message :
  activeSessions w !! sid = Some session ->
  (0 < length (audioChunks session))%nat ->
  geminiChat session = Some chat ->
  answer engine (calls w) (flush_request session chat) = Threw message ->
  let w' := snd (processAudioChunks engine sid w) in
  fst (processAudioChunks engine sid w) = Done tt
  /\ wire w' = wire w
               ++ [(ws session, WsSend (MsgTranscription audio_error_text true))]
  /\ activeSessions w' = <[sid := set_audioChunks [] session]> (activeSessions w)
  /\ activeSessions w' !! sid = Some (set_audioChunks [] session)
  /\ (never_closed w -> never_closed w')
  /\ (forall data,
        isTranscribing session = true ->
        buffer_starts_with_brace data = false ->
        handleMessage JSON_parse Buffer_toString engine (BufferMsg data) sid w' =
          (Done tt,
           {| activeSessions :=
                <[sid := set_audioChunks [data] session]> (activeSessions w);
              wire := wire w';
              calls := calls w' |})).
Proof.
  intros Hs Hlen Hchat Hfail w'.
  assert (Hne : audioChunks session <> []).
  { intros E. rewrite E in Hlen. cbn in Hlen. lia. }
  destruct (processAudioChunks_run sid w session chat Hs Hne Hchat)
    as (sent & more & Heq & Hcase).
  rewrite Hfail in Hcase. destruct Hcase as [-> ->].
  subst w'. rewrite Heq. cbn [fst snd activeSessions wire calls].
  split; [reflexivity|]. split; [reflexivity|]. split; [reflexivity|].
  split; [apply lookup_insert_eq|]. split.
  - intros Hnc socket Hin. apply elem_of_app in Hin as [Hin|Hin].
    + exact (Hnc socket Hin).
    + apply list_elem_of_singleton in Hin. discriminate.
  - intros data Ht Hb. unfold handleMessage. cbn [activeSessions].
    rewrite lookup_insert_eq, Hb. unfold try_catch.
    erewrite handleAudioData_run; [|cbn [activeSessions]; apply lookup_insert_eq|exact Ht].
    cbn [activeSessions wire calls set_audioChunks audioChunks app length Nat.leb].
    rewrite insert_insert_eq. reflexivity.
Qed.

Section Frame.
(** A property of the world that sending, assigning to a session field
    and calling the engine keep is kept by every message handler. *)
Variable P : World -> Prop.
Hypothesis P_send : forall socket msg, keeps P (send socket msg).
Hypothesis P_update : forall (sid : list N) f, keeps P (update sid f).
Hypothesis P_call : forall c, webm_call c -> keeps P (engine_do (call engine c)).

Lemma P_construct c : webm_call c -> keeps P (engine_do (construct engine c)).
Proof. intros Hc w H. exact (P_call c Hc w H). Qed.

Lemma P_get_session (sid : list N) e : keeps P (get_session sid e).
Proof. intros w H. unfold get_session. destruct (activeSessions w !! sid); exact H. Qed.

Ltac frame :=
  repeat first
    [ apply keeps_ret | apply keeps_throw | apply P_send | apply P_update
    | apply P_get_session
    | apply P_call; exact I | apply P_construct; exact I
    | apply P_call; reflexivity
    | apply keeps_bind; [|intros ?] | apply keeps_try_catch; [|intros ?]
    | apply keeps_if
    | match goal with |- keeps _ (match ?x with _ => _ end) => destruct x end ].

Lemma translateAndSend_keeps text lang socket :
  keeps P (translateAndSend engine text lang socket).
Proof. unfold translateAndSend. frame. Qed.

Lemma processAudioChunks_keeps (sid : list N) :
  keeps P (processAudioChunks engine sid).
Proof. unfold processAudioChunks. frame. Qed.

Lemma handleCommand_keeps text (sid : list N) :
  keeps P (handleCommand JSON_parse engine text sid).
Proof.
  unfold handleCommand, handleStartCommand, handleStopCommand, handleSetLanguageCommand.
  frame.
Qed.

Lemma handleAudioData_keeps data (sid : list N) :
  keeps P (handleAudioData engine data sid).
Proof. unfold handleAudioData. frame. Qed.

Lemma handleMessage_keeps message (sid : list N) :
  keeps P (handleMessage JSON_parse Buffer_toString engine message sid).
Proof.
  intros w H. unfold handleMessage.
  destruct (activeSessions w !! sid) as [session|]; [|exact H].
  apply keeps_try_catch; [|intros ?; apply P_send|exact H].
  destruct message; [apply handleCommand_keeps|].
  apply keeps_if; [apply handleCommand_keeps|apply handleAudioData_keeps].
Qed.
End Frame.

Lemma webm_handleMessage message (sid : list N) :
  keeps webm_world (handleMessage JSON_parse Buffer_toString engine message sid).
Proof.
  apply handleMessage_keeps.
  - intros socket msg w H. exact H.
  - intros sid' f w H. exact H.
  - intros c Hc w H. unfold engine_do, zoom, call, webm_world, webm_only in *.
    cbn [snd calls]. apply Forall_app. split; [exact H|]. constructor; [exact Hc|constructor].
Qed.

Lemma open_handleMessage message (sid : list N) :
  keeps never_closed (handleMessage JSON_parse Buffer_toString engine message sid).
Proof.
  apply handleMessage_keeps.
  - intros socket msg w H socket' Hin. cbn in Hin.
    apply elem_of_app in Hin as [Hin|Hin]; [exact (H socket' Hin)|].
    apply list_elem_of_singleton in Hin. discriminate.
  - intros sid' f w H. exact H.
  - intros c _ w H. exact H.
Qed.

Lemma present_handleMessage message (sid sid' : list N) :
  keeps (has_session sid')
        (handleMessage JSON_parse Buffer_toString engine message sid).
Proof.
  apply handleMessage_keeps.
  - intros socket msg w H. exact H.
  - intros sid0 f w H. unfold has_session, update, modify in *. cbn [snd activeSessions].
    destruct (decide (sid' = sid0)) as [->|Hne].
    + rewrite lookup_alter_eq. destruct H as [x ->]. eexists. reflexivity.
    + rewrite lookup_alter_ne by congruence. exact H.
  - intros c _ w H. exact H.
Qed.

Lemma webm_run events w :
  webm_world w -> webm_world (run JSON_parse Buffer_toString engine events w).
Proof.
  revert w. induction events as [|ev events IH]; intros w H; [exact H|].
  cbn. apply IH. destruct ev as [socket sid|message sid|sid|sid]; unfold step.
  - exact H.
  - apply webm_handleMessage. exact H.
  - unfold handleClose. destruct (activeSessions w !! sid); exact H.
  - unfold handleError, handleClose. destruct (activeSessions w !! sid); exact H.
Qed.

Lemma handleAudioData_idle data (sid : list N) w session :
  activeSessions w !! sid = Some session ->
  isTranscribing session = false ->
  handleAudioData engine data sid w = (Done tt, w).
Proof.
  intros Hs Hf. unfold handleAudioData, bind at 1, get_session. rewrite Hs, Hf. reflexivity.
Qed.

Lemma handleMessage_command text (sid : list N) w session command :
  activeSessions w !! sid = Some session ->
  JSON_parse text = inl command ->
  handleMessage JSON_parse Buffer_toString engine (StringMsg text) sid w =
    try_catch
      (match get_prop command (lit "type") with
       | None => throw null_command_error
       | Some (Some (JStr type)) =>
           if Js.eqb type (lit "start") then handleStartCommand engine command sid
           else if Js.eqb type (lit "stop") then handleStopCommand engine sid
           else if Js.eqb type (lit "setLanguage")
                then handleSetLanguageCommand command sid
           else ret tt
       | Some _ => ret tt
       end)
      (fun message => send (ws session) (MsgError message)) w.
Proof.
  intros Hs Hp. unfold handleMessage. rewrite Hs. unfold try_catch, handleCommand.
  rewrite Hp. reflexivity.
Qed.


Lemma handleMessage_text message text (sid : list N) w session :
  activeSessions w !! sid = Some session ->
  parsed_text Buffer_toString message = Some text ->
  handleMessage JSON_parse Buffer_toString engine message sid w =
    try_catch (handleCommand JSON_parse engine text sid)
              (fun message => send (ws session) (MsgError message)) w.
Proof.
  intros Hs Ht. unfold handleMessage. rewrite Hs.
  destruct message as [text'|data]; cbn [parsed_text] in Ht.
  - congruence.
  - destruct (buffer_starts_with_brace data); [|discriminate]. congruence.
Qed.

Lemma handleAudioData_sent data (sid : list N) w session :
  activeSessions w !! sid = Some session ->
  fst (handleAudioData engine data sid w) = Done tt
  /\ exists sent,
      wire (snd (handleAudioData engine data sid w)) = wire w ++ sent
      /\ Forall not_error sent.
Proof.
  intros Hs.
  assert (Hnone : exists sent, wire w = wire w ++ sent /\ Forall not_error sent).
  { exists []. rewrite app_nil_r. split; [reflexivity|constructor]. }
  destruct (isTranscribing session) eqn:Ht.
  - rewrite (handleAudioData_run data sid w session Hs Ht).
    destruct (5 <=? length (audioChunks session ++ [data]))%nat; [|split; [reflexivity|exact Hnone]].
    match goal with |- context [processAudioChunks engine sid ?w0] => set (w1 := w0) end.
    assert (Hs1 : activeSessions w1 !! sid
                  = Some (set_audioChunks (audioChunks session ++ [data]) session))
      by apply lookup_insert_eq.
    destruct (processAudioChunks_sessions sid w1 _ Hs1) as [_ Hdone].
    split; [exact Hdone|].
    destruct (geminiChat session) as [chat|] eqn:Hchat.
    + destruct (processAudioChunks_run sid w1 _ chat Hs1) as (sent & more & Heq & Hcase).
      { cbn. destruct (audioChunks session); discriminate. }
      { exact Hchat. }
      rewrite Heq. cbn [snd wire]. exists sent. split; [reflexivity|].
      destruct (answer engine (calls w1) _) as [text|e].
      * destruct (Js.nonempty (Js.trim text)).
        -- destruct (is_str _ (lit "en")).
           ++ destruct Hcase as [-> _]. constructor; [|constructor]. intros m. discriminate.
           ++ destruct Hcase as (tr & err & more' & -> & _).
              constructor; [intros m; discriminate|].
              constructor; [intros m; discriminate|constructor].
        -- destruct Hcase as [-> _]. constructor.
      * destruct Hcase as [-> _]. constructor; [|constructor]. intros m. discriminate.
    + assert (Heq : processAudioChunks engine sid w1 =
                      (Done tt,
                       {| activeSessions :=
                            <[sid := set_audioChunks []
                                       (set_audioChunks (audioChunks session ++ [data]) session)]>
                              (activeSessions w1);
                          wire := wire w1
                                  ++ [(ws session, WsSend (MsgTranscription audio_error_text true))];
                          calls := calls w1 |})).
      { unfold processAudioChunks, bind at 1, get_session. rewrite Hs1.
        cbn [set_audioChunks audioChunks geminiChat ws]. rewrite Hchat.
        destruct (audioChunks session ++ [data]) as [|c0 cs] eqn:Hc;
          [destruct (audioChunks session); discriminate|].
        cbn [length Nat.eqb]. unfold try_catch, bind at 1, update, modify.
        cbn [activeSessions wire calls].
        rewrite (alter_lookup_insert _ _ _ _ Hs1). reflexivity. }
      rewrite Heq. cbn [snd wire]. eexists. split; [reflexivity|].
      constructor; [|constructor]. intros m. discriminate.
  - rewrite (handleAudioData_idle data sid w session Hs Ht). split; [reflexivity|exact Hnone].
Qed.

(** C8 (amended). The text of a message is parsed as a command when the
    message is a string or a Buffer whose first byte is an opening brace.
    When [JSON.parse] rejects that text, or the text parses to [null], the
    server sends one [error] message to the session's socket and changes
    nothing else; when it parses to a command whose type is missing, or is
    a string, number, boolean or [null] other than the three command
    names, nothing changes and nothing is sent.  A Buffer that does not
    start with a brace is never parsed, whatever its text: it is handled
    as audio, and no [error] message is sent for it.  In every case the
    session is still in the map and no socket is closed. *)
Theorem protocol_errors_keep_connection (sid : list N) w session :
  activeSessions w !! sid = Some session ->
  (forall message text,
      parsed_text Buffer_toString message = Some text ->
      (forall e,
          JSON_parse text = inr e ->
          handleMessage JSON_parse Buffer_toString engine message sid w =
            (Done tt,
             {| activeSessions := activeSessions w;
                wire := wire w ++ [(ws session, WsSend (MsgError e))];
                calls := calls w |}))
      /\ (JSON_parse text = inl JNull ->
          handleMessage JSON_parse Buffer_toString engine message sid w =
            (Done tt,
             {| activeSessions := activeSessions w;
                wire := wire w ++ [(ws session, WsSend (MsgError null_command_error))];
                calls := calls w |}))
      /\ (forall command,
            JSON_parse text = inl command ->
            unknown_plain_type command = true ->
            handleMessage JSON_parse Buffer_toString engine message sid w
            = (Done tt, w)))
  /\ (forall data,
        buffer_starts_with_brace data = false ->
        parsed_text Buffer_toString (BufferMsg data) = None
        /\ handleMessage JSON_parse Buffer_toString engine (BufferMsg data) sid w
           = handleAudioData engine data sid w
        /\ fst (handleAudioData engine data sid w) = Done tt
        /\ exists sent,
            wire (snd (handleAudioData engine data sid w)) = wire w ++ sent
            /\ Forall not_error sent)
  /\ (forall message,
        let w' := snd (handleMessage JSON_parse Buffer_toString engine message sid w) in
        (is_Some (activeSessions w' !! sid))
        /\ (never_closed w -> never_closed w')).
Proof.
  intros Hs. split; [|split].
  - intros message text Ht. rewrite (handleMessage_text message text sid w session Hs Ht).
    unfold try_catch, handleCommand. split; [|split].
    + intros e Hp. rewrite Hp. reflexivity.
    + intros Hp. rewrite Hp. reflexivity.
    + intros command Hp Hu. rewrite Hp. unfold unknown_plain_type, unknown_type in Hu.
      destruct (get_prop command (lit "type")) as [[[]|]|]; try discriminate; try reflexivity.
      apply negb_true_iff in Hu. apply orb_false_iff in Hu as [Hu H3].
      apply orb_false_iff in Hu as [H1 H2]. rewrite H1, H2, H3. reflexivity.
  - intros data Hb. destruct (handleAudioData_sent data sid w session Hs) as [Hdone Hsent].
    split; [cbn [parsed_text]; rewrite Hb; reflexivity|].
    split; [|split; [exact Hdone|exact Hsent]].
    unfold handleMessage. rewrite Hs, Hb. unfold try_catch.
    destruct (handleAudioData engine data sid w) as [[[]|e] w1]; [reflexivity|discriminate].
  - intros message. cbv zeta. split.
    + apply (present_handleMessage message sid sid w). unfold has_session.
      rewrite Hs. eexists. reflexivity.
    + apply (open_handleMessage message sid w).
Qed.

(** C3 (amended). When the transcription call of a flush returns a text:
    if the text is empty once trimmed, nothing is sent and no further call
    is made; otherwise a [transcription] message carries the trimmed text,
    and, when [targetLanguage] is not the string [en], a translation is
    asked for and a [translation] message follows, carrying the trimmed
    transcript as [sourceText], the session's [targetLanguage], and either
    the trimmed translation or, when the translation fails, the placeholder
    text with [error: true]. *)
Theorem successful_flush_messages (sid : list N) w session chat text :
  activeSessions w !! sid = Some session ->
  (0 < length (audioChunks session))%nat ->
  geminiChat session = Some chat ->
  answer engine (calls w) (flush_request session chat) = Returned text ->
  let w' := snd (processAudioChunks engine sid w) in
  let transcript := Js.trim text in
  let log := calls w ++ [flush_request session chat] in
  (Js.nonempty transcript = false -> wire w' = wire w /\ calls w' = log)
  /\ (Js.nonempty transcript = true ->
        is_str (targetLanguage session) (lit "en") = true ->
        wire w' = wire w
                  ++ [(ws session, WsSend (MsgTranscription transcript false))]
        /\ calls w' = log)
  /\ (Js.nonempty transcript = true ->
        is_str (targetLanguage session) (lit "en") = false ->
        exists translated error more,
          wire w' = wire w
                    ++ [(ws session, WsSend (MsgTranscription transcript false));
                        (ws session,
                         WsSend (MsgTranslation translated transcript
                                                (targetLanguage session) error))]
          /\ calls w' = log ++ GetGenerativeModel false :: more
          /\ translation_ends engine log transcript (targetLanguage session)
                               translated error more).
Proof.
  intros Hs Hlen Hchat Hok w' transcript log.
  assert (Hne : audioChunks session <> []).
  { intros E. rewrite E in Hlen. cbn in Hlen. lia. }
  destruct (processAudioChunks_run sid w session chat Hs Hne Hchat)
    as (sent & more & Heq & Hcase).
  rewrite Hok in Hcase. fold transcript in Hcase.
  subst w'. rewrite Heq. cbn [snd wire calls].
  assert (Hlog : forall l, calls w ++ flush_request session chat :: l = log ++ l).
  { intros l. unfold log. rewrite <- app_assoc. reflexivity. }
  destruct (Js.nonempty transcript) eqn:Htr.
  - split; [discriminate|]. split.
    + intros _ Hen. rewrite Hen in Hcase. destruct Hcase as [-> ->].
      split; reflexivity.
    + intros _ Hen. rewrite Hen in Hcase.
      destruct Hcase as (tr & err & more' & -> & -> & Hends).
      exists tr, err, more'. split; [reflexivity|]. split; [apply Hlog|exact Hends].
  - destruct Hcase as [-> ->]. rewrite app_nil_r. split; [|split].
    + intros _. split; reflexivity.
    + discriminate.
    + discriminate.
Qed.
End Proofs.

Lemma is_terminal_iff c :
  Translators.is_terminal c = true <-> (c = 46 \/ c = 33 \/ c = 63).
Proof.
  unfold Translators.is_terminal. rewrite !orb_true_iff, !N.eqb_eq. tauto.
Qed.

Lemma terminal_not_space c : Translators.is_terminal c = true -> Js.is_space c = false.
Proof. intros H. apply is_terminal_iff in H as [->|[->| ->]]; reflexivity. Qed.

Lemma forallb_space spaces :
  forallb Js.is_space spaces = true <-> Forall (fun x => Js.is_space x = true) spaces.
Proof.
  rewrite forallb_forall, List.Forall_forall. reflexivity.
Qed.

Lemma regex_test_iff s : Translators.regex_test s = true <-> ends_sentence s.
Proof.
  split.
  - induction s as [|a s IH]; [discriminate|].
    cbn [Translators.regex_test]. intros H. apply orb_true_iff in H as [H|H].
    + cbn in H. apply andb_true_iff in H as [Ht Hs].
      exists [], a, s. split; [reflexivity|]. split; [apply is_terminal_iff, Ht|].
      apply forallb_space, Hs.
    + destruct (IH H) as (before & c & spaces & -> & Hc & Hsp).
      exists (a :: before), c, spaces. split; [reflexivity|]. split; assumption.
  - intros (before & c & spaces & -> & Hc & Hsp).
    induction before as [|a before IH].
    + cbn. apply orb_true_iff. left. apply andb_true_iff. split.
      * apply is_terminal_iff, Hc.
      * apply forallb_space, Hsp.
    + cbn [app Translators.regex_test]. apply orb_true_iff. right. exact IH.
Qed.

Lemma trimStart_spaces spaces rest :
  Forall (fun x => Js.is_space x = true) spaces ->
  Js.trimStart (spaces ++ rest) = Js.trimStart rest.
Proof.
  induction 1 as [|x l Hx _ IH]; [reflexivity|]. cbn. rewrite Hx. exact IH.
Qed.

Lemma trimStart_cons l c t :
  Js.trimStart l = c :: t ->
  exists spaces, l = spaces ++ c :: t
                 /\ Forall (fun x => Js.is_space x = true) spaces.
Proof.
  induction l as [|a l IH]; [discriminate|]. cbn.
  destruct (Js.is_space a) eqn:Ha.
  - intros H. destruct (IH H) as (spaces & -> & Hsp).
    exists (a :: spaces). split; [reflexivity|]. constructor; assumption.
  - intros H. exists []. split; [exact H|constructor].
Qed.

Lemma isComplete_iff s : SentenceBuffer.isComplete s = true <-> ends_sentence s.
Proof.
  unfold SentenceBuffer.isComplete. split.
  - destruct (Js.trimStart (rev s)) as [|c t] eqn:E; [discriminate|].
    intros Hc. destruct (trimStart_cons _ _ _ E) as (spaces & Hrev & Hsp).
    exists (rev t), c, (rev spaces). split; [|split].
    + rewrite <- (rev_involutive s), Hrev, rev_app_distr. cbn.
      rewrite <- app_assoc. reflexivity.
    + apply is_terminal_iff, Hc.
    + apply List.Forall_rev. exact Hsp.
  - intros (before & c & spaces & -> & Hc & Hsp).
    rewrite rev_app_distr. cbn [rev]. rewrite <- app_assoc.
    rewrite trimStart_spaces by (apply List.Forall_rev; exact Hsp).
    cbn. apply is_terminal_iff in Hc. rewrite (terminal_not_space c Hc). exact Hc.
Qed.

Lemma isComplete_regex s : SentenceBuffer.isComplete s = Translators.regex_test s.
Proof.
  apply eq_true_iff_eq. rewrite isComplete_iff, regex_test_iff. reflexivity.
Qed.

Section StreamProofs.
Variable engine : Engine.
Variable targetLang sourceLang : list N.

Local Abbreviation request := (Translators.request engine targetLang sourceLang).
Local Abbreviation on_data := (Translators.on_data engine targetLang sourceLang).
Local Abbreviation on_end := (Translators.on_end engine targetLang sourceLang).
Local Abbreviation resume := (@Translators.resume).
Local Abbreviation step := (Translators.step engine targetLang sourceLang).
Local Abbreviation run_stream := (Translators.run_stream engine targetLang sourceLang).
Local Abbreviation prompt := (Translators.translation_prompt targetLang sourceLang).

Lemma run_stream_cons s steps st :
  run_stream (s :: steps) st = run_stream steps (step s st).
Proof. reflexivity. Qed.

Lemma request_log text log :
  snd (request text log) = log ++ stream_calls engine log (prompt text).
Proof.
  unfold Translators.request, Gemini.generateContentStream, stream_calls.
  unfold try_catch, bind, construct, call_stream, ret.
  destruct (answer engine log (GetGenerativeModel false)) as [x|e]; cbn [snd].
  - rewrite <- app_assoc. reflexivity.
  - reflexivity.
Qed.

Lemma on_data_fields chunk st :
  let buffered := Translators.textBuffer st ++ chunk in
  Translators.output (on_data chunk st) = Translators.output st
  /\ Translators.textBuffer (on_data chunk st)
     = (if Translators.regex_test buffered then [] else buffered)
  /\ Translators.engineLog (on_data chunk st)
     = (if Translators.regex_test buffered
        then Translators.engineLog st
             ++ stream_calls engine (Translators.engineLog st) (prompt buffered)
        else Translators.engineLog st)
  /\ (if Translators.regex_test buffered
      then Translators.suspended (on_data chunk st)
           = Translators.suspended st
             ++ [fst (request buffered (Translators.engineLog st))]
      else Translators.suspended (on_data chunk st) = Translators.suspended st).
Proof.
  cbv zeta. unfold Translators.on_data.
  destruct (Translators.regex_test (Translators.textBuffer st ++ chunk)).
  - pose proof (request_log (Translators.textBuffer st ++ chunk) (Translators.engineLog st)) as Hl.
    destruct (request _ _) as [todo log']. cbn [snd fst] in *.
    cbn [Translators.output Translators.textBuffer Translators.engineLog Translators.suspended].
    repeat split; auto.
  - repeat split; reflexivity.
Qed.

Lemma on_end_fields st :
  Translators.textBuffer (on_end st) = Translators.textBuffer st
  /\ Translators.engineLog (on_end st)
     = (if (0 <? length (Translators.textBuffer st))%nat
        then Translators.engineLog st
             ++ stream_calls engine (Translators.engineLog st)
                  (prompt (Translators.textBuffer st))
        else Translators.engineLog st)
  /\ (if (0 <? length (Translators.textBuffer st))%nat
      then Translators.output (on_end st) = Translators.output st
           /\ Translators.suspended (on_end st)
              = Translators.suspended st
                ++ [fst (request (Translators.textBuffer st) (Translators.engineLog st))
                    ++ [Translators.PushNull]]
      else Translators.output (on_end st) = Translators.output st ++ [Translators.PushNull]
           /\ Translators.suspended (on_end st) = Translators.suspended st).
Proof.
  unfold Translators.on_end.
  destruct (0 <? length (Translators.textBuffer st))%nat.
  - pose proof (request_log (Translators.textBuffer st) (Translators.engineLog st)) as Hl.
    destruct (request _ _) as [todo log']. cbn [snd fst] in *.
    cbn [Translators.output Translators.textBuffer Translators.engineLog Translators.suspended].
    repeat split; auto.
  - repeat split; reflexivity.
Qed.

Lemma resume_fields handler st :
  Translators.textBuffer (resume handler st) = Translators.textBuffer st
  /\ Translators.engineLog (resume handler st) = Translators.engineLog st.
Proof.
  unfold Translators.resume.
  destruct (Translators.suspended st !! handler) as [[|ev rest]|]; split; reflexivity.
Qed.

Lemma released_concat buffer fragments :
  List.concat (SentenceBuffer.released buffer fragments)
  = buffer ++ List.concat fragments.
Proof.
  revert buffer. induction fragments as [|f rest IH]; intros buffer.
  - cbn. destruct buffer; reflexivity.
  - cbn [SentenceBuffer.released List.concat].
    destruct (SentenceBuffer.isComplete (buffer ++ f)).
    + cbn [List.concat]. rewrite IH. cbn. rewrite <- app_assoc. reflexivity.
    + rewrite IH. rewrite <- app_assoc. reflexivity.
Qed.

(** Resuming handlers neither reads nor writes the text buffer and makes
    no request. *)
Lemma run_resumes steps st :
  signals steps = [] ->
  Translators.textBuffer (run_stream steps st) = Translators.textBuffer st
  /\ Translators.engineLog (run_stream steps st) = Translators.engineLog st.
Proof.
  revert st. induction steps as [|s steps IH]; intros st Hsig; [split; reflexivity|].
  destruct s as [ev|handler]; [discriminate|].
  rewrite run_stream_cons. cbn [Translators.step].
  destruct (IH (resume handler st) Hsig) as [-> ->]. apply resume_fields.
Qed.

Lemma run_released steps fragments st :
  signals steps = List.map Translators.OnData fragments ++ [Translators.OnEnd] ->
  Translators.engineLog (run_stream steps st)
  = requested engine targetLang sourceLang
      (SentenceBuffer.released (Translators.textBuffer st) fragments)
      (Translators.engineLog st).
Proof.
  revert fragments st. induction steps as [|s steps IH]; intros fragments st Hsig.
  - destruct fragments; discriminate.
  - rewrite run_stream_cons. destruct s as [ev|handler]; cbn [Translators.step].
    + change (signals (Translators.Signal ev :: steps)) with (ev :: signals steps) in Hsig.
      destruct fragments as [|f rest]; cbn [List.map app] in Hsig.
      * assert (ev = Translators.OnEnd) by congruence. subst ev.
        assert (Hrest : signals steps = []) by congruence.
        destruct (run_resumes steps (Translators.on_event engine targetLang sourceLang
                                       Translators.OnEnd st) Hrest) as [_ ->].
        cbn [Translators.on_event SentenceBuffer.released].
        destruct (on_end_fields st) as (_ & -> & _).
        destruct (Translators.textBuffer st); reflexivity.
      * assert (ev = Translators.OnData f) by congruence. subst ev.
        assert (Hrest : signals steps
                        = List.map Translators.OnData rest ++ [Translators.OnEnd])
          by congruence.
        rewrite (IH rest _ Hrest). cbn [Translators.on_event SentenceBuffer.released].
        destruct (on_data_fields f st) as (_ & -> & -> & _).
        rewrite isComplete_regex.
        destruct (Translators.regex_test (Translators.textBuffer st ++ f)); reflexivity.
    + change (signals (Translators.Resume handler :: steps)) with (signals steps) in Hsig.
      rewrite (IH fragments _ Hsig).
      destruct (resume_fields handler st) as [-> ->]. reflexivity.
Qed.

(** C7. The test [/[.!?]\s*$/] holds exactly of the texts that end with
    [.], [!] or [?] followed by nothing but whitespace.  A data event
    hands the whole buffered text to the gateway and empties the buffer
    exactly when the text passes the test, before anything is pushed;
    otherwise it only appends.  At the end of the input a non-empty
    buffer is handed over whatever the test says.  Over a whole input,
    in whatever order the suspended handlers are resumed, the texts
    handed to the gateway are those the Sentence Buffer releases, in
    order, and put end to end they are the input: no fragment is
    lost. *)
Theorem sentences_released_when_complete :
  (forall s, Translators.regex_test s = true <-> ends_sentence s)
  /\ (forall chunk st,
        let buffered := Translators.textBuffer st ++ chunk in
        (Translators.regex_test buffered = true ->
           Translators.textBuffer (on_data chunk st) = []
           /\ Translators.engineLog (on_data chunk st)
              = Translators.engineLog st
                ++ stream_calls engine (Translators.engineLog st) (prompt buffered)
           /\ Translators.output (on_data chunk st) = Translators.output st)
        /\ (Translators.regex_test buffered = false ->
              on_data chunk st
              = {| Translators.textBuffer := buffered;
                   Translators.output := Translators.output st;
                   Translators.engineLog := Translators.engineLog st;
                   Translators.suspended := Translators.suspended st |}))
  /\ (forall st,
        (0 < length (Translators.textBuffer st))%nat ->
        Translators.engineLog (on_end st)
        = Translators.engineLog st
          ++ stream_calls engine (Translators.engineLog st)
               (prompt (Translators.textBuffer st)))
  /\ (forall steps fragments st,
        signals steps = List.map Translators.OnData fragments ++ [Translators.OnEnd] ->
        let texts := SentenceBuffer.released (Translators.textBuffer st) fragments in
        List.concat texts = Translators.textBuffer st ++ List.concat fragments
        /\ Translators.engineLog (run_stream steps st)
           = requested engine targetLang sourceLang texts (Translators.engineLog st)).
Proof.
  split; [exact regex_test_iff|]. split; [|split].
  - intros chunk st buffered. split.
    + intros Hre. destruct (on_data_fields chunk st) as (Ho & Hb & Hl & _).
      fold buffered in Hb, Hl. rewrite Hre in Hb, Hl. auto.
    + intros Hre. unfold Translators.on_data. fold buffered. rewrite Hre. reflexivity.
  - intros st Hne. destruct (on_end_fields st) as (_ & Hl & _).
    apply Nat.ltb_lt in Hne. rewrite Hne in Hl. exact Hl.
  - intros steps fragments st Hsig. cbv zeta.
    split; [apply released_concat|apply run_released; exact Hsig].
Qed.
End StreamProofs.

(** The live path runs first; when it returns, no single-shot request is
    made and the trimmed text is the result. *)
Lemma transcribe_live_answer engine NODE_ENV data format log x y text :
  Js.nonempty format = true ->
  answer engine log (GetGenerativeModel true) = Returned x ->
  answer engine (log ++ [GetGenerativeModel true]) (StartChat (length log)) = Returned y ->
  answer engine (log ++ [GetGenerativeModel true; StartChat (length log)])
         (SendMessage (S (length log)) format (Js.base64 data)) = Returned text ->
  Translators.transcribeAudio engine NODE_ENV (Some data) (Some format) log
  = (Done (Js.trim text),
     log ++ [GetGenerativeModel true; StartChat (length log);
             SendMessage (S (length log)) format (Js.base64 data)]).
Proof.
  intros Hf H1 H2 H3. unfold Translators.transcribeAudio. rewrite Hf. cbn [negb].
  unfold GeminiLive.transcribeAudio, try_catch, bind, construct, call, ret.
  rewrite H1. rewrite length_app. cbn [length]. rewrite Nat.add_1_r.
  rewrite H2. rewrite <- !app_assoc. cbn [app]. rewrite H3. reflexivity.
Qed.

(** Outside production a failure of the live path never reaches the
    caller: the live placeholder is returned and the single-shot request is
    not tried. *)
Lemma transcribe_live_placeholder engine NODE_ENV data format log x y message :
  Js.nonempty format = true ->
  not_production NODE_ENV = true ->
  answer engine log (GetGenerativeModel true) = Returned x ->
  answer engine (log ++ [GetGenerativeModel true]) (StartChat (length log)) = Returned y ->
  answer engine (log ++ [GetGenerativeModel true; StartChat (length log)])
         (SendMessage (S (length log)) format (Js.base64 data)) = Threw message ->
  Translators.transcribeAudio engine NODE_ENV (Some data) (Some format) log
  = (Done (Js.trim GeminiLive.fallback_transcription),
     log ++ [GetGenerativeModel true; StartChat (length log);
             SendMessage (S (length log)) format (Js.base64 data)]).
Proof.
  intros Hf Hn H1 H2 H3. unfold Translators.transcribeAudio. rewrite Hf. cbn [negb].
  unfold GeminiLive.transcribeAudio, try_catch, bind, construct, call, ret.
  rewrite H1. rewrite length_app. cbn [length]. rewrite Nat.add_1_r.
  rewrite H2. rewrite <- !app_assoc. cbn [app]. rewrite H3, Hn. reflexivity.
Qed.

(** When the live request and the single-shot request both throw, the
    handler around the single-shot request returns the placeholder before
    the check of [NODE_ENV] is reached: the result is the same in
    production and outside it. *)
Lemma transcribe_single_shot_swallowed engine data format log x y z message1 message2 :
  Js.nonempty format = true ->
  let log3 := log ++ [GetGenerativeModel true; StartChat (length log);
                      SendMessage (S (length log)) format (Js.base64 data)] in
  answer engine log (GetGenerativeModel true) = Returned x ->
  answer engine (log ++ [GetGenerativeModel true]) (StartChat (length log)) = Returned y ->
  answer engine (log ++ [GetGenerativeModel true; StartChat (length log)])
         (SendMessage (S (length log)) format (Js.base64 data)) = Threw message1 ->
  answer engine log3 (GetGenerativeModel false) = Returned z ->
  answer engine (log3 ++ [GetGenerativeModel false])
         (GenerateContent (length log3)
            (PromptWithAudio Gemini.transcription_prompt format (Js.base64 data)))
  = Threw message2 ->
  fst (Translators.transcribeAudio engine (Some (lit "production")) (Some data) (Some format) log)
  = Done (Js.trim Gemini.fallback_transcription).
Proof.
  intros Hf log3 H1 H2 H3 H4 H5. unfold Translators.transcribeAudio. rewrite Hf. cbn [negb].
  unfold GeminiLive.transcribeAudio, Gemini.transcribeAudio, try_catch, bind, construct, call, ret, throw.
  rewrite H1. rewrite length_app. cbn [length]. rewrite Nat.add_1_r.
  rewrite H2. rewrite <- !app_assoc. cbn [app]. rewrite H3.
  subst log3. change (not_production (Some (lit "production"))) with false.
  cbv beta iota. rewrite H4. cbv beta iota. rewrite H5. reflexivity.
Qed.

(** C2. In production, with an engine that rejects the live message and the
    single-shot request alike, [transcribeAudio] returns the placeholder
    transcript instead of throwing. *)
Theorem transcribe_placeholder_in_production :
  Translators.transcribeAudio Fixture.quota (Some (lit "production"))
                              (Some Fixture.fragment1) (Some (lit "audio/webm")) []
  = (Done Gemini.fallback_transcription,
     [GetGenerativeModel true; StartChat 0;
      SendMessage 1 (lit "audio/webm") (lit "GkU=");
      GetGenerativeModel false;
      GenerateContent 3
        (PromptWithAudio Gemini.transcription_prompt (lit "audio/webm") (lit "GkU="))]).
Proof. vm_compute. reflexivity. Qed.

(** * Further properties of the code *)

Lemma trimStart_head l c t : Js.trimStart l = c :: t -> Js.is_space c = false.
Proof.
  induction l as [|a l IH]; [discriminate|]. cbn.
  destruct (Js.is_space a) eqn:Ha; [exact IH|].
  intros H. assert (a = c) by congruence. subst a. exact Ha.
Qed.

Lemma trimStart_fixed l :
  match l with c :: _ => Js.is_space c = false | [] => True end ->
  Js.trimStart l = l.
Proof. destruct l as [|c t]; [reflexivity|]. cbn. intros ->. reflexivity. Qed.

Lemma trimStart_idem l : Js.trimStart (Js.trimStart l) = Js.trimStart l.
Proof.
  apply trimStart_fixed. destruct (Js.trimStart l) as [|c t] eqn:E; [exact I|].
  exact (trimStart_head l c t E).
Qed.

Lemma trimStart_split l :
  exists spaces, l = spaces ++ Js.trimStart l.
Proof.
  induction l as [|a l [spaces IH]]; [exists []; reflexivity|]. cbn.
  destruct (Js.is_space a).
  - exists (a :: spaces). cbn. rewrite <- IH. reflexivity.
  - exists []. reflexivity.
Qed.

Lemma trim_idem s : Js.trim (Js.trim s) = Js.trim s.
Proof.
  unfold Js.trim, Js.trimEnd.
  set (t := Js.trimStart s). set (u := Js.trimStart (rev t)).
  assert (Hu : Js.trimStart u = u) by apply trimStart_idem.
  assert (Hfront : Js.trimStart (rev u) = rev u).
  { apply trimStart_fixed. destruct (rev u) as [|c r] eqn:Er; [exact I|].
    destruct (trimStart_split (rev t)) as [spaces Hsp]. fold u in Hsp.
    assert (Ht : t = rev u ++ rev spaces).
    { rewrite <- (rev_involutive t), Hsp, rev_app_distr. reflexivity. }
    rewrite Er in Ht. cbn in Ht.
    exact (trimStart_head s c _ Ht). }
  rewrite Hfront, rev_involutive, Hu. reflexivity.
Qed.

Section FrameAt.
Variable JSON_parse : list N -> Json + list N.
Variable Buffer_toString : list byte -> list N.
Variable engine : Engine.
Variable sid : list N.
Variable socket : nat.

(** A property of the world that is kept by a send on the socket of
    [sid], by an assignment to a field of [sid] other than its socket and
    by an engine call, and that fixes the socket of [sid], is kept by every
    handler run for [sid]. *)
Variable P : World -> Prop.
Hypothesis P_socket :
  forall w s, P w -> activeSessions w !! sid = Some s -> ws s = socket.
Hypothesis P_send : forall msg, keeps P (send socket msg).
Hypothesis P_update :
  forall f, (forall s, ws (f s) = ws s) -> keeps P (update sid f).
Hypothesis P_call : forall c, keeps P (engine_do (call engine c)).

Lemma at_construct c : keeps P (engine_do (construct engine c)).
Proof. intros w H. exact (P_call c w H). Qed.

Lemma at_get_session {A} e (k : Session -> Server A) :
  (forall session, ws session = socket -> keeps P (k session)) ->
  keeps P (bind (get_session sid e) k).
Proof.
  intros Hk w H. unfold bind, get_session.
  destruct (activeSessions w !! sid) as [session|] eqn:Hs; [|exact H].
  apply Hk; [exact (P_socket w session H Hs)|exact H].
Qed.

Ltac frame_at :=
  repeat first
    [ apply keeps_ret | apply keeps_throw | apply P_send
    | apply P_update; intros ?; reflexivity
    | apply P_call | apply at_construct
    | apply at_get_session; intros ? ?
    | apply keeps_bind; [|intros ?] | apply keeps_try_catch; [|intros ?]
    | apply keeps_if
    | match goal with
      | H : ws ?s = socket |- context [ws ?s] => rewrite H
      | |- keeps _ (match ?x with _ => _ end) => destruct x
      end ].

Lemma at_translateAndSend text lang :
  keeps P (translateAndSend engine text lang socket).
Proof. unfold translateAndSend. frame_at. Qed.

Lemma at_processAudioChunks : keeps P (processAudioChunks engine sid).
Proof. unfold processAudioChunks. frame_at; apply at_translateAndSend. Qed.

Lemma at_handleCommand text : keeps P (handleCommand JSON_parse engine text sid).
Proof.
  unfold handleCommand, handleStartCommand, handleStopCommand, handleSetLanguageCommand.
  frame_at; apply at_processAudioChunks.
Qed.

Lemma at_handleAudioData data : keeps P (handleAudioData engine data sid).
Proof. unfold handleAudioData. frame_at; apply at_processAudioChunks. Qed.

Lemma at_handleMessage message :
  keeps P (handleMessage JSON_parse Buffer_toString engine message sid).
Proof.
  intros w H. unfold handleMessage.
  destruct (activeSessions w !! sid) as [session|] eqn:Hs; [|exact H].
  rewrite (P_socket w session H Hs).
  apply keeps_try_catch; [|intros ?; apply P_send|exact H].
  destruct message; [apply at_handleCommand|].
  apply keeps_if; [apply at_handleCommand|apply at_handleAudioData].
Qed.
End FrameAt.

Section Further.
Variable JSON_parse : list N -> Json + list N.
Variable Buffer_toString : list byte -> list N.
Variable engine : Engine.

Lemma touches_only_refl (sid : list N) w session :
  activeSessions w !! sid = Some session ->
  touches_only sid (ws session) w w.
Proof.
  intros Hs. split; [reflexivity|]. split; [exists session; auto|].
  split; [exists []; rewrite app_nil_r; split; [reflexivity|constructor]|].
  exists []. rewrite app_nil_r. reflexivity.
Qed.

(** X1. Handling a message for one session leaves every other session as
    it was, keeps the session in the map on the same socket, and only
    appends: messages for that session's own socket to the wire, and calls
    to the engine's log. *)
Theorem handleMessage_touches_only_its_session message (sid : list N) w session :
  activeSessions w !! sid = Some session ->
  touches_only sid (ws session) w
    (snd (handleMessage JSON_parse Buffer_toString engine message sid w)).
Proof.
  intros Hs.
  apply (at_handleMessage JSON_parse Buffer_toString engine sid (ws session)
           (touches_only sid (ws session) w)).
  - intros w1 s (_ & (s0 & Hs0 & Hws) & _) Hs1. rewrite Hs0 in Hs1.
    assert (s0 = s) by congruence. subst s0. exact Hws.
  - intros msg w1 (Hother & Hsock & (sent & Hwire & Hsent) & Hcalls).
    split; [exact Hother|]. split; [exact Hsock|]. split; [|exact Hcalls].
    exists (sent ++ [(ws session, WsSend msg)]). cbn [snd wire send modify].
    unfold send, modify. cbn [snd wire]. rewrite Hwire, <- app_assoc.
    split; [reflexivity|]. apply Forall_app. split; [exact Hsent|].
    constructor; [exists msg; reflexivity|constructor].
  - intros f Hf w1 (Hother & (s0 & Hs0 & Hws) & Hwire & Hcalls).
    unfold update, modify. cbn [snd].
    split; [|split; [|split; [exact Hwire|exact Hcalls]]].
    + intros other Hne. cbn [activeSessions].
      rewrite lookup_alter_ne by congruence. apply Hother. exact Hne.
    + exists (f s0). cbn [activeSessions]. rewrite lookup_alter_eq, Hs0.
      split; [reflexivity|]. rewrite Hf. exact Hws.
  - intros c w1 (Hother & Hsock & Hwire & (more & Hcalls)).
    split; [exact Hother|]. split; [exact Hsock|]. split; [exact Hwire|].
    exists (more ++ [c]). unfold engine_do, zoom, call. cbn [snd calls].
    rewrite Hcalls, <- app_assoc. reflexivity.
  - apply touches_only_refl. exact Hs.
Qed.

(** X2. Closing a session removes it from the map and does nothing else;
    closing it again changes nothing; a message that arrives for it
    afterwards is dropped without a reply and without an engine call; and
    a connection under a fresh identifier followed by its close gives the
    map back as it was. *)
Theorem close_forgets_the_session (sid : list N) w :
  let w1 := snd (handleClose sid w) in
  activeSessions w1 = delete sid (activeSessions w)
  /\ wire w1 = wire w /\ calls w1 = calls w
  /\ snd (handleClose sid w1) = w1
  /\ (forall message,
        handleMessage JSON_parse Buffer_toString engine message sid w1 = (Done tt, w1))
  /\ (forall socket,
        activeSessions w !! sid = None ->
        activeSessions (snd (handleClose sid (snd (handleConnection socket sid w))))
        = activeSessions w).
Proof.
  cbv zeta.
  assert (Hgone : activeSessions (snd (handleClose sid w)) !! sid = None).
  { unfold handleClose. destruct (activeSessions w !! sid) eqn:Hs; cbn [snd activeSessions].
    - apply lookup_delete_eq.
    - exact Hs. }
  split; [|split; [|split; [|split; [|split]]]].
  - unfold handleClose. destruct (activeSessions w !! sid) eqn:Hs; cbn [snd activeSessions].
    + reflexivity.
    + symmetry. apply delete_id. exact Hs.
  - unfold handleClose. destruct (activeSessions w !! sid); reflexivity.
  - unfold handleClose. destruct (activeSessions w !! sid); reflexivity.
  - unfold handleClose at 1. rewrite Hgone. reflexivity.
  - intros message. unfold handleMessage. rewrite Hgone. reflexivity.
  - intros socket Hs. unfold handleConnection, bind, send, modify.
    cbv beta iota. cbn [snd]. unfold handleClose. cbn [activeSessions].
    rewrite lookup_insert_eq. cbn [snd activeSessions].
    rewrite delete_insert_eq. apply delete_id. exact Hs.
Qed.

Lemma handleStartCommand_run command (sid : list N) w session :
  activeSessions w !! sid = Some session ->
  isTranscribing session = false ->
  let n := length (calls w) in
  handleStartCommand engine command sid w =
    match answer engine (calls w) (GetGenerativeModel false) with
    | Threw e =>
        (Raised e,
         {| activeSessions :=
              <[sid := set_isTranscribing false (set_audioChunks [] session)]>
                (activeSessions w);
            wire := wire w;
            calls := calls w ++ [GetGenerativeModel false] |})
    | Returned _ =>
        match answer engine (calls w ++ [GetGenerativeModel false]) (StartChat n) with
        | Threw e =>
            (Raised e,
             {| activeSessions :=
                  <[sid := set_isTranscribing false
                             (set_geminiModel (Some n) (set_audioChunks [] session))]>
                    (activeSessions w);
                wire := wire w;
                calls := calls w ++ [GetGenerativeModel false; StartChat n] |})
        | Returned _ =>
            (Done tt,
             {| activeSessions :=
                  <[sid := {| ws := ws session;
                              targetLanguage := targetLanguage session;
                              audioChunks := [];
                              isTranscribing := true;
                              geminiModel := Some n;
                              geminiChat := Some (S n) |}]> (activeSessions w);
                wire := wire w
                        ++ [(ws session, WsSend (MsgStarted (lit "Transcription started")))];
                calls := calls w ++ [GetGenerativeModel false; StartChat n] |})
        end
    end.
Proof.
  intros Hs Hidle. cbv zeta.
  unfold handleStartCommand, bind at 1, get_session. rewrite Hs, Hidle.
  unfold bind, update, modify, try_catch, engine_do, zoom, construct, send, throw.
  cbn [activeSessions wire calls].
  rewrite (alter_lookup_insert _ _ _ _ Hs), !alter_insert_same.
  destruct (answer engine (calls w) (GetGenerativeModel false)) as [x|e];
    cbn [activeSessions wire calls].
  - rewrite !alter_insert_same.
    destruct (answer engine (calls w ++ [GetGenerativeModel false])
                     (StartChat (length (calls w)))) as [y|e];
      cbn [activeSessions wire calls]; rewrite !alter_insert_same.
    + rewrite length_app. cbn [length]. rewrite Nat.add_1_r, <- app_assoc. reflexivity.
    + rewrite <- app_assoc. reflexivity.
  - rewrite !alter_insert_same. reflexivity.
Qed.

Lemma handleMessage_start text command (sid : list N) w session :
  activeSessions w !! sid = Some session ->
  JSON_parse text = inl command ->
  has_type command "start" = true ->
  handleMessage JSON_parse Buffer_toString engine (StringMsg text) sid w =
    try_catch (handleStartCommand engine command sid)
              (fun message => send (ws session) (MsgError message)) w.
Proof.
  intros Hs Hp Hty. rewrite (handleMessage_command _ _ _ text sid w session command Hs Hp).
  unfold has_type in Hty.
  destruct (get_prop command (lit "type")) as [[[]|]|]; try discriminate.
  rewrite Hty. reflexivity.
Qed.

(** X3. A [start] for an idle session, when the engine makes the model and
    the chat: the session is transcribing with an empty buffer and the new
    chat, [started] is sent, and exactly these two engine calls are made. *)
Theorem start_begins_transcribing text command (sid : list N) w session x y :
  activeSessions w !! sid = Some session ->
  isTranscribing session = false ->
  JSON_parse text = inl command ->
  has_type command "start" = true ->
  answer engine (calls w) (GetGenerativeModel false) = Returned x ->
  answer engine (calls w ++ [GetGenerativeModel false]) (StartChat (length (calls w)))
  = Returned y ->
  handleMessage JSON_parse Buffer_toString engine (StringMsg text) sid w =
    (Done tt,
     {| activeSessions :=
          <[sid := {| ws := ws session;
                      targetLanguage := targetLanguage session;
                      audioChunks := [];
                      isTranscribing := true;
                      geminiModel := Some (length (calls w));
                      geminiChat := Some (S (length (calls w))) |}]> (activeSessions w);
        wire := wire w
                ++ [(ws session, WsSend (MsgStarted (lit "Transcription started")))];
        calls := calls w ++ [GetGenerativeModel false; StartChat (length (calls w))] |}).
Proof.
  intros Hs Hidle Hp Hty H1 H2.
  rewrite (handleMessage_start text command sid w session Hs Hp Hty).
  unfold try_catch. rewrite (handleStartCommand_run command sid w session Hs Hidle).
  cbv zeta. rewrite H1, H2. reflexivity.
Qed.

(** X4. A [start] for an idle session, when the engine fails to make the
    model or the chat: the client is sent one [error] message with the
    engine's message and no [started]; the session is left idle with an
    empty buffer, its language and its previous chat. *)
Theorem failed_start_stays_idle text command (sid : list N) w session message :
  activeSessions w !! sid = Some session ->
  isTranscribing session = false ->
  JSON_parse text = inl command ->
  has_type command "start" = true ->
  (answer engine (calls w) (GetGenerativeModel false) = Threw message
   \/ (exists x, answer engine (calls w) (GetGenerativeModel false) = Returned x)
      /\ answer engine (calls w ++ [GetGenerativeModel false])
                 (StartChat (length (calls w))) = Threw message) ->
  let w' := snd (handleMessage JSON_parse Buffer_toString engine (StringMsg text) sid w) in
  wire w' = wire w ++ [(ws session, WsSend (MsgError message))]
  /\ exists session',
      activeSessions w' !! sid = Some session'
      /\ isTranscribing session' = false
      /\ audioChunks session' = []
      /\ targetLanguage session' = targetLanguage session
      /\ geminiChat session' = geminiChat session.
Proof.
  intros Hs Hidle Hp Hty Hfail. cbv zeta.
  rewrite (handleMessage_start text command sid w session Hs Hp Hty).
  unfold try_catch. rewrite (handleStartCommand_run command sid w session Hs Hidle).
  cbv zeta. destruct Hfail as [H1|[[x H1] H2]].
  - rewrite H1. cbn [snd wire activeSessions send modify].
    unfold send, modify. cbn [snd wire activeSessions].
    split; [reflexivity|]. eexists. rewrite lookup_insert_eq.
    split; [reflexivity|]. repeat split; reflexivity.
  - rewrite H1, H2. unfold send, modify. cbn [snd wire activeSessions].
    split; [reflexivity|]. eexists. rewrite lookup_insert_eq.
    split; [reflexivity|]. repeat split; reflexivity.
Qed.

(** X5. A [setLanguage] command whose [language] is missing or falsy (the
    empty string, [null], [false], zero) is ignored: the language is kept,
    no acknowledgement and no error is sent. *)
Theorem setLanguage_without_language_is_ignored text command (sid : list N) w session :
  activeSessions w !! sid = Some session ->
  JSON_parse text = inl command ->
  has_type command "setLanguage" = true ->
  truthy (language_of command) = false ->
  handleMessage JSON_parse Buffer_toString engine (StringMsg text) sid w = (Done tt, w).
Proof.
  intros Hs Hp Hty Hlang.
  rewrite (handleMessage_command _ _ _ text sid w session command Hs Hp).
  unfold has_type in Hty. unfold language_of in Hlang.
  destruct (get_prop command (lit "type")) as [[[]|]|] eqn:Hget; try discriminate.
  assert (Js.eqb s (lit "start") = false /\ Js.eqb s (lit "stop") = false) as [-> ->].
  { apply jseqb_eq in Hty. subst s. split; reflexivity. }
  rewrite Hty. unfold try_catch.
  rewrite (handleSetLanguageCommand_run command sid w session Hs).
  destruct command; try discriminate. cbn [get_prop] in *.
  destruct (assoc (lit "language") fields) as [value|]; [|reflexivity].
  rewrite Hlang. reflexivity.
Qed.

(** X6. While a session is idle, no message but a [start] command makes
    the server call the engine, buffer audio or leave the idle state. *)
Theorem idle_session_waits_for_start message (sid : list N) w session :
  activeSessions w !! sid = Some session ->
  isTranscribing session = false ->
  is_start JSON_parse Buffer_toString message = false ->
  let w' := snd (handleMessage JSON_parse Buffer_toString engine message sid w) in
  calls w' = calls w
  /\ exists session',
      activeSessions w' !! sid = Some session'
      /\ isTranscribing session' = false
      /\ audioChunks session' = audioChunks session.
Proof.
  intros Hs Hidle Hns. cbv zeta.
  assert (Hsame : calls w = calls w
                  /\ exists session', activeSessions w !! sid = Some session'
                                      /\ isTranscribing session' = false
                                      /\ audioChunks session' = audioChunks session).
  { split; [reflexivity|]. exists session. auto. }
  assert (Hcmd : forall text command,
             JSON_parse text = inl command ->
             has_type command "start" = false ->
             let w' := snd (try_catch (handleCommand JSON_parse engine text sid)
                                      (fun m => send (ws session) (MsgError m)) w) in
             calls w' = calls w
             /\ exists session', activeSessions w' !! sid = Some session'
                                 /\ isTranscribing session' = false
                                 /\ audioChunks session' = audioChunks session).
  { intros text command Hp Hty. cbv zeta. unfold try_catch, handleCommand. rewrite Hp.
    unfold has_type in Hty.
    destruct (get_prop command (lit "type")) as [[[]|]|] eqn:Hget; try exact Hsame.
    rewrite Hty. destruct (Js.eqb s (lit "stop")).
    - assert (Hstop : handleStopCommand engine sid w = (Done tt, w)).
        { unfold handleStopCommand, bind at 1, get_session. rewrite Hs, Hidle. reflexivity. }
      rewrite Hstop. exact Hsame.
    - destruct (Js.eqb s (lit "setLanguage")); [|exact Hsame].
      rewrite (handleSetLanguageCommand_run command sid w session Hs).
      destruct command; try discriminate. cbn [get_prop].
      destruct (assoc (lit "language") fields) as [value|]; [|exact Hsame].
      destruct (truthy (Some value)); [|exact Hsame].
      cbn [snd calls activeSessions]. split; [reflexivity|].
      eexists. rewrite lookup_insert_eq. split; [reflexivity|]. split; [exact Hidle|reflexivity]. }
  unfold is_start, command_of in Hns. unfold handleMessage. rewrite Hs.
  destruct message as [text|data].
  - destruct (JSON_parse text) as [command|e] eqn:Hp.
    + exact (Hcmd text command Hp Hns).
    + unfold try_catch, handleCommand. rewrite Hp. exact Hsame.
  - destruct (buffer_starts_with_brace data).
    + destruct (JSON_parse (Buffer_toString data)) as [command|e] eqn:Hp.
      * exact (Hcmd _ command Hp Hns).
      * unfold try_catch, handleCommand. rewrite Hp. exact Hsame.
    + unfold try_catch. rewrite (handleAudioData_idle engine data sid w session Hs Hidle).
      exact Hsame.
Qed.

Lemma idle_empty_insert (sid : list N) w w' s' :
  world_idle_empty w -> idle_empty s' ->
  activeSessions w' = <[sid := s']> (activeSessions w) ->
  world_idle_empty w'.
Proof.
  unfold world_idle_empty. intros Hw Hs' ->. apply map_Forall_insert_2; assumption.
Qed.

Lemma idle_empty_handleCommand text (sid : list N) w :
  world_idle_empty w ->
  world_idle_empty (snd (handleCommand JSON_parse engine text sid w)).
Proof.
  intros Hw. unfold handleCommand.
  destruct (JSON_parse text) as [command|e]; [|exact Hw].
  destruct (get_prop command (lit "type")) as [[[]|]|]; try exact Hw.
  destruct (activeSessions w !! sid) as [session|] eqn:Hs.
  - destruct (Js.eqb s (lit "start")).
    { destruct (isTranscribing session) eqn:Ht.
      - unfold handleStartCommand, bind at 1, get_session. rewrite Hs, Ht. exact Hw.
      - rewrite (handleStartCommand_run command sid w session Hs Ht). cbv zeta.
        destruct (answer engine (calls w) (GetGenerativeModel false));
          [destruct (answer engine _ (StartChat _))|];
          (eapply idle_empty_insert; [exact Hw| |reflexivity]); intros _; reflexivity. }
    destruct (Js.eqb s (lit "stop")).
    { destruct (isTranscribing session) eqn:Ht.
      - rewrite (handleStopCommand_result engine sid w session Hs Ht). cbn [snd].
        eapply idle_empty_insert; [exact Hw| |reflexivity]. intros _. reflexivity.
      - unfold handleStopCommand, bind at 1, get_session. rewrite Hs, Ht. exact Hw. }
    destruct (Js.eqb s (lit "setLanguage")); [|exact Hw].
    rewrite (handleSetLanguageCommand_run command sid w session Hs).
    destruct (get_prop command (lit "language")) as [[value|]|]; try exact Hw.
    destruct (truthy (Some value)); [|exact Hw].
    eapply idle_empty_insert; [exact Hw| |reflexivity].
    exact (Hw sid session Hs).
  - destruct (Js.eqb s (lit "start")).
    { unfold handleStartCommand, bind at 1, get_session. rewrite Hs. exact Hw. }
    destruct (Js.eqb s (lit "stop")).
    { unfold handleStopCommand, bind at 1, get_session. rewrite Hs. exact Hw. }
    destruct (Js.eqb s (lit "setLanguage")); [|exact Hw].
    unfold handleSetLanguageCommand.
    destruct (get_prop command (lit "language")) as [[value|]|]; try exact Hw.
    destruct (negb (truthy (Some value))); [exact Hw|].
    unfold bind at 1, get_session. rewrite Hs. exact Hw.
Qed.

Lemma idle_empty_handleAudioData data (sid : list N) w :
  world_idle_empty w ->
  world_idle_empty (snd (handleAudioData engine data sid w)).
Proof.
  intros Hw.
  destruct (activeSessions w !! sid) as [session|] eqn:Hs.
  - destruct (isTranscribing session) eqn:Ht.
    + rewrite (handleAudioData_run engine data sid w session Hs Ht).
      destruct (5 <=? length (audioChunks session ++ [data]))%nat.
      * match goal with |- context [processAudioChunks engine sid ?w1] =>
          destruct (processAudioChunks_sessions engine sid w1
                      (set_audioChunks (audioChunks session ++ [data]) session))
            as [Heq _] end.
        { apply lookup_insert_eq. }
        eapply idle_empty_insert;
          [exact Hw| |rewrite Heq; cbn [activeSessions]; apply insert_insert_eq].
        intros _. reflexivity.
      * eapply idle_empty_insert; [exact Hw| |reflexivity].
        intros Hidle. cbn in Hidle. congruence.
    + rewrite (handleAudioData_idle engine data sid w session Hs Ht). exact Hw.
  - unfold handleAudioData, bind at 1, get_session. rewrite Hs. exact Hw.
Qed.

Lemma idle_try_catch_send (m : Server unit) socket w :
  world_idle_empty (snd (m w)) ->
  world_idle_empty (snd (try_catch m (fun message => send socket (MsgError message)) w)).
Proof.
  unfold try_catch. destruct (m w) as [[[]|e] w1]; intros H; exact H.
Qed.

Lemma idle_empty_step ev w :
  world_idle_empty w ->
  world_idle_empty (step JSON_parse Buffer_toString engine ev w).
Proof.
  intros Hw. destruct ev as [socket sid|message sid|sid|sid]; unfold step.
  - unfold handleConnection, bind, send, modify. cbn [snd].
    eapply idle_empty_insert; [exact Hw| |reflexivity]. intros _. reflexivity.
  - unfold handleMessage. destruct (activeSessions w !! sid) as [session|]; [|exact Hw].
    apply idle_try_catch_send.
    destruct message as [text|data]; [apply idle_empty_handleCommand; exact Hw|].
    destruct (buffer_starts_with_brace data);
      [apply idle_empty_handleCommand|apply idle_empty_handleAudioData]; exact Hw.
  - unfold handleClose. destruct (activeSessions w !! sid); [|exact Hw].
    cbn [snd]. unfold world_idle_empty. cbn [activeSessions].
    apply map_Forall_delete. exact Hw.
  - unfold handleError, handleClose. destruct (activeSessions w !! sid); [|exact Hw].
    cbn [snd]. unfold world_idle_empty. cbn [activeSessions].
    apply map_Forall_delete. exact Hw.
Qed.

Lemma idle_empty_run events w :
  world_idle_empty w ->
  world_idle_empty (run JSON_parse Buffer_toString engine events w).
Proof.
  revert w. induction events as [|ev evs IH]; intros w Hw; [exact Hw|].
  cbn. apply IH. apply idle_empty_step. exact Hw.
Qed.

(** X7. In every world the server reaches from its start, whatever the
    events and the engine: a session holds fewer than five fragments, an
    idle session holds none, and a transcribing session has its chat. *)
Theorem reachable_sessions_are_tidy events (sid : list N) session :
  activeSessions (run JSON_parse Buffer_toString engine events initial) !! sid
  = Some session ->
  (length (audioChunks session) < 5)%nat
  /\ (isTranscribing session = false -> audioChunks session = [])
  /\ (isTranscribing session = true -> is_Some (geminiChat session)).
Proof.
  intros Hs.
  destruct (world_ok_lookup sid _ session
              (run_ok JSON_parse Buffer_toString engine events initial initial_ok) Hs)
    as [Hlen Hchat].
  split; [exact Hlen|]. split; [|exact Hchat].
  assert (Hw : world_idle_empty initial).
  { unfold world_idle_empty, initial. cbn. apply map_Forall_empty. }
  exact (idle_empty_run events initial Hw sid session Hs).
Qed.

Lemma audio_payloads_app l1 l2 :
  audio_payloads (l1 ++ l2) = audio_payloads l1 ++ audio_payloads l2.
Proof. unfold audio_payloads. apply flat_map_app. Qed.

Lemma audio_payloads_quiet more :
  existsb is_SendMessage more = false -> audio_payloads more = [].
Proof.
  induction more as [|c more IH]; [reflexivity|]. cbn [existsb].
  intros H. apply orb_false_iff in H as [Hc Hmore].
  destruct c; try discriminate; cbn; exact (IH Hmore).
Qed.

Lemma feed_audio_cons (sid : list N) d ds w :
  feed_audio engine sid (d :: ds) w
  = feed_audio engine sid ds (snd (handleAudioData engine d sid w)).
Proof. reflexivity. Qed.

Lemma feed_audio_batches fragments (sid : list N) w session :
  activeSessions w !! sid = Some session ->
  isTranscribing session = true ->
  session_ok session ->
  let w' := feed_audio engine sid fragments w in
  exists session' batches,
    activeSessions w' !! sid = Some session'
    /\ isTranscribing session' = true
    /\ audio_payloads (calls w')
       = audio_payloads (calls w)
         ++ List.map (fun batch => Js.base64 (Js.Buffer_concat batch)) batches
    /\ Forall (fun batch => length batch = 5%nat) batches
    /\ List.concat batches ++ audioChunks session' = audioChunks session ++ fragments
    /\ session_ok session'.
Proof.
  revert w session. induction fragments as [|d ds IH]; intros w session Hs Ht Hok; cbv zeta.
  - exists session, []. cbn. rewrite !app_nil_r.
    split; [exact Hs|]. split; [exact Ht|]. split; [reflexivity|].
    split; [constructor|]. split; [reflexivity|exact Hok].
  - rewrite feed_audio_cons.
    rewrite (handleAudioData_run engine d sid w session Hs Ht).
    destruct Hok as [Hlen Hchat].
    assert (Hb : length (audioChunks session ++ [d]) = S (length (audioChunks session))).
    { rewrite length_app. cbn. lia. }
    destruct (5 <=? length (audioChunks session ++ [d]))%nat eqn:Hth.
    + apply Nat.leb_le in Hth. destruct (Hchat Ht) as [chat Hc].
      match goal with |- context [processAudioChunks engine sid ?w1] =>
        destruct (flush_calls_once engine sid w1
                    (set_audioChunks (audioChunks session ++ [d]) session) chat)
          as (sent & more & Heq & Hmore) end.
      { apply lookup_insert_eq. }
      { cbn. intros E. rewrite E in Hb. discriminate. }
      { exact Hc. }
      rewrite Heq. cbn [snd activeSessions wire calls]. rewrite insert_insert_eq.
      match goal with |- context [feed_audio engine sid ds ?w2] =>
        destruct (IH w2 (set_audioChunks [] session))
          as (session' & batches & Hs' & Ht' & Hpay & Hfive & Hcat & Hlen') end.
      { apply lookup_insert_eq. }
      { exact Ht. }
      { split; [cbn; lia|exact Hchat]. }
      exists session', ((audioChunks session ++ [d]) :: batches).
      split; [exact Hs'|]. split; [exact Ht'|]. split; [|split; [|split]].
      * rewrite Hpay. cbn [calls]. rewrite audio_payloads_app.
        unfold flush_request. cbn [audio_payloads flat_map set_audioChunks audioChunks].
        fold (audio_payloads more). rewrite (audio_payloads_quiet more Hmore).
        cbn [List.map]. rewrite <- app_assoc. reflexivity.
      * constructor; [lia|exact Hfive].
      * cbn [List.concat]. rewrite <- app_assoc, Hcat. cbn.
        rewrite <- app_assoc. reflexivity.
      * exact Hlen'.
    + apply Nat.leb_gt in Hth. cbn [snd].
      match goal with |- context [feed_audio engine sid ds ?w1] =>
        destruct (IH w1 (set_audioChunks (audioChunks session ++ [d]) session))
          as (session' & batches & Hs' & Ht' & Hpay & Hfive & Hcat & Hlen') end.
      { apply lookup_insert_eq. }
      { exact Ht. }
      { split; [exact Hth|exact Hchat]. }
      exists session', batches.
      split; [exact Hs'|]. split; [exact Ht'|]. split; [exact Hpay|].
      split; [exact Hfive|]. split; [|exact Hlen'].
      rewrite Hcat. cbn. rewrite <- app_assoc. reflexivity.
Qed.

(** X8. Fragments handed to a transcribing session are never lost,
    repeated or reordered: after any number of them, the audio submitted
    to the engine is a sequence of batches of exactly five fragments each,
    and those batches followed by what is still buffered are the fragments
    that were buffered before followed by the ones handed in. *)
Theorem no_fragment_is_lost fragments (sid : list N) w session :
  activeSessions w !! sid = Some session ->
  isTranscribing session = true ->
  session_ok session ->
  let w' := feed_audio engine sid fragments w in
  exists session' batches,
    activeSessions w' !! sid = Some session'
    /\ isTranscribing session' = true
    /\ audio_payloads (calls w')
       = audio_payloads (calls w)
         ++ List.map (fun batch => Js.base64 (Js.Buffer_concat batch)) batches
    /\ Forall (fun batch => length batch = 5%nat) batches
    /\ List.concat batches ++ audioChunks session' = audioChunks session ++ fragments
    /\ (length (audioChunks session') < 5)%nat.
Proof.
  intros Hs Ht Hok. cbv zeta.
  destruct (feed_audio_batches fragments sid w session Hs Ht Hok)
    as (session' & batches & H1 & H2 & H3 & H4 & H5 & [H6 _]).
  exists session', batches. repeat split; assumption.
Qed.

(** X9. A [stop] after any number of fragments submits what is still
    buffered: from then on the audio submitted to the engine, batch after
    batch, is exactly the fragments that were buffered followed by the ones
    handed in, in order; no batch is empty or longer than five; and the
    session is idle with an empty buffer. *)
Theorem stop_submits_the_rest fragments (sid : list N) w session :
  activeSessions w !! sid = Some session ->
  isTranscribing session = true ->
  session_ok session ->
  let w' := snd (handleStopCommand engine sid (feed_audio engine sid fragments w)) in
  exists session' batches,
    activeSessions w' !! sid = Some session'
    /\ isTranscribing session' = false
    /\ audioChunks session' = []
    /\ audio_payloads (calls w')
       = audio_payloads (calls w)
         ++ List.map (fun batch => Js.base64 (Js.Buffer_concat batch)) batches
    /\ Forall (fun batch => (0 < length batch <= 5)%nat) batches
    /\ List.concat batches = audioChunks session ++ fragments.
Proof.
  intros Hs Ht Hok. cbv zeta.
  destruct (feed_audio_batches fragments sid w session Hs Ht Hok)
    as (s1 & batches & Hs1 & Ht1 & Hpay & Hfive & Hcat & [Hlen Hchat]).
  rewrite (handleStopCommand_result engine sid _ s1 Hs1 Ht1). cbn [snd activeSessions calls].
  assert (Hfive' : Forall (fun batch => (0 < length batch <= 5)%nat) batches).
  { eapply Forall_impl; [exact Hfive|]. cbn. intros b Hb. lia. }
  destruct (audioChunks s1) as [|c0 cs] eqn:Hc.
  - cbn [length Nat.ltb Nat.leb].
    exists (set_audioChunks [] (set_isTranscribing false s1)), batches.
    rewrite lookup_insert_eq. rewrite app_nil_r in Hcat.
    repeat split; try assumption; reflexivity.
  - cbn [length Nat.ltb Nat.leb]. destruct (Hchat Ht1) as [chat Hch].
    destruct (flush_calls_once engine sid (feed_audio engine sid fragments w) s1 chat Hs1)
      as (sent & more & Heq & Hmore); [rewrite Hc; discriminate|exact Hch|].
    rewrite Heq. cbn [snd calls].
    exists (set_audioChunks [] (set_isTranscribing false s1)), (batches ++ [c0 :: cs]).
    rewrite lookup_insert_eq. split; [reflexivity|]. split; [reflexivity|].
    split; [reflexivity|]. split; [|split].
    + rewrite audio_payloads_app, Hpay. unfold flush_request. rewrite Hc.
      cbn [audio_payloads flat_map]. fold (audio_payloads more).
      rewrite (audio_payloads_quiet more Hmore).
      rewrite List.map_app. cbn [List.map]. rewrite <- app_assoc. reflexivity.
    + apply Forall_app. split; [exact Hfive'|].
      constructor; [|constructor]. cbn in *. lia.
    + rewrite concat_app. cbn [List.concat]. rewrite app_nil_r. exact Hcat.
Qed.

(** X10. What a flush sends, whatever the engine does, is one of:
    nothing; the placeholder [transcription] with [error: true], alone; a
    [transcription] with a non-empty text that has no whitespace at its
    ends, alone when the session's language is [en]; or, when it is not,
    that [transcription] first and then one [translation] whose
    [sourceText] is the very text of the transcription, whose
    [targetLanguage] is the session's, and whose text is trimmed or is the
    placeholder with [error: true].  Every message goes to the session's
    own socket. *)
Theorem flush_messages_are_well_formed (sid : list N) w session :
  activeSessions w !! sid = Some session ->
  let lang := targetLanguage session in
  let socket := ws session in
  exists sent,
    wire (snd (processAudioChunks engine sid w)) = wire w ++ sent
    /\ (sent = []
        \/ sent = [(socket, WsSend (MsgTranscription audio_error_text true))]
        \/ exists transcript,
            Js.nonempty transcript = true
            /\ trimmed transcript
            /\ ((is_str lang (lit "en") = true
                 /\ sent = [(socket, WsSend (MsgTranscription transcript false))])
                \/ (is_str lang (lit "en") = false
                    /\ exists text error,
                        sent = [(socket, WsSend (MsgTranscription transcript false));
                                (socket,
                                 WsSend (MsgTranslation text transcript lang error))]
                        /\ (if error then text = translation_error_text
                            else trimmed text)))).
Proof.
  intros Hs. cbv zeta.
  destruct (audioChunks session) as [|c0 cs] eqn:Hc.
  - exists []. assert (Heq : processAudioChunks engine sid w = (Done tt, w)).
    { unfold processAudioChunks, bind at 1, get_session. rewrite Hs, Hc. reflexivity. }
    rewrite Heq. cbn [snd]. rewrite app_nil_r. split; [reflexivity|left; reflexivity].
  - destruct (geminiChat session) as [chat|] eqn:Hchat.
    + destruct (processAudioChunks_run engine sid w session chat Hs) as (sent & more & Heq & Hcase);
        [congruence|exact Hchat|].
      exists sent. rewrite Heq. cbn [snd wire]. split; [reflexivity|].
      destruct (answer engine (calls w) (flush_request session chat)) as [text|e].
      * destruct (Js.nonempty (Js.trim text)) eqn:Hne.
        -- right. right. exists (Js.trim text).
           split; [exact Hne|]. split; [apply trim_idem|].
           destruct (is_str (targetLanguage session) (lit "en")) eqn:Hen.
           ++ destruct Hcase as [-> _]. left. split; reflexivity.
           ++ destruct Hcase as (tr & err & more' & -> & _ & Hends).
              right. split; [reflexivity|]. exists tr, err. split; [reflexivity|].
              unfold translation_ends in Hends.
              destruct (answer engine _ (GetGenerativeModel false)).
              ** destruct Hends as [_ Hends].
                 destruct (answer engine _ (translate_request _ _ _)).
                 --- destruct Hends as [-> ->]. apply trim_idem.
                 --- destruct Hends as [-> ->]. reflexivity.
              ** destruct Hends as (-> & -> & _). reflexivity.
        -- destruct Hcase as [-> _]. left. reflexivity.
      * destruct Hcase as [-> _]. right. left. reflexivity.
    + assert (Heq : processAudioChunks engine sid w =
                      (Done tt,
                       {| activeSessions := <[sid := set_audioChunks [] session]> (activeSessions w);
                          wire := wire w ++ [(ws session, WsSend (MsgTranscription audio_error_text true))];
                          calls := calls w |})).
      { unfold processAudioChunks, bind at 1, get_session. rewrite Hs, Hc, Hchat.
        cbn [length Nat.eqb]. unfold try_catch, bind at 1, update, modify.
        cbn [activeSessions wire calls].
        rewrite (alter_lookup_insert _ _ _ _ Hs). reflexivity. }
      rewrite Heq. cbn [snd wire]. eexists. split; [reflexivity|]. right. left. reflexivity.
Qed.

(** X11. A binary message whose first byte is an opening brace is never
    appended to the audio buffer, transcribing or not: it is handled as
    the command its text parses to, so that afterwards the buffer is what
    it was or is empty. *)
Theorem brace_fragment_is_taken_as_command data (sid : list N) w session :
  activeSessions w !! sid = Some session ->
  buffer_starts_with_brace data = true ->
  let w' := snd (handleMessage JSON_parse Buffer_toString engine (BufferMsg data) sid w) in
  w' = snd (handleMessage JSON_parse Buffer_toString engine
              (StringMsg (Buffer_toString data)) sid w)
  /\ exists session',
      activeSessions w' !! sid = Some session'
      /\ (audioChunks session' = audioChunks session \/ audioChunks session' = []).
Proof.
  intros Hs Hb. cbv zeta.
  assert (Heq : handleMessage JSON_parse Buffer_toString engine (BufferMsg data) sid w
                = handleMessage JSON_parse Buffer_toString engine
                    (StringMsg (Buffer_toString data)) sid w).
  { unfold handleMessage. rewrite Hs, Hb. reflexivity. }
  rewrite Heq. split; [reflexivity|].
  assert (Hsame : exists session', activeSessions w !! sid = Some session'
                    /\ (audioChunks session' = audioChunks session
                        \/ audioChunks session' = [])).
  { exists session. auto. }
  unfold handleMessage. rewrite Hs. unfold try_catch, handleCommand.
  destruct (JSON_parse (Buffer_toString data)) as [command|e]; [|exact Hsame].
  destruct (get_prop command (lit "type")) as [[[]|]|]; try exact Hsame.
  destruct (Js.eqb s (lit "start")).
  { destruct (isTranscribing session) eqn:Ht.
    - assert (Hstart : handleStartCommand engine command sid w = (Done tt, w)).
      { unfold handleStartCommand, bind at 1, get_session. rewrite Hs, Ht. reflexivity. }
      rewrite Hstart. exact Hsame.
    - rewrite (handleStartCommand_run command sid w session Hs Ht). cbv zeta.
      destruct (answer engine (calls w) (GetGenerativeModel false));
        [destruct (answer engine _ (StartChat _))|];
        cbn [snd activeSessions send modify]; unfold send, modify; cbn [snd activeSessions];
        (eexists; rewrite lookup_insert_eq; split; [reflexivity|right; reflexivity]). }
  destruct (Js.eqb s (lit "stop")).
  { destruct (isTranscribing session) eqn:Ht.
    - rewrite (handleStopCommand_result engine sid w session Hs Ht). cbn [snd activeSessions].
      eexists. rewrite lookup_insert_eq. split; [reflexivity|right; reflexivity].
    - assert (Hstop : handleStopCommand engine sid w = (Done tt, w)).
      { unfold handleStopCommand, bind at 1, get_session. rewrite Hs, Ht. reflexivity. }
      rewrite Hstop. exact Hsame. }
  destruct (Js.eqb s (lit "setLanguage")); [|exact Hsame].
  rewrite (handleSetLanguageCommand_run command sid w session Hs).
  destruct (get_prop command (lit "language")) as [[value|]|]; try exact Hsame.
  destruct (truthy (Some value)); [|exact Hsame].
  cbn [snd activeSessions]. eexists. rewrite lookup_insert_eq.
  split; [reflexivity|left; reflexivity].
Qed.
Lemma command_never_buffers text (sid : list N) w session :
  activeSessions w !! sid = Some session ->
  exists session',
    activeSessions
      (snd (try_catch (handleCommand JSON_parse engine text sid)
                      (fun message => send (ws session) (MsgError message)) w)) !! sid
    = Some session'
    /\ (audioChunks session' = audioChunks session \/ audioChunks session' = []).
Proof.
  intros Hs.
  assert (Hsame : exists session', activeSessions w !! sid = Some session'
                    /\ (audioChunks session' = audioChunks session
                        \/ audioChunks session' = [])).
  { exists session. auto. }
  unfold try_catch, handleCommand.
  destruct (JSON_parse text) as [command|e]; [|exact Hsame].
  destruct (get_prop command (lit "type")) as [[[]|]|]; try exact Hsame.
  destruct (Js.eqb s (lit "start")).
  { destruct (isTranscribing session) eqn:Ht.
    - assert (Hstart : handleStartCommand engine command sid w = (Done tt, w)).
      { unfold handleStartCommand, bind at 1, get_session. rewrite Hs, Ht. reflexivity. }
      rewrite Hstart. exact Hsame.
    - rewrite (handleStartCommand_run command sid w session Hs Ht). cbv zeta.
      destruct (answer engine (calls w) (GetGenerativeModel false));
        [destruct (answer engine _ (StartChat _))|];
        cbn [snd activeSessions send modify]; unfold send, modify; cbn [snd activeSessions];
        (eexists; rewrite lookup_insert_eq; split; [reflexivity|right; reflexivity]). }
  destruct (Js.eqb s (lit "stop")).
  { destruct (isTranscribing session) eqn:Ht.
    - rewrite (handleStopCommand_result engine sid w session Hs Ht). cbn [snd activeSessions].
      eexists. rewrite lookup_insert_eq. split; [reflexivity|right; reflexivity].
    - assert (Hstop : handleStopCommand engine sid w = (Done tt, w)).
      { unfold handleStopCommand, bind at 1, get_session. rewrite Hs, Ht. reflexivity. }
      rewrite Hstop. exact Hsame. }
  destruct (Js.eqb s (lit "setLanguage")); [|exact Hsame].
  rewrite (handleSetLanguageCommand_run command sid w session Hs).
  destruct (get_prop command (lit "language")) as [[value|]|]; try exact Hsame.
  destruct (truthy (Some value)); [|exact Hsame].
  cbn [snd activeSessions]. eexists. rewrite lookup_insert_eq.
  split; [reflexivity|left; reflexivity].
Qed.

(** C6 (amended). A fragment given to [handleAudioData] changes the buffer
    only if [isTranscribing] is true.  While it is false: the handler
    changes nothing; a binary message whose first byte is not an opening
    brace changes nothing and nothing is sent; a binary message whose
    first byte is an opening brace is not buffered either, but it is
    parsed as a command, and when [JSON.parse] rejects its text one
    [error] message is sent to the client. *)
Theorem audio_buffered_only_while_transcribing (sid : list N) w session data :
  activeSessions w !! sid = Some session ->
  (isTranscribing session = false ->
     handleAudioData engine data sid w = (Done tt, w)
     /\ (buffer_starts_with_brace data = false ->
          handleMessage JSON_parse Buffer_toString engine (BufferMsg data) sid w
          = (Done tt, w))
     /\ (buffer_starts_with_brace data = true ->
          (forall e,
              JSON_parse (Buffer_toString data) = inr e ->
              handleMessage JSON_parse Buffer_toString engine (BufferMsg data) sid w =
                (Done tt,
                 {| activeSessions := activeSessions w;
                    wire := wire w ++ [(ws session, WsSend (MsgError e))];
                    calls := calls w |}))
          /\ exists session',
              activeSessions
                (snd (handleMessage JSON_parse Buffer_toString engine
                        (BufferMsg data) sid w)) !! sid = Some session'
              /\ (audioChunks session' = audioChunks session
                  \/ audioChunks session' = [])))
  /\ (forall session',
        activeSessions (snd (handleAudioData engine data sid w)) !! sid = Some session' ->
        audioChunks session' <> audioChunks session ->
        isTranscribing session = true).
Proof.
  intros Hs. split.
  - intros Hf. split; [exact (handleAudioData_idle engine data sid w session Hs Hf)|]. split.
    + intros Hb. unfold handleMessage. rewrite Hs, Hb. unfold try_catch.
      rewrite (handleAudioData_idle engine data sid w session Hs Hf). reflexivity.
    + intros Hb.
      assert (Ht : parsed_text Buffer_toString (BufferMsg data) = Some (Buffer_toString data)).
      { cbn [parsed_text]. rewrite Hb. reflexivity. }
      rewrite (handleMessage_text JSON_parse Buffer_toString engine _ _ sid w session Hs Ht).
      split; [|apply command_never_buffers; exact Hs].
      intros e Hp. unfold try_catch, handleCommand. rewrite Hp. reflexivity.
  - intros session' Hs' Hdiff. destruct (isTranscribing session) eqn:Ht; [reflexivity|].
    rewrite (handleAudioData_idle engine data sid w session Hs Ht) in Hs'. cbn [snd] in Hs'.
    rewrite Hs in Hs'. congruence.
Qed.

Lemma audio_submissions_app l1 l2 :
  audio_submissions (l1 ++ l2) = audio_submissions l1 ++ audio_submissions l2.
Proof. unfold audio_submissions. apply flat_map_app. Qed.

Lemma audio_submissions_quiet more :
  existsb is_SendMessage more = false -> audio_submissions more = [].
Proof.
  induction more as [|c more IH]; [reflexivity|]. cbn [existsb].
  intros H. apply orb_false_iff in H as [Hc Hmore].
  destruct c; try discriminate; cbn; exact (IH Hmore).
Qed.

Lemma feed_audio_submissions fragments (sid : list N) w session :
  activeSessions w !! sid = Some session ->
  isTranscribing session = true ->
  session_ok session ->
  let w' := feed_audio engine sid fragments w in
  exists session' batches,
    activeSessions w' !! sid = Some session'
    /\ audio_submissions (calls w')
       = audio_submissions (calls w)
         ++ List.map (fun batch => (lit "audio/webm", Js.base64 (Js.Buffer_concat batch)))
                     batches
    /\ Forall (fun batch => length batch = 5%nat) batches
    /\ List.concat batches ++ audioChunks session' = audioChunks session ++ fragments
    /\ session_ok session'.
Proof.
  revert w session. induction fragments as [|d ds IH]; intros w session Hs Ht Hok; cbv zeta.
  - exists session, []. cbn. rewrite !app_nil_r.
    split; [exact Hs|]. split; [reflexivity|].
    split; [constructor|]. split; [reflexivity|exact Hok].
  - rewrite feed_audio_cons.
    rewrite (handleAudioData_run engine d sid w session Hs Ht).
    destruct Hok as [Hlen Hchat].
    assert (Hb : length (audioChunks session ++ [d]) = S (length (audioChunks session))).
    { rewrite length_app. cbn. lia. }
    destruct (5 <=? length (audioChunks session ++ [d]))%nat eqn:Hth.
    + apply Nat.leb_le in Hth. destruct (Hchat Ht) as [chat Hc].
      match goal with |- context [processAudioChunks engine sid ?w1] =>
        destruct (flush_calls_once engine sid w1
                    (set_audioChunks (audioChunks session ++ [d]) session) chat)
          as (sent & more & Heq & Hmore) end.
      { apply lookup_insert_eq. }
      { cbn. intros E. rewrite E in Hb. discriminate. }
      { exact Hc. }
      rewrite Heq. cbn [snd activeSessions wire calls]. rewrite insert_insert_eq.
      match goal with |- context [feed_audio engine sid ds ?w2] =>
        destruct (IH w2 (set_audioChunks [] session))
          as (session' & batches & Hs' & Hsub & Hfive & Hcat & Hlen') end.
      { apply lookup_insert_eq. }
      { exact Ht. }
      { split; [cbn; lia|exact Hchat]. }
      exists session', ((audioChunks session ++ [d]) :: batches).
      split; [exact Hs'|]. split; [|split; [|split]].
      * rewrite Hsub. cbn [calls]. rewrite audio_submissions_app.
        unfold flush_request. cbn [audio_submissions flat_map set_audioChunks audioChunks].
        fold (audio_submissions more). rewrite (audio_submissions_quiet more Hmore).
        cbn [List.map]. rewrite <- app_assoc. reflexivity.
      * constructor; [lia|exact Hfive].
      * cbn [List.concat]. rewrite <- app_assoc, Hcat. cbn.
        rewrite <- app_assoc. reflexivity.
      * exact Hlen'.
    + apply Nat.leb_gt in Hth. cbn [snd].
      match goal with |- context [feed_audio engine sid ds ?w1] =>
        destruct (IH w1 (set_audioChunks (audioChunks session ++ [d]) session))
          as (session' & batches & Hs' & Hsub & Hfive & Hcat & Hlen') end.
      { apply lookup_insert_eq. }
      { exact Ht. }
      { split; [exact Hth|exact Hchat]. }
      exists session', batches.
      split; [exact Hs'|]. split; [exact Hsub|].
      split; [exact Hfive|]. split; [|exact Hlen'].
      rewrite Hcat. cbn. rewrite <- app_assoc. reflexivity.
Qed.

(** C10. Every flush of a buffer that is not empty submits it to the
    session's chat with the mime type [audio/webm], and makes no other
    audio submission.  The [start] handler does not look at its command:
    two [start] commands, whatever their [format] fields, are handled
    alike, as handler arguments and as messages.  So after a [start] with
    any [format], the fragments fed to the session are submitted in
    batches of five, each as [audio/webm]; and whatever the server is
    sent, every audio submission in its engine log carries that mime
    type. *)
Theorem audio_is_always_sent_as_webm :
  (forall (sid : list N) w session chat,
      activeSessions w !! sid = Some session ->
      (0 < length (audioChunks session))%nat ->
      geminiChat session = Some chat ->
      exists sent more,
        processAudioChunks engine sid w =
          (Done tt,
           {| activeSessions := <[sid := set_audioChunks [] session]> (activeSessions w);
              wire := wire w ++ sent;
              calls := calls w
                       ++ SendMessage chat (lit "audio/webm")
                            (Js.base64 (Js.Buffer_concat (audioChunks session)))
                          :: more |})
        /\ existsb is_SendMessage more = false)
  /\ (forall command1 command2 (sid : list N) w,
        handleStartCommand engine command1 sid w
        = handleStartCommand engine command2 sid w)
  /\ (forall text1 text2 command1 command2 (sid : list N) w,
        JSON_parse text1 = inl command1 ->
        JSON_parse text2 = inl command2 ->
        has_type command1 "start" = true ->
        has_type command2 "start" = true ->
        handleMessage JSON_parse Buffer_toString engine (StringMsg text1) sid w
        = handleMessage JSON_parse Buffer_toString engine (StringMsg text2) sid w)
  /\ (forall text command (sid : list N) w session x y fragments,
        activeSessions w !! sid = Some session ->
        isTranscribing session = false ->
        JSON_parse text = inl command ->
        has_type command "start" = true ->
        answer engine (calls w) (GetGenerativeModel false) = Returned x ->
        answer engine (calls w ++ [GetGenerativeModel false])
               (StartChat (length (calls w))) = Returned y ->
        let started :=
          snd (handleMessage JSON_parse Buffer_toString engine (StringMsg text) sid w) in
        let w' := feed_audio engine sid fragments started in
        exists batches rest,
          audio_submissions (calls w')
          = audio_submissions (calls w)
            ++ List.map (fun batch =>
                           (lit "audio/webm", Js.base64 (Js.Buffer_concat batch)))
                        batches
          /\ Forall (fun batch => length batch = 5%nat) batches
          /\ List.concat batches ++ rest = fragments
          /\ (length rest < 5)%nat)
  /\ (forall events,
        webm_only (calls (run JSON_parse Buffer_toString engine events initial))).
Proof.
  split; [|split; [|split; [|split]]].
  - intros sid w session chat Hs Hlen Hchat.
    apply (flush_calls_once engine sid w session chat Hs); [|exact Hchat].
    intros E. rewrite E in Hlen. cbn in Hlen. lia.
  - reflexivity.
  - intros text1 text2 command1 command2 sid w H1 H2 T1 T2.
    unfold handleMessage. destruct (activeSessions w !! sid) as [session|]; [|reflexivity].
    unfold try_catch, handleCommand. rewrite H1, H2.
    unfold has_type in T1, T2.
    destruct (get_prop command1 (lit "type")) as [[[]|]|]; try discriminate.
    destruct (get_prop command2 (lit "type")) as [[[]|]|]; try discriminate.
    rewrite T1, T2. reflexivity.
  - intros text command sid w session x y fragments Hs Hidle Hp Hty H1 H2. cbv zeta.
    rewrite (handleMessage_start text command sid w session Hs Hp Hty).
    unfold try_catch. rewrite (handleStartCommand_run command sid w session Hs Hidle).
    cbv zeta. rewrite H1, H2. cbn [snd].
    match goal with |- context [feed_audio engine sid fragments ?w1] => set (started := w1) end.
    set (session1 := {| ws := ws session; targetLanguage := targetLanguage session;
                        audioChunks := []; isTranscribing := true;
                        geminiModel := Some (length (calls w));
                        geminiChat := Some (S (length (calls w))) |}).
    destruct (feed_audio_submissions fragments sid started session1)
      as (session' & batches & _ & Hsub & Hfive & Hcat & [Hlen _]).
    { apply lookup_insert_eq. }
    { reflexivity. }
    { split; [cbn; lia|]. intros _. eexists. reflexivity. }
    exists batches, (audioChunks session'). split; [|split; [exact Hfive|split; [exact Hcat|exact Hlen]]].
    rewrite Hsub. subst started. cbn [calls]. rewrite audio_submissions_app.
    cbn [audio_submissions flat_map app]. rewrite app_nil_r. reflexivity.
  - intros events. apply webm_run. constructor.
Qed.
End Further.

Section Gateways.
Variable engine : Engine.
Variable NODE_ENV : option (list N).

Lemma generateContent_run prompt log :
  Gemini.generateContent engine prompt log =
    match answer engine log (GetGenerativeModel false) with
    | Threw e => (Raised (lit "Gemini API Error: " ++ e), log ++ [GetGenerativeModel false])
    | Returned _ =>
        match answer engine (log ++ [GetGenerativeModel false])
                     (GenerateContent (length log) (Prompt prompt)) with
        | Returned text =>
            (Done text,
             log ++ [GetGenerativeModel false; GenerateContent (length log) (Prompt prompt)])
        | Threw e =>
            (Raised (lit "Gemini API Error: " ++ e),
             log ++ [GetGenerativeModel false; GenerateContent (length log) (Prompt prompt)])
        end
    end.
Proof.
  unfold Gemini.generateContent, try_catch, bind, construct, call, throw.
  destruct (answer engine log (GetGenerativeModel false)); [|reflexivity].
  destruct (answer engine (log ++ [GetGenerativeModel false]) _);
    rewrite <- app_assoc; reflexivity.
Qed.

Lemma validation_is_acceptable text targetLang sourceLang :
  Validators.isValid (Validators.validateTranslationRequest text targetLang sourceLang)
  = acceptable text targetLang sourceLang.
Proof.
  unfold Validators.validateTranslationRequest, acceptable. cbn [Validators.isValid].
  destruct (Validators.given text); cbn [negb andb app].
  - destruct (Validators.given targetLang) eqn:Ht; cbn [negb].
    + destruct (Validators.isValidLanguage targetLang); cbn [negb andb app].
      * destruct (Validators.given sourceLang); cbn [negb andb orb]; [|reflexivity].
        destruct (Js.eqb (Validators.rendered sourceLang) (lit "auto")); cbn [negb andb orb];
          [reflexivity|].
        destruct (Validators.isValidLanguage sourceLang); reflexivity.
      * reflexivity.
    + assert (Hv : Validators.isValidLanguage targetLang = false).
      { destruct targetLang as [code|]; [|reflexivity]. cbn in Ht. cbn. rewrite Ht. reflexivity. }
      rewrite Hv. reflexivity.
  - reflexivity.
Qed.

Lemma unacceptable_cases text targetLang source :
  Validators.given text = false
  \/ Validators.isValidLanguage targetLang = false
  \/ (Js.nonempty source = true
      /\ Js.eqb source (lit "auto") = false
      /\ Validators.isValidLanguage (Some source) = false) ->
  acceptable text targetLang (Some source) = false.
Proof.
  unfold acceptable. cbn [Validators.given Validators.rendered].
  intros [Ht|[Hl|(Hn & Ha & Hv)]].
  - rewrite Ht. reflexivity.
  - rewrite Hl. apply andb_false_iff. left. apply andb_false_r.
  - rewrite Hn, Ha, Hv. apply andb_false_r.
Qed.

(** X12. [translate] validates before it calls the engine: when the text
    is missing or empty, the target language is not a supported one, or
    the source language is a non-empty string that is neither [auto] nor
    supported, it throws the validation errors, joined, and the engine is
    not called at all.  An empty string as source language is not
    rejected: with a text and a supported target the request goes to the
    engine. *)
Theorem translate_rejects_before_calling text targetLang sourceLang log :
  let source := source_or_default sourceLang in
  let found := Validators.errors
                 (Validators.validateTranslationRequest text targetLang (Some source)) in
  (Validators.given text = false
   \/ Validators.isValidLanguage targetLang = false
   \/ (Js.nonempty source = true
       /\ Js.eqb source (lit "auto") = false
       /\ Validators.isValidLanguage (Some source) = false) ->
   Translators.translate engine text targetLang sourceLang log
   = (Raised (Js.join (lit ", ") found), log)
   /\ found <> []
   /\ (Validators.given text = false ->
       exists rest, found = lit "Text is required for translation" :: rest))
  /\ (Validators.given text = true ->
      Validators.isValidLanguage targetLang = true ->
      sourceLang = Some [] ->
      exists more,
        snd (Translators.translate engine text targetLang sourceLang log)
        = log ++ GetGenerativeModel false :: more).
Proof.
  cbv zeta. split.
  - intros Hcases. pose proof (unacceptable_cases _ _ _ Hcases) as Hbad. split; [|split].
    + unfold Translators.translate. fold (source_or_default sourceLang).
      rewrite validation_is_acceptable, Hbad. reflexivity.
    + rewrite <- validation_is_acceptable in Hbad.
      unfold Validators.validateTranslationRequest in *.
      cbn [Validators.isValid Validators.errors] in *.
      intros E. rewrite E in Hbad. discriminate.
    + intros Ht. unfold Validators.validateTranslationRequest. cbn [Validators.errors].
      rewrite Ht. cbn [negb app]. eexists. reflexivity.
  - intros Ht Hl ->. unfold Translators.translate.
    rewrite validation_is_acceptable. unfold acceptable.
    rewrite Ht, Hl. cbn [Validators.given Js.nonempty negb andb orb]. unfold bind.
    rewrite generateContent_run.
    destruct (answer engine log (GetGenerativeModel false)) as [x|e].
    + destruct (answer engine (log ++ [GetGenerativeModel false]) _) as [reply|e];
        cbn [snd]; eexists; reflexivity.
    + cbn [snd]. exists []. reflexivity.
Qed.

(** X13. For a request that passes validation [translate] asks for one
    model and sends one prompt; it returns the engine's text with the
    whitespace at its ends removed.  It throws exactly when the engine
    throws, on the model or on the prompt, and the message is then
    [Gemini API Error: ] followed by the message the engine threw; the
    prompt is not sent when the model could not be had. *)
Theorem translate_answers text targetLang sourceLang log :
  acceptable text targetLang (Some (source_or_default sourceLang)) = true ->
  let prompt := Translators.translation_prompt (Validators.rendered targetLang)
                  (source_or_default sourceLang) (Validators.rendered text) in
  let request := GenerateContent (length log) (Prompt prompt) in
  match Translators.translate engine text targetLang sourceLang log with
  | (Done translation, log') =>
      trimmed translation
      /\ log' = log ++ [GetGenerativeModel false; request]
      /\ exists x reply,
          answer engine log (GetGenerativeModel false) = Returned x
          /\ answer engine (log ++ [GetGenerativeModel false]) request = Returned reply
          /\ translation = Js.trim reply
  | (Raised message, log') =>
      exists e,
        message = lit "Gemini API Error: " ++ e
        /\ ((answer engine log (GetGenerativeModel false) = Threw e
             /\ log' = log ++ [GetGenerativeModel false])
            \/ (exists x, answer engine log (GetGenerativeModel false) = Returned x)
               /\ answer engine (log ++ [GetGenerativeModel false]) request = Threw e
               /\ log' = log ++ [GetGenerativeModel false; request])
  end.
Proof.
  intros Hok. cbv zeta. unfold Translators.translate. fold (source_or_default sourceLang).
  rewrite validation_is_acceptable, Hok. cbn [negb]. unfold bind.
  rewrite generateContent_run.
  destruct (answer engine log (GetGenerativeModel false)) as [x|e] eqn:Hm.
  - destruct (answer engine (log ++ [GetGenerativeModel false]) _) as [reply|e] eqn:Hr.
    + cbn. split; [apply trim_idem|]. split; [reflexivity|].
      exists x, reply. split; [reflexivity|]. split; reflexivity.
    + exists e. split; [reflexivity|]. right. split; [exists x; reflexivity|].
      split; reflexivity.
  - exists e. split; [reflexivity|]. left. split; reflexivity.
Qed.

Ltac answers :=
  repeat match goal with
         | |- context [answer engine ?l ?c] =>
             let E := fresh "E" in destruct (answer engine l c) eqn:E
         end.

Lemma transcribeAudio_checks audioData audioFormat log :
  (audioData = None ->
   Translators.transcribeAudio engine NODE_ENV audioData audioFormat log
   = (Raised (lit "Audio data must be provided as a Buffer"), log))
  /\ (forall data,
        audioData = Some data ->
        Validators.given audioFormat = false ->
        Translators.transcribeAudio engine NODE_ENV audioData audioFormat log
        = (Raised (lit "Audio format must be specified"), log)).
Proof.
  split.
  - intros ->. reflexivity.
  - intros data -> Hf. unfold Translators.transcribeAudio.
    destruct audioFormat as [format|]; [|reflexivity].
    cbn in Hf. rewrite Hf. reflexivity.
Qed.

Lemma transcribeAudio_dev data format log :
  not_production NODE_ENV = true ->
  Js.nonempty format = true ->
  exists text more,
    Translators.transcribeAudio engine NODE_ENV (Some data) (Some format) log
    = (Done text, log ++ more)
    /\ trimmed text
    /\ (length more <= 3)%nat
    /\ Forall (fun c => match c with
                        | GenerateContent _ _ => False
                        | GetGenerativeModel safety => safety = true
                        | _ => True
                        end) more.
Proof.
  intros Hdev Hf. unfold Translators.transcribeAudio. rewrite Hf. cbn [negb].
  unfold GeminiLive.transcribeAudio, try_catch, bind, construct, call, ret.
  rewrite Hdev. answers.
  - eexists _, _. rewrite <- !app_assoc. cbn [app]. split; [reflexivity|].
    split; [apply trim_idem|]. split; [cbn; lia|].
    repeat constructor.
  - eexists _, _. rewrite <- !app_assoc. cbn [app]. split; [reflexivity|].
    split; [apply trim_idem|]. split; [cbn; lia|].
    repeat constructor.
  - eexists _, _. rewrite <- !app_assoc. cbn [app]. split; [reflexivity|].
    split; [apply trim_idem|]. split; [cbn; lia|].
    repeat constructor.
  - eexists _, _. split; [reflexivity|].
    split; [apply trim_idem|]. split; [cbn; lia|].
    repeat constructor.
Qed.

Lemma transcribeAudio_raised data format log message log' :
  Js.nonempty format = true ->
  Translators.transcribeAudio engine NODE_ENV (Some data) (Some format) log
  = (Raised message, log') ->
  not_production NODE_ENV = false
  /\ exists live e,
      log' = log ++ live ++ [GetGenerativeModel false]
      /\ answer engine (log ++ live) (GetGenerativeModel false) = Threw e
      /\ message = lit "Gemini API Transcription Error: " ++ e
      /\ (0 < length live <= 3)%nat.
Proof.
  intros Hf. unfold Translators.transcribeAudio. rewrite Hf. cbn [negb].
  unfold GeminiLive.transcribeAudio, Gemini.transcribeAudio,
    try_catch, bind, construct, call, ret, throw.
  destruct (not_production NODE_ENV) eqn:Hmode.
  - answers; intros H; discriminate H.
  - assert (Hend : forall live e4 m l,
               answer engine (log ++ live) (GetGenerativeModel false) = Threw e4 ->
               (0 < length live <= 3)%nat ->
               (Raised (A:=list N) (lit "Gemini API Transcription Error: " ++ e4),
                log ++ live ++ [GetGenerativeModel false]) = (Raised m, l) ->
               false = false
               /\ exists live0 e,
                   l = log ++ live0 ++ [GetGenerativeModel false]
                   /\ answer engine (log ++ live0) (GetGenerativeModel false) = Threw e
                   /\ m = lit "Gemini API Transcription Error: " ++ e
                   /\ (0 < length live0 <= 3)%nat).
    { intros live e4 m l E4 Hlen H. split; [reflexivity|]. exists live, e4.
      split; [congruence|]. split; [exact E4|].
      split; [congruence|exact Hlen]. }
    destruct (answer engine log (GetGenerativeModel true)) as [x|e1] eqn:E1.
    + destruct (answer engine (log ++ [GetGenerativeModel true]) _) as [y|e2] eqn:E2.
      * destruct (answer engine ((log ++ [GetGenerativeModel true]) ++ _) _) as [t|e3] eqn:E3.
        -- intros H; discriminate H.
        -- rewrite <- !app_assoc. cbn [app].
           match goal with |- context [answer engine (log ++ ?live) (GetGenerativeModel false)] =>
             destruct (answer engine (log ++ live) (GetGenerativeModel false)) as [z|e4] eqn:E4;
             [answers; intros H; discriminate H
             |apply (Hend live e4); [exact E4|cbn; lia]] end.
      * rewrite <- !app_assoc. cbn [app].
        match goal with |- context [answer engine (log ++ ?live) (GetGenerativeModel false)] =>
          destruct (answer engine (log ++ live) (GetGenerativeModel false)) as [z|e4] eqn:E4;
          [answers; intros H; discriminate H
          |apply (Hend live e4); [exact E4|cbn; lia]] end.
    + rewrite <- !app_assoc. cbn [app].
      match goal with |- context [answer engine (log ++ ?live) (GetGenerativeModel false)] =>
        destruct (answer engine (log ++ live) (GetGenerativeModel false)) as [z|e4] eqn:E4;
        [answers; intros H; discriminate H
        |apply (Hend live e4); [exact E4|cbn; lia]] end.
Qed.

(** X14. Outside production [transcribeAudio] never throws for a Buffer
    and a format: it returns a trimmed text after at most three calls, all
    on the live path, and the single-shot request is never made, because
    the live path returns its placeholder instead of failing. *)
Theorem transcribe_outside_production data format log :
  not_production NODE_ENV = true ->
  Js.nonempty format = true ->
  exists text more,
    Translators.transcribeAudio engine NODE_ENV (Some data) (Some format) log
    = (Done text, log ++ more)
    /\ trimmed text
    /\ (length more <= 3)%nat
    /\ Forall (fun c => match c with
                        | GenerateContent _ _ => False
                        | GetGenerativeModel safety => safety = true
                        | _ => True
                        end) more.
Proof. exact (transcribeAudio_dev data format log). Qed.

(** X15. Whenever [transcribeAudio] throws for a Buffer and a format, the
    system runs in production, the live path has failed, and the message is
    [Gemini API Transcription Error: ] followed by the message with which
    the single-shot path failed to get its model; the message of the live
    failure is never seen by the caller. *)
Theorem transcribe_throws_only_one_way data format log message log' :
  Js.nonempty format = true ->
  Translators.transcribeAudio engine NODE_ENV (Some data) (Some format) log
  = (Raised message, log') ->
  not_production NODE_ENV = false
  /\ exists live e,
      log' = log ++ live ++ [GetGenerativeModel false]
      /\ answer engine (log ++ live) (GetGenerativeModel false) = Threw e
      /\ message = lit "Gemini API Transcription Error: " ++ e
      /\ (0 < length live <= 3)%nat.
Proof. exact (transcribeAudio_raised data format log message log'). Qed.

Lemma transcribeAudio_done_trimmed data format log text log' :
  Js.nonempty format = true ->
  Translators.transcribeAudio engine NODE_ENV (Some data) (Some format) log
  = (Done text, log') ->
  trimmed text.
Proof.
  intros Hf. unfold Translators.transcribeAudio. rewrite Hf. cbn [negb].
  unfold try_catch, bind, ret.
  destruct (GeminiLive.transcribeAudio engine NODE_ENV data format log) as [[t|e] l1].
  - intros H. assert (text = Js.trim t) by congruence. subst text. apply trim_idem.
  - destruct (Gemini.transcribeAudio engine NODE_ENV data format l1) as [[t|e2] l2].
    + intros H. assert (text = Js.trim t) by congruence. subst text. apply trim_idem.
    + discriminate.
Qed.

Lemma translate_run text targetLang sourceLang log :
  Translators.translate engine text targetLang sourceLang log =
    if acceptable text targetLang (Some (source_or_default sourceLang))
    then
      match Gemini.generateContent engine
              (Translators.translation_prompt (Validators.rendered targetLang)
                 (source_or_default sourceLang) (Validators.rendered text)) log with
      | (Done translation, log') => (Done (Js.trim translation), log')
      | (Raised e, log') => (Raised e, log')
      end
    else
      (Raised (Js.join (lit ", ")
                 (Validators.errors
                    (Validators.validateTranslationRequest
                       text targetLang (Some (source_or_default sourceLang))))), log).
Proof.
  unfold Translators.translate. fold (source_or_default sourceLang).
  rewrite validation_is_acceptable.
  destruct (acceptable text targetLang (Some (source_or_default sourceLang))); reflexivity.
Qed.

(** X16. [POST /translate] always answers, with 200, 400 or 500.  It
    answers 400 exactly when the text or the target language is missing,
    and then the engine is not called.  A request with both but with an
    unsupported language is answered 500, not 400, with the validation
    errors, and the engine is not called either.  A 200 carries the text as
    sent and a trimmed translation. *)
Theorem api_translate_responses text targetLang sourceLang log :
  exists response log',
    ApiServer.postTranslate engine text targetLang sourceLang log = (Done response, log')
    /\ (ApiServer.status response = 200%nat \/ ApiServer.status response = 400%nat
        \/ ApiServer.status response = 500%nat)
    /\ (ApiServer.status response = 400%nat
        <-> Validators.given text && Validators.given targetLang = false)
    /\ (ApiServer.status response = 400%nat -> log' = log)
    /\ (Validators.given text && Validators.given targetLang = true ->
        acceptable text targetLang (Some (source_or_default sourceLang)) = false ->
        log' = log
        /\ response =
           {| ApiServer.status := 500;
              ApiServer.body :=
                ApiServer.Failure
                  (Js.join (lit ", ")
                     (Validators.errors
                        (Validators.validateTranslationRequest
                           text targetLang (Some (source_or_default sourceLang)))))
                  None |})
    /\ (ApiServer.status response = 200%nat ->
        acceptable text targetLang (Some (source_or_default sourceLang)) = true
        /\ exists translated shown,
            ApiServer.body response
            = ApiServer.Translated (Validators.rendered text) translated shown
                                   (Validators.rendered targetLang)
            /\ trimmed translated).
Proof.
  unfold ApiServer.postTranslate, try_catch, bind, ret.
  destruct (Validators.given text) eqn:Ht; cbn [negb orb andb].
  - destruct (Validators.given targetLang) eqn:Hl; cbn [negb orb andb].
    + rewrite translate_run.
      destruct (acceptable text targetLang (Some (source_or_default sourceLang))) eqn:Hok.
      * destruct (Gemini.generateContent engine _ log) as [[translation|e] log1].
        -- eexists _, _. split; [reflexivity|]. cbn [ApiServer.status ApiServer.body].
           split; [auto|]. split; [split; discriminate|]. split; [discriminate|].
           split; [discriminate|]. intros _. split; [reflexivity|].
           eexists _, _. split; [reflexivity|apply trim_idem].
        -- eexists _, _. split; [reflexivity|]. cbn [ApiServer.status ApiServer.body].
           split; [auto|]. split; [split; discriminate|]. split; [discriminate|].
           split; [discriminate|]. discriminate.
      * eexists _, _. split; [reflexivity|]. cbn [ApiServer.status ApiServer.body].
        split; [auto|]. split; [split; discriminate|]. split; [discriminate|].
        split; [intros _ _; split; reflexivity|]. discriminate.
    + eexists _, _. split; [reflexivity|]. cbn [ApiServer.status ApiServer.body].
      split; [auto|]. split; [split; reflexivity|]. split; [reflexivity|].
      split; [discriminate|]. discriminate.
  - eexists _, _. split; [reflexivity|]. cbn [ApiServer.status ApiServer.body].
    split; [auto|]. split; [split; reflexivity|]. split; [reflexivity|].
    split; [discriminate|]. discriminate.
Qed.

Lemma includes_gemini_api e :
  Js.includes (lit "Gemini API") (lit "Gemini API Transcription Error: " ++ e) = true.
Proof. reflexivity. Qed.

(** X17. [POST /transcribe] always answers, with 200, 400 or 500.  It
    answers 400 exactly when the body is not a non-empty Buffer or the
    content type does not start with [audio/], and then the engine is not
    called.  Outside production it never answers 500.  A 500 always carries
    the [details] text and an error that starts with
    [Gemini API Transcription Error: ]: the route's branch for other errors
    is never taken.  A 200 carries a trimmed transcription and the content
    type of the request. *)
Theorem api_transcribe_responses requestBody contentType log :
  exists response log',
    ApiServer.postTranscribe engine NODE_ENV requestBody contentType log
    = (Done response, log')
    /\ (ApiServer.status response = 200%nat \/ ApiServer.status response = 400%nat
        \/ ApiServer.status response = 500%nat)
    /\ (ApiServer.status response = 400%nat
        <-> audio_request requestBody contentType = false)
    /\ (ApiServer.status response = 400%nat -> log' = log)
    /\ (ApiServer.status response = 500%nat ->
        not_production NODE_ENV = false
        /\ exists e,
            ApiServer.body response
            = ApiServer.Failure (lit "Gemini API Transcription Error: " ++ e)
                                (Some ApiServer.transcription_details))
    /\ (ApiServer.status response = 200%nat ->
        exists transcription,
          ApiServer.body response
          = ApiServer.Transcribed transcription (Validators.rendered contentType)
          /\ trimmed transcription).
Proof.
  unfold ApiServer.postTranscribe, audio_request, try_catch, ret.
  destruct requestBody as [audio|].
  - destruct (length audio =? 0)%nat; cbn [negb andb].
    + eexists _, _. split; [reflexivity|]. cbn [ApiServer.status ApiServer.body].
      split; [auto|]. split; [split; reflexivity|]. split; [reflexivity|].
      split; discriminate.
    + destruct (Validators.given contentType) eqn:Hg; cbn [negb orb andb].
      * destruct (Js.startsWith (lit "audio/") (Validators.rendered contentType));
          cbn [negb].
        -- destruct contentType as [format|]; [|discriminate]. cbn in Hg.
           unfold bind.
           destruct (Translators.transcribeAudio engine NODE_ENV (Some audio) (Some format) log)
             as [[t|m] l1] eqn:Hrun.
           ++ eexists _, _. split; [reflexivity|]. cbn [ApiServer.status ApiServer.body].
              split; [auto|]. split; [split; discriminate|]. split; [discriminate|].
              split; [discriminate|]. intros _. exists t. split; [reflexivity|].
              exact (transcribeAudio_done_trimmed audio format log t l1 Hg Hrun).
           ++ destruct (transcribeAudio_raised audio format log m l1 Hg Hrun)
                as (Hprod & live & e & _ & _ & -> & _).
              rewrite includes_gemini_api.
              eexists _, _. split; [reflexivity|]. cbn [ApiServer.status ApiServer.body].
              split; [auto|]. split; [split; discriminate|]. split; [discriminate|].
              split; [|discriminate]. intros _. split; [exact Hprod|].
              exists e. reflexivity.
        -- eexists _, _. split; [reflexivity|]. cbn [ApiServer.status ApiServer.body].
           split; [auto|]. split; [split; reflexivity|]. split; [reflexivity|].
           split; discriminate.
      * eexists _, _. split; [reflexivity|]. cbn [ApiServer.status ApiServer.body].
        split; [auto|]. split; [split; reflexivity|]. split; [reflexivity|].
        split; discriminate.
  - eexists _, _. split; [reflexivity|]. cbn [ApiServer.status ApiServer.body].
    split; [auto|]. split; [split; reflexivity|]. split; [reflexivity|].
    split; discriminate.
Qed.

(** X18. On [/transcribe] the content type and the body of the request
    reach the engine unchanged: every call that carries audio has the
    request's content type as mime type and the base64 text of the body as
    data, and no more than five calls are made. *)
Theorem api_transcribe_passes_audio_through audio format log :
  audio_request (Some audio) (Some format) = true ->
  exists more,
    snd (ApiServer.postTranscribe engine NODE_ENV (Some audio) (Some format) log)
    = log ++ more
    /\ (length more <= 5)%nat
    /\ Forall (carries format (Js.base64 audio)) more.
Proof.
  unfold audio_request. intros Hreq.
  apply andb_true_iff in Hreq as [Hreq Hstart].
  apply andb_true_iff in Hreq as [Hlen Hgiven].
  apply negb_true_iff in Hlen. cbn in Hgiven. cbn [Validators.rendered] in Hstart.
  unfold ApiServer.postTranscribe. rewrite Hlen.
  cbn [Validators.given Validators.rendered]. rewrite Hgiven, Hstart. cbn [negb orb].
  unfold Translators.transcribeAudio. rewrite Hgiven. cbn [negb].
  unfold GeminiLive.transcribeAudio, Gemini.transcribeAudio,
    try_catch, bind, construct, call, ret, throw.
  destruct (not_production NODE_ENV); answers;
    repeat match goal with
           | |- context [if ?b then _ else _] => destruct b
           end;
    cbn [snd]; rewrite <- ?app_assoc; cbn [app];
    (eexists; split; [reflexivity|]; split; [cbn; lia|]);
    repeat constructor.
Qed.
End Gateways.

Section StreamShape.
Variable engine : Engine.
Variable targetLang sourceLang : list N.

Local Abbreviation step := (Translators.step engine targetLang sourceLang).
Local Abbreviation run_stream := (Translators.run_stream engine targetLang sourceLang).
Local Abbreviation request := (Translators.request engine targetLang sourceLang).

(** What the output stream may be given: a chunk that is not empty, an
    error, or the end marker. *)
Local Abbreviation allowed := (fun ev => clean ev \/ ev = Translators.PushNull).

(** The end markers pushed so far and those the suspended handlers will
    still push. *)
Local Abbreviation markers :=
  (fun st => (end_markers (Translators.output st)
              + end_markers (List.concat (Translators.suspended st)))%nat).

Lemma clean_pushes l :
  Forall clean (List.map Translators.Push (List.filter Js.nonempty l)).
Proof.
  induction l as [|c l IH]; [constructor|]. cbn.
  destruct (Js.nonempty c) eqn:Hc; [|exact IH].
  cbn. constructor; [exact Hc|exact IH].
Qed.

Lemma request_clean text log : Forall clean (fst (request text log)).
Proof.
  unfold Translators.request, Gemini.generateContentStream.
  unfold try_catch, bind, construct, call_stream, ret.
  destruct (answer engine log (GetGenerativeModel false)) as [x|e]; cbn [fst].
  - apply Forall_app. split; [apply clean_pushes|].
    destruct (failure _); cbn; repeat constructor.
  - repeat constructor.
Qed.

Lemma end_markers_app l1 l2 :
  end_markers (l1 ++ l2) = (end_markers l1 + end_markers l2)%nat.
Proof. unfold end_markers. rewrite List.filter_app, length_app. reflexivity. Qed.

Lemma end_markers_clean l : Forall clean l -> end_markers l = 0%nat.
Proof.
  induction 1 as [|ev l Hev _ IH]; [reflexivity|].
  destruct ev; cbn in *; try exact IH. contradiction.
Qed.

Lemma clean_allowed l : Forall clean l -> Forall allowed l.
Proof. intros H. eapply Forall_impl; [exact H|]. cbn. auto. Qed.

Lemma markers_resume handler st :
  markers (Translators.resume handler st) = markers st.
Proof.
  unfold Translators.resume.
  destruct (Translators.suspended st !! handler) as [[|ev rest]|] eqn:Hl; try reflexivity.
  cbn [Translators.output Translators.suspended].
  rewrite insert_take_drop by (eapply lookup_lt_Some; exact Hl).
  pose proof (take_drop_middle _ _ _ Hl) as Hsplit.
  set (before := take handler (Translators.suspended st)) in *.
  set (after := drop (S handler) (Translators.suspended st)) in *.
  clearbody before after. rewrite <- Hsplit.
  rewrite !concat_app. cbn [List.concat]. rewrite !end_markers_app.
  change (ev :: rest) with ([ev] ++ rest). rewrite end_markers_app. lia.
Qed.

Lemma markers_on_data chunk st :
  markers (Translators.on_data engine targetLang sourceLang chunk st) = markers st.
Proof.
  destruct (on_data_fields engine targetLang sourceLang chunk st) as (Ho & _ & _ & Hsus).
  cbv zeta in Hsus. rewrite Ho.
  destruct (Translators.regex_test (Translators.textBuffer st ++ chunk)); rewrite Hsus;
    [|reflexivity].
  rewrite concat_app. cbn [List.concat]. rewrite app_nil_r, end_markers_app.
  rewrite (end_markers_clean _ (request_clean _ _)). lia.
Qed.

Lemma markers_on_end st :
  markers (Translators.on_end engine targetLang sourceLang st) = S (markers st).
Proof.
  destruct (on_end_fields engine targetLang sourceLang st) as (_ & _ & Hcase).
  destruct (0 <? length (Translators.textBuffer st))%nat; destruct Hcase as [-> ->].
  - rewrite concat_app. cbn [List.concat]. rewrite app_nil_r, !end_markers_app.
    rewrite (end_markers_clean _ (request_clean _ _)). cbn. lia.
  - rewrite end_markers_app. cbn. lia.
Qed.

Lemma markers_data steps fragments st :
  signals steps = List.map Translators.OnData fragments ->
  markers (run_stream steps st) = markers st.
Proof.
  revert fragments st. induction steps as [|s steps IH]; intros fragments st Hsig;
    [reflexivity|].
  rewrite run_stream_cons. destruct s as [ev|handler]; cbn [Translators.step].
  - change (signals (Translators.Signal ev :: steps)) with (ev :: signals steps) in Hsig.
    destruct fragments as [|f rest]; [discriminate|]. cbn [List.map] in Hsig.
    assert (ev = Translators.OnData f) by congruence. subst ev.
    assert (Hrest : signals steps = List.map Translators.OnData rest) by congruence.
    rewrite (IH rest _ Hrest). cbn [Translators.on_event]. apply markers_on_data.
  - change (signals (Translators.Resume handler :: steps)) with (signals steps) in Hsig.
    rewrite (IH fragments _ Hsig). apply markers_resume.
Qed.

Lemma markers_whole steps fragments st :
  signals steps = List.map Translators.OnData fragments ++ [Translators.OnEnd] ->
  markers (run_stream steps st) = S (markers st).
Proof.
  revert fragments st. induction steps as [|s steps IH]; intros fragments st Hsig.
  - destruct fragments; discriminate.
  - rewrite run_stream_cons. destruct s as [ev|handler]; cbn [Translators.step].
    + change (signals (Translators.Signal ev :: steps)) with (ev :: signals steps) in Hsig.
      destruct fragments as [|f rest]; cbn [List.map app] in Hsig.
      * assert (ev = Translators.OnEnd) by congruence. subst ev.
        assert (Hrest : signals steps = List.map Translators.OnData []) by (cbn; congruence).
        rewrite (markers_data steps [] _ Hrest). cbn [Translators.on_event].
        apply markers_on_end.
      * assert (ev = Translators.OnData f) by congruence. subst ev.
        assert (Hrest : signals steps
                        = List.map Translators.OnData rest ++ [Translators.OnEnd])
          by congruence.
        rewrite (IH rest _ Hrest). cbn [Translators.on_event]. f_equal.
        apply markers_on_data.
    + change (signals (Translators.Resume handler :: steps)) with (signals steps) in Hsig.
      rewrite (IH fragments _ Hsig). f_equal. apply markers_resume.
Qed.

(** Whatever happens to a stream, what was and what will be done to its
    output stays within what is allowed. *)
Lemma allowed_step s st :
  Forall allowed (Translators.output st) ->
  Forall (Forall allowed) (Translators.suspended st) ->
  Forall allowed (Translators.output (step s st))
  /\ Forall (Forall allowed) (Translators.suspended (step s st)).
Proof.
  intros Ho Hs. destruct s as [[chunk| |message]|handler]; cbn [Translators.step Translators.on_event].
  - destruct (on_data_fields engine targetLang sourceLang chunk st) as (-> & _ & _ & Hsus).
    cbv zeta in Hsus. split; [exact Ho|].
    destruct (Translators.regex_test (Translators.textBuffer st ++ chunk)); rewrite Hsus;
      [|exact Hs].
    apply Forall_app. split; [exact Hs|].
    constructor; [|constructor]. apply clean_allowed, request_clean.
  - destruct (on_end_fields engine targetLang sourceLang st) as (_ & _ & Hcase).
    destruct (0 <? length (Translators.textBuffer st))%nat; destruct Hcase as [-> ->].
    + split; [exact Ho|]. apply Forall_app. split; [exact Hs|].
      constructor; [|constructor]. apply Forall_app. split.
      * apply clean_allowed, request_clean.
      * constructor; [right; reflexivity|constructor].
    + split; [|exact Hs]. apply Forall_app. split; [exact Ho|].
      constructor; [right; reflexivity|constructor].
  - cbn [Translators.on_error Translators.output Translators.suspended].
    split; [|exact Hs]. apply Forall_app. split; [exact Ho|].
    constructor; [left; exact I|]. constructor; [right; reflexivity|constructor].
  - unfold Translators.resume.
    destruct (Translators.suspended st !! handler) as [[|ev rest]|] eqn:Hl;
      try (split; assumption).
    cbn [Translators.output Translators.suspended].
    pose proof (Forall_lookup_1 _ _ _ _ Hs Hl) as Htodo.
    apply Forall_cons in Htodo as [Hev Hrest]. split.
    + apply Forall_app. split; [exact Ho|]. constructor; [exact Hev|constructor].
    + apply Forall_insert; assumption.
Qed.

Lemma allowed_run steps st :
  Forall allowed (Translators.output st) ->
  Forall (Forall allowed) (Translators.suspended st) ->
  Forall allowed (Translators.output (run_stream steps st)).
Proof.
  revert st. induction steps as [|s steps IH]; intros st Ho Hs; [exact Ho|].
  rewrite run_stream_cons. destruct (allowed_step s st Ho Hs) as [Ho' Hs'].
  apply IH; assumption.
Qed.

Lemma settled_nothing st : settled st -> List.concat (Translators.suspended st) = [].
Proof.
  unfold settled. induction 1 as [|todo l Htodo _ IH]; [reflexivity|].
  cbn. rewrite Htodo, IH. reflexivity.
Qed.

(** X19. A stream that [translateStream] accepts has a supported target
    language and a source language that is [auto] or supported.  When its
    input delivers its chunks and ends, in whatever order the suspended
    handlers are resumed: the output stream is given only chunks that are
    not empty, errors and end markers; it is ended at most once; and once
    every handler has returned, no error having been emitted, it has been
    ended exactly once.  Nothing says that the end marker comes last. *)
Theorem stream_output_ends_once log st steps fragments :
  Translators.translateStream (Some targetLang) sourceLang log = Done st ->
  signals steps = List.map Translators.OnData fragments ++ [Translators.OnEnd] ->
  let st' := run_stream steps st in
  Validators.isValidLanguage (Some targetLang) = true
  /\ (Js.eqb sourceLang (lit "auto") = true
      \/ Validators.isValidLanguage (Some sourceLang) = true)
  /\ Forall (fun ev => clean ev \/ ev = Translators.PushNull) (Translators.output st')
  /\ (end_markers (Translators.output st') <= 1)%nat
  /\ (settled st' ->
      (forall message, ~ In (Translators.EmitError message) (Translators.output st')) ->
      end_markers (Translators.output st') = 1%nat).
Proof.
  intros Hacc Hsig. cbv zeta.
  assert (Hinit : st = {| Translators.textBuffer := []; Translators.output := [];
                          Translators.engineLog := log; Translators.suspended := [] |}
                  /\ Validators.isValidLanguage (Some targetLang) = true
                  /\ (Js.eqb sourceLang (lit "auto") = true
                      \/ Validators.isValidLanguage (Some sourceLang) = true)).
  { unfold Translators.translateStream in Hacc.
    destruct (Validators.isValidLanguage (Some targetLang)); cbn [negb] in Hacc;
      [|discriminate].
    destruct (Js.eqb sourceLang (lit "auto")); cbn [negb andb] in Hacc.
    - split; [congruence|]. split; [reflexivity|left; reflexivity].
    - destruct (Validators.isValidLanguage (Some sourceLang)); cbn [negb] in Hacc;
        [|discriminate].
      split; [congruence|]. split; [reflexivity|right; reflexivity]. }
  destruct Hinit as (Hst & Ht & Hsrc).
  split; [exact Ht|]. split; [exact Hsrc|].
  pose proof (markers_whole steps fragments st Hsig) as Hm.
  rewrite Hst in Hm at 2. cbn in Hm.
  split; [|split].
  - apply allowed_run; rewrite Hst; constructor.
  - lia.
  - intros Hset _.
    rewrite (settled_nothing _ Hset) in Hm. cbn in Hm. lia.
Qed.
End StreamShape.

(** * The theorems at concrete inputs *)

Lemma failed_flush_keeps_session_witness :
  let session := Fixture.session_with "es" [Fixture.fragment1] true in
  let w := Fixture.world_with session in
  let w' := snd (processAudioChunks Fixture.quota Fixture.sid w) in
  activeSessions w !! Fixture.sid = Some session
  /\ wire w' = wire w ++ [(7%nat, WsSend (MsgTranscription audio_error_text true))]
  /\ activeSessions w' !! Fixture.sid = Some (set_audioChunks [] session).
Proof.
  cbv zeta.
  destruct (failed_flush_keeps_session
              Fixture.JSON_parse Fixture.Buffer_toString Fixture.quota Fixture.sid
              (Fixture.world_with (Fixture.session_with "es" [Fixture.fragment1] true))
              (Fixture.session_with "es" [Fixture.fragment1] true) 1%nat
              (lit "quota exceeded"))
    as (_ & Hwire & _ & Hin & _).
  - vm_compute. reflexivity.
  - simpl. lia.
  - reflexivity.
  - reflexivity.
  - split; [vm_compute; reflexivity|]. split; [exact Hwire|exact Hin].
Defined.

Lemma stop_flushes_then_idles_witness :
  let session := Fixture.session_with "en" [Fixture.fragment1] true in
  let w := Fixture.world_with session in
  (exists more,
      calls (snd (processAudioChunks Fixture.steady Fixture.sid w))
      = calls w ++ flush_request session 1 :: more)
  /\ handleStopCommand Fixture.steady Fixture.sid
       (Fixture.world_with (Fixture.session_with "en" [] false))
     = (Done tt, Fixture.world_with (Fixture.session_with "en" [] false)).
Proof.
  cbv zeta. split.
  - destruct (stop_flushes_then_idles Fixture.steady Fixture.sid
                (Fixture.world_with (Fixture.session_with "en" [Fixture.fragment1] true))
                (Fixture.session_with "en" [Fixture.fragment1] true))
      as [Hon _]; [vm_compute; reflexivity|].
    destruct (Hon eq_refl) as (_ & Hflush & _).
    apply (Hflush 1%nat); [reflexivity|simpl; lia].
  - destruct (stop_flushes_then_idles Fixture.steady Fixture.sid
                (Fixture.world_with (Fixture.session_with "en" [] false))
                (Fixture.session_with "en" [] false))
      as [_ Hoff]; [vm_compute; reflexivity|].
    apply Hoff. reflexivity.
Defined.

Lemma flush_exactly_at_threshold_witness :
  let w := run Fixture.JSON_parse Fixture.Buffer_toString Fixture.steady
               Fixture.four_fragments initial in
  let session :=
    Fixture.session_with "en"
      [Fixture.fragment1; Fixture.fragment2; Fixture.fragment1; Fixture.fragment2] true in
  activeSessions w !! Fixture.sid = Some session
  /\ exists chat sent more,
      geminiChat session = Some chat
      /\ handleAudioData Fixture.steady Fixture.fragment1 Fixture.sid w =
           (Done tt,
            {| activeSessions :=
                 <[Fixture.sid := set_audioChunks [] session]> (activeSessions w);
               wire := wire w ++ sent;
               calls := calls w
                        ++ SendMessage chat (lit "audio/webm")
                             (Js.base64
                                (Js.Buffer_concat (audioChunks session ++ [Fixture.fragment1])))
                        :: more |})
      /\ existsb is_SendMessage more = false.
Proof.
  cbv zeta.
  assert (Hs : activeSessions
                 (run Fixture.JSON_parse Fixture.Buffer_toString Fixture.steady
                      Fixture.four_fragments initial) !! Fixture.sid
               = Some (Fixture.session_with "en"
                         [Fixture.fragment1; Fixture.fragment2;
                          Fixture.fragment1; Fixture.fragment2] true)).
  { vm_compute. reflexivity. }
  split; [exact Hs|].
  destruct (proj1 (flush_exactly_at_threshold
                     Fixture.JSON_parse Fixture.Buffer_toString Fixture.steady)
                  Fixture.four_fragments Fixture.sid _ Fixture.fragment1 Hs eq_refl)
    as (_ & _ & Hflush).
  apply Hflush. reflexivity.
Defined.

Lemma audio_buffered_only_while_transcribing_witness :
  let session := Fixture.session_with "en" [] false in
  let w := Fixture.world_with session in
  handleAudioData Fixture.steady Fixture.fragment1 Fixture.sid w = (Done tt, w)
  /\ handleMessage Fixture.JSON_parse Fixture.Buffer_toString Fixture.steady
       (BufferMsg Fixture.fragment1) Fixture.sid w = (Done tt, w)
  /\ handleMessage Fixture.JSON_parse Fixture.Buffer_toString Fixture.steady
       (BufferMsg Fixture.brace_fragment) Fixture.sid w
     = (Done tt,
        {| activeSessions := activeSessions w;
           wire := wire w
                   ++ [(ws session, WsSend (MsgError (lit "Unexpected token in JSON")))];
           calls := calls w |}).
Proof.
  cbv zeta.
  destruct (audio_buffered_only_while_transcribing
              Fixture.JSON_parse Fixture.Buffer_toString Fixture.steady Fixture.sid
              (Fixture.world_with (Fixture.session_with "en" [] false))
              (Fixture.session_with "en" [] false) Fixture.fragment1)
    as [Hidle _]; [vm_compute; reflexivity|].
  destruct (Hidle eq_refl) as (H1 & H2 & _).
  destruct (audio_buffered_only_while_transcribing
              Fixture.JSON_parse Fixture.Buffer_toString Fixture.steady Fixture.sid
              (Fixture.world_with (Fixture.session_with "en" [] false))
              (Fixture.session_with "en" [] false) Fixture.brace_fragment)
    as [Hbrace _]; [vm_compute; reflexivity|].
  destruct (Hbrace eq_refl) as (_ & _ & H3).
  destruct (H3 eq_refl) as [Herror _].
  split; [exact H1|]. split; [apply H2; reflexivity|].
  apply Herror. vm_compute. reflexivity.
Defined.


Lemma audio_is_always_sent_as_webm_witness :
  let w := Fixture.world_with (Fixture.session_with "en" [] false) in
  let ogg := StringMsg (Fixture.command_text_with "start" "format" "audio/ogg") in
  let wav := StringMsg (Fixture.command_text_with "start" "format" "audio/wav") in
  let started :=
    snd (handleMessage Fixture.JSON_parse Fixture.Buffer_toString Fixture.steady
           ogg Fixture.sid w) in
  let w' := feed_audio Fixture.steady Fixture.sid Fixture.six_fragments started in
  (exists batches rest,
      audio_submissions (calls w')
      = audio_submissions (calls w)
        ++ List.map (fun batch => (lit "audio/webm", Js.base64 (Js.Buffer_concat batch)))
                    batches
      /\ Forall (fun batch => length batch = 5%nat) batches
      /\ List.concat batches ++ rest = Fixture.six_fragments
      /\ (length rest < 5)%nat)
  /\ handleMessage Fixture.JSON_parse Fixture.Buffer_toString Fixture.steady
       ogg Fixture.sid w
     = handleMessage Fixture.JSON_parse Fixture.Buffer_toString Fixture.steady
         wav Fixture.sid w
  /\ webm_only
       (calls (run Fixture.JSON_parse Fixture.Buffer_toString Fixture.steady
                   (Fixture.four_fragments
                    ++ [Incoming (BufferMsg Fixture.fragment1) Fixture.sid]) initial)).
Proof.
  cbv zeta.
  destruct (audio_is_always_sent_as_webm
              Fixture.JSON_parse Fixture.Buffer_toString Fixture.steady)
    as (_ & _ & Hsame & Hfed & Hlog).
  split; [|split; [|apply Hlog]].
  - apply (Hfed _ (Fixture.command_with "start" "format" "audio/ogg") Fixture.sid
                (Fixture.world_with (Fixture.session_with "en" [] false))
                (Fixture.session_with "en" [] false) [] [] Fixture.six_fragments).
    + vm_compute. reflexivity.
    + reflexivity.
    + vm_compute. reflexivity.
    + vm_compute. reflexivity.
    + reflexivity.
    + reflexivity.
  - apply (Hsame _ _ (Fixture.command_with "start" "format" "audio/ogg")
                 (Fixture.command_with "start" "format" "audio/wav"));
      vm_compute; reflexivity.
Defined.

Lemma protocol_errors_keep_connection_witness :
  let session := Fixture.session_with "en" [] false in
  let w := Fixture.world_with session in
  handleMessage Fixture.JSON_parse Fixture.Buffer_toString Fixture.steady
    (StringMsg (lit "{oops")) Fixture.sid w
  = (Done tt,
     {| activeSessions := activeSessions w;
        wire := wire w ++ [(7%nat, WsSend (MsgError (lit "Unexpected token in JSON")))];
        calls := calls w |})
  /\ handleMessage Fixture.JSON_parse Fixture.Buffer_toString Fixture.steady
       (StringMsg (Fixture.command_text "bogus")) Fixture.sid w
     = (Done tt, w)
  /\ handleMessage Fixture.JSON_parse Fixture.Buffer_toString Fixture.steady
       (BufferMsg Fixture.fragment1) Fixture.sid w
     = handleAudioData Fixture.steady Fixture.fragment1 Fixture.sid w.
Proof.
  cbv zeta.
  destruct (protocol_errors_keep_connection
              Fixture.JSON_parse Fixture.Buffer_toString Fixture.steady Fixture.sid
              (Fixture.world_with (Fixture.session_with "en" [] false))
              (Fixture.session_with "en" [] false))
    as (Hparsed & Haudio & _); [vm_compute; reflexivity|].
  split; [|split].
  - destruct (Hparsed (StringMsg (lit "{oops")) (lit "{oops") eq_refl) as (Hbad & _).
    apply Hbad. vm_compute. reflexivity.
  - destruct (Hparsed (StringMsg (Fixture.command_text "bogus"))
                      (Fixture.command_text "bogus") eq_refl) as (_ & _ & Hunknown).
    apply (Hunknown (Fixture.command "bogus")); vm_compute; reflexivity.
  - destruct (Haudio Fixture.fragment1 eq_refl) as (_ & Hsame & _). exact Hsame.
Defined.

Lemma successful_flush_messages_witness :
  let session := Fixture.session_with "es" [Fixture.fragment1] true in
  let w := Fixture.world_with session in
  let w' := snd (processAudioChunks Fixture.steady Fixture.sid w) in
  exists translated error more,
    wire w' = wire w
              ++ [(7%nat, WsSend (MsgTranscription (lit "good morning") false));
                  (7%nat, WsSend (MsgTranslation translated (lit "good morning")
                                                 (JStr (lit "es")) error))]
    /\ calls w' = (calls w ++ [flush_request session 1]) ++ GetGenerativeModel false :: more
    /\ translation_ends Fixture.steady (calls w ++ [flush_request session 1])
                        (lit "good morning") (JStr (lit "es")) translated error more.
Proof.
  cbv zeta.
  destruct (successful_flush_messages Fixture.steady Fixture.sid
              (Fixture.world_with (Fixture.session_with "es" [Fixture.fragment1] true))
              (Fixture.session_with "es" [Fixture.fragment1] true) 1%nat
              (lit " good morning "))
    as (_ & _ & Hboth).
  - vm_compute. reflexivity.
  - simpl. lia.
  - reflexivity.
  - reflexivity.
  - apply Hboth; reflexivity.
Defined.

Lemma sentences_released_when_complete_witness :
  let steps := [Translators.Signal (Translators.OnData (lit "Hi. "));
                Translators.Signal (Translators.OnData (lit "and then"));
                Translators.Signal Translators.OnEnd;
                Translators.Resume 1; Translators.Resume 0] in
  let waiting := {| Translators.textBuffer := lit "and then";
                    Translators.output := [];
                    Translators.engineLog := [];
                    Translators.suspended := [] |} in
  ends_sentence (lit "Hi. ")
  /\ Translators.textBuffer
       (Translators.on_data Fixture.steady (lit "fr") (lit "auto") (lit "Hi. ")
                            Fixture.empty_stream) = []
  /\ Translators.engineLog (Translators.on_end Fixture.steady (lit "fr") (lit "auto") waiting)
     = [] ++ stream_calls Fixture.steady []
               (Translators.translation_prompt (lit "fr") (lit "auto") (lit "and then"))
  /\ Translators.engineLog
       (Translators.run_stream Fixture.steady (lit "fr") (lit "auto") steps
                               Fixture.empty_stream)
     = requested Fixture.steady (lit "fr") (lit "auto")
                 (SentenceBuffer.released [] [lit "Hi. "; lit "and then"]) [].
Proof.
  cbv zeta.
  destruct (sentences_released_when_complete Fixture.steady (lit "fr") (lit "auto"))
    as (Hiff & Hdata & Hend & Hall).
  split; [apply Hiff; reflexivity|]. split; [|split].
  - destruct (Hdata (lit "Hi. ") Fixture.empty_stream) as [Hyes _].
    destruct (Hyes eq_refl) as (Hempty & _). exact Hempty.
  - apply (Hend {| Translators.textBuffer := lit "and then";
                   Translators.output := [];
                   Translators.engineLog := [];
                   Translators.suspended := [] |}).
    simpl. lia.
  - destruct (Hall [Translators.Signal (Translators.OnData (lit "Hi. "));
                    Translators.Signal (Translators.OnData (lit "and then"));
                    Translators.Signal Translators.OnEnd;
                    Translators.Resume 1; Translators.Resume 0]
                   [lit "Hi. "; lit "and then"] Fixture.empty_stream eq_refl)
      as [_ Hlog].
    exact Hlog.
Defined.

(** * Where the specification and the code part *)

(** C3, as the specification states it, fails: the engine answers and the
    flush succeeds, but the transcript is blank and no [transcription]
    message is sent. *)
Lemma blank_transcript_sends_nothing :
  let session := Fixture.session_with "es" [Fixture.fragment1] true in
  let w := Fixture.world_with session in
  let w' := snd (processAudioChunks Fixture.blank Fixture.sid w) in
  answer Fixture.blank (calls w) (flush_request session 1) = Returned (lit "  ")
  /\ fst (processAudioChunks Fixture.blank Fixture.sid w) = Done tt
  /\ wire w' = wire w
  /\ ~ In (7%nat, WsSend (MsgTranscription (Js.trim (lit "  ")) false)) (wire w').
Proof.
  cbv zeta. split; [reflexivity|]. split; [reflexivity|]. split; [reflexivity|].
  vm_compute. intros [H|[H|[]]]; discriminate H.
Qed.

(** C6, as the specification states it, fails: the session is idle and
    the binary message is an audio fragment, yet the client is sent an
    [error] message, because the fragment's first byte is an opening
    brace and its text is not JSON. *)
Lemma idle_brace_fragment_draws_error :
  let session := Fixture.session_with "en" [] false in
  let w := Fixture.world_with session in
  isTranscribing session = false
  /\ buffer_starts_with_brace Fixture.brace_fragment = true
  /\ handleMessage Fixture.JSON_parse Fixture.Buffer_toString Fixture.steady
       (BufferMsg Fixture.brace_fragment) Fixture.sid w
     = (Done tt,
        {| activeSessions := activeSessions w;
           wire := wire w
                   ++ [(7%nat, WsSend (MsgError (lit "Unexpected token in JSON")))];
           calls := calls w |}).
Proof.
  cbv zeta. split; [reflexivity|]. split; [reflexivity|].
  vm_compute. reflexivity.
Qed.

(** C8, as the specification states it, fails: a command of unknown type
    is parsed, nothing is sent to the client and the world is unchanged. *)
Lemma unknown_command_sends_no_error :
  let w := Fixture.world_with (Fixture.session_with "en" [] false) in
  Fixture.JSON_parse (Fixture.command_text "bogus") = inl (Fixture.command "bogus")
  /\ unknown_type (Fixture.command "bogus") = true
  /\ handleMessage Fixture.JSON_parse Fixture.Buffer_toString Fixture.steady
       (StringMsg (Fixture.command_text "bogus")) Fixture.sid w
     = (Done tt, w).
Proof.
  cbv zeta. split; [vm_compute; reflexivity|]. split; [reflexivity|].
  vm_compute. reflexivity.
Qed.

(** * The further properties at concrete inputs *)

Lemma handleMessage_touches_only_its_session_witness :
  let session := Fixture.session_with "en" [] true in
  let w := Fixture.world_with session in
  activeSessions w !! Fixture.sid = Some session
  /\ touches_only Fixture.sid 7 w
       (snd (handleMessage Fixture.JSON_parse Fixture.Buffer_toString Fixture.steady
                           (BufferMsg Fixture.fragment1) Fixture.sid w)).
Proof.
  cbv zeta. split; [vm_compute; reflexivity|].
  apply (handleMessage_touches_only_its_session
           Fixture.JSON_parse Fixture.Buffer_toString Fixture.steady
           (BufferMsg Fixture.fragment1) Fixture.sid
           (Fixture.world_with (Fixture.session_with "en" [] true))
           (Fixture.session_with "en" [] true)).
  vm_compute. reflexivity.
Defined.

Lemma close_forgets_the_session_witness :
  let w := Fixture.world_with (Fixture.session_with "en" [] true) in
  activeSessions w !! lit "fresh" = None
  /\ activeSessions (snd (handleClose (lit "fresh") (snd (handleConnection 9 (lit "fresh") w))))
     = activeSessions w.
Proof.
  cbv zeta. split; [vm_compute; reflexivity|].
  destruct (close_forgets_the_session
              Fixture.JSON_parse Fixture.Buffer_toString Fixture.steady (lit "fresh")
              (Fixture.world_with (Fixture.session_with "en" [] true)))
    as (_ & _ & _ & _ & _ & Hround).
  apply Hround. vm_compute. reflexivity.
Defined.

Lemma start_begins_transcribing_witness :
  let w := Fixture.world_with (Fixture.session_with "es" [] false) in
  wire (snd (handleMessage Fixture.JSON_parse Fixture.Buffer_toString Fixture.steady
               (StringMsg (Fixture.command_text_with "start" "format" "audio/ogg"))
               Fixture.sid w))
  = wire w ++ [(7%nat, WsSend (MsgStarted (lit "Transcription started")))].
Proof.
  cbv zeta.
  rewrite (start_begins_transcribing
             Fixture.JSON_parse Fixture.Buffer_toString Fixture.steady
             (Fixture.command_text_with "start" "format" "audio/ogg")
             (Fixture.command_with "start" "format" "audio/ogg") Fixture.sid
             (Fixture.world_with (Fixture.session_with "es" [] false))
             (Fixture.session_with "es" [] false) [] []).
  - reflexivity.
  - vm_compute. reflexivity.
  - reflexivity.
  - vm_compute. reflexivity.
  - vm_compute. reflexivity.
  - reflexivity.
  - reflexivity.
Defined.

Lemma failed_start_stays_idle_witness :
  let w := Fixture.world_with (Fixture.session_with "es" [] false) in
  wire (snd (handleMessage Fixture.JSON_parse Fixture.Buffer_toString Fixture.down
               (StringMsg (Fixture.command_text_with "start" "format" "audio/ogg"))
               Fixture.sid w))
  = wire w ++ [(7%nat, WsSend (MsgError (lit "service unavailable")))].
Proof.
  cbv zeta.
  destruct (failed_start_stays_idle
              Fixture.JSON_parse Fixture.Buffer_toString Fixture.down
              (Fixture.command_text_with "start" "format" "audio/ogg")
              (Fixture.command_with "start" "format" "audio/ogg") Fixture.sid
              (Fixture.world_with (Fixture.session_with "es" [] false))
              (Fixture.session_with "es" [] false) (lit "service unavailable"))
    as [Hwire _].
  - vm_compute. reflexivity.
  - reflexivity.
  - vm_compute. reflexivity.
  - vm_compute. reflexivity.
  - left. reflexivity.
  - exact Hwire.
Defined.

Lemma setLanguage_without_language_is_ignored_witness :
  let w := Fixture.world_with (Fixture.session_with "es" [] false) in
  handleMessage (fun _ => inl (Fixture.command "setLanguage")) Fixture.Buffer_toString
                Fixture.steady (StringMsg (Fixture.command_text "setLanguage"))
                Fixture.sid w
  = (Done tt, w).
Proof.
  cbv zeta.
  apply (setLanguage_without_language_is_ignored
           (fun _ => inl (Fixture.command "setLanguage")) Fixture.Buffer_toString
           Fixture.steady (Fixture.command_text "setLanguage")
           (Fixture.command "setLanguage") Fixture.sid
           (Fixture.world_with (Fixture.session_with "es" [] false))
           (Fixture.session_with "es" [] false)).
  - vm_compute. reflexivity.
  - reflexivity.
  - vm_compute. reflexivity.
  - vm_compute. reflexivity.
Defined.

Lemma idle_session_waits_for_start_witness :
  let w := Fixture.world_with (Fixture.session_with "es" [] false) in
  calls (snd (handleMessage Fixture.JSON_parse Fixture.Buffer_toString Fixture.steady
                (StringMsg (Fixture.command_text "stop")) Fixture.sid w))
  = calls w.
Proof.
  cbv zeta.
  destruct (idle_session_waits_for_start
              Fixture.JSON_parse Fixture.Buffer_toString Fixture.steady
              (StringMsg (Fixture.command_text "stop")) Fixture.sid
              (Fixture.world_with (Fixture.session_with "es" [] false))
              (Fixture.session_with "es" [] false))
    as [Hcalls _].
  - vm_compute. reflexivity.
  - reflexivity.
  - vm_compute. reflexivity.
  - exact Hcalls.
Defined.

Lemma reachable_sessions_are_tidy_witness :
  let session :=
    Fixture.session_with "en"
      [Fixture.fragment1; Fixture.fragment2; Fixture.fragment1; Fixture.fragment2] true in
  (length (audioChunks session) < 5)%nat
  /\ (isTranscribing session = false -> audioChunks session = [])
  /\ (isTranscribing session = true -> is_Some (geminiChat session)).
Proof.
  cbv zeta.
  apply (reachable_sessions_are_tidy
           Fixture.JSON_parse Fixture.Buffer_toString Fixture.steady
           Fixture.four_fragments Fixture.sid).
  vm_compute. reflexivity.
Defined.

Lemma no_fragment_is_lost_witness :
  let session := Fixture.session_with "en" [] true in
  let w := Fixture.world_with session in
  let w' := feed_audio Fixture.steady Fixture.sid Fixture.six_fragments w in
  exists session' batches,
    activeSessions w' !! Fixture.sid = Some session'
    /\ isTranscribing session' = true
    /\ audio_payloads (calls w')
       = audio_payloads (calls w)
         ++ List.map (fun batch => Js.base64 (Js.Buffer_concat batch)) batches
    /\ Forall (fun batch => length batch = 5%nat) batches
    /\ List.concat batches ++ audioChunks session'
       = audioChunks session ++ Fixture.six_fragments
    /\ (length (audioChunks session') < 5)%nat.
Proof.
  cbv zeta.
  apply (no_fragment_is_lost Fixture.steady Fixture.six_fragments Fixture.sid
           (Fixture.world_with (Fixture.session_with "en" [] true))
           (Fixture.session_with "en" [] true)).
  - vm_compute. reflexivity.
  - reflexivity.
  - split; [simpl; lia|]. intros _. exists 1%nat. reflexivity.
Defined.

Lemma stop_submits_the_rest_witness :
  let session := Fixture.session_with "en" [] true in
  let w := Fixture.world_with session in
  let w' := snd (handleStopCommand Fixture.steady Fixture.sid
                   (feed_audio Fixture.steady Fixture.sid Fixture.six_fragments w)) in
  exists session' batches,
    activeSessions w' !! Fixture.sid = Some session'
    /\ isTranscribing session' = false
    /\ audioChunks session' = []
    /\ audio_payloads (calls w')
       = audio_payloads (calls w)
         ++ List.map (fun batch => Js.base64 (Js.Buffer_concat batch)) batches
    /\ Forall (fun batch => (0 < length batch <= 5)%nat) batches
    /\ List.concat batches = audioChunks session ++ Fixture.six_fragments.
Proof.
  cbv zeta.
  apply (stop_submits_the_rest Fixture.steady Fixture.six_fragments Fixture.sid
           (Fixture.world_with (Fixture.session_with "en" [] true))
           (Fixture.session_with "en" [] true)).
  - vm_compute. reflexivity.
  - reflexivity.
  - split; [simpl; lia|]. intros _. exists 1%nat. reflexivity.
Defined.

Lemma flush_messages_are_well_formed_witness :
  let session := Fixture.session_with "es" [Fixture.fragment1] true in
  let w := Fixture.world_with session in
  let lang := targetLanguage session in
  let socket := ws session in
  exists sent,
    wire (snd (processAudioChunks Fixture.steady Fixture.sid w)) = wire w ++ sent
    /\ (sent = []
        \/ sent = [(socket, WsSend (MsgTranscription audio_error_text true))]
        \/ exists transcript,
            Js.nonempty transcript = true
            /\ trimmed transcript
            /\ ((is_str lang (lit "en") = true
                 /\ sent = [(socket, WsSend (MsgTranscription transcript false))])
                \/ (is_str lang (lit "en") = false
                    /\ exists text error,
                        sent = [(socket, WsSend (MsgTranscription transcript false));
                                (socket,
                                 WsSend (MsgTranslation text transcript lang error))]
                        /\ (if error then text = translation_error_text
                            else trimmed text)))).
Proof.
  cbv zeta.
  apply (flush_messages_are_well_formed Fixture.steady Fixture.sid
           (Fixture.world_with (Fixture.session_with "es" [Fixture.fragment1] true))
           (Fixture.session_with "es" [Fixture.fragment1] true)).
  vm_compute. reflexivity.
Defined.

Lemma translate_rejects_before_calling_witness :
  Translators.translate Fixture.steady (Some (lit "hello")) (Some (lit "xx")) None []
  = (Raised (lit "Target language 'xx' is not supported"), [])
  /\ exists more,
      snd (Translators.translate Fixture.steady (Some (lit "hello")) (Some (lit "es"))
                                 (Some []) [])
      = [] ++ GetGenerativeModel false :: more.
Proof.
  split.
  - destruct (translate_rejects_before_calling
                Fixture.steady (Some (lit "hello")) (Some (lit "xx")) None [])
      as [Hrejected _].
    destruct Hrejected as [Hrun _].
    + right. left. vm_compute. reflexivity.
    + rewrite Hrun. vm_compute. reflexivity.
  - destruct (translate_rejects_before_calling
                Fixture.steady (Some (lit "hello")) (Some (lit "es")) (Some []) [])
      as [_ Hempty].
    apply Hempty.
    + reflexivity.
    + vm_compute. reflexivity.
    + reflexivity.
Defined.

Lemma translate_answers_witness :
  let prompt := Translators.translation_prompt (lit "es") (lit "auto") (lit "hello") in
  let request := GenerateContent 0 (Prompt prompt) in
  match Translators.translate Fixture.steady (Some (lit "hello")) (Some (lit "es")) None [] with
  | (Done translation, log') =>
      trimmed translation
      /\ log' = [] ++ [GetGenerativeModel false; request]
      /\ exists x reply,
          answer Fixture.steady [] (GetGenerativeModel false) = Returned x
          /\ answer Fixture.steady ([] ++ [GetGenerativeModel false]) request
             = Returned reply
          /\ translation = Js.trim reply
  | (Raised message, log') =>
      exists e,
        message = lit "Gemini API Error: " ++ e
        /\ ((answer Fixture.steady [] (GetGenerativeModel false) = Threw e
             /\ log' = [] ++ [GetGenerativeModel false])
            \/ (exists x, answer Fixture.steady [] (GetGenerativeModel false) = Returned x)
               /\ answer Fixture.steady ([] ++ [GetGenerativeModel false]) request = Threw e
               /\ log' = [] ++ [GetGenerativeModel false; request])
  end.
Proof.
  cbv zeta.
  apply (translate_answers Fixture.steady (Some (lit "hello")) (Some (lit "es")) None []).
  vm_compute. reflexivity.
Defined.

Lemma transcribe_outside_production_witness :
  exists text more,
    Translators.transcribeAudio Fixture.down None (Some Fixture.fragment1)
                                (Some (lit "audio/webm")) []
    = (Done text, [] ++ more)
    /\ trimmed text
    /\ (length more <= 3)%nat
    /\ Forall (fun c => match c with
                        | GenerateContent _ _ => False
                        | GetGenerativeModel safety => safety = true
                        | _ => True
                        end) more.
Proof.
  apply (transcribe_outside_production Fixture.down None Fixture.fragment1
                                       (lit "audio/webm") []);
    reflexivity.
Defined.

Lemma transcribe_throws_only_one_way_witness :
  Translators.transcribeAudio Fixture.down (Some (lit "production"))
                              (Some Fixture.fragment1) (Some (lit "audio/webm")) []
  = (Raised (lit "Gemini API Transcription Error: service unavailable"),
     [GetGenerativeModel true; GetGenerativeModel false])
  /\ not_production (Some (lit "production")) = false.
Proof.
  assert (Hrun : Translators.transcribeAudio Fixture.down (Some (lit "production"))
                   (Some Fixture.fragment1) (Some (lit "audio/webm")) []
                 = (Raised (lit "Gemini API Transcription Error: service unavailable"),
                    [GetGenerativeModel true; GetGenerativeModel false])).
  { vm_compute. reflexivity. }
  split; [exact Hrun|].
  destruct (transcribe_throws_only_one_way
              Fixture.down (Some (lit "production")) Fixture.fragment1 (lit "audio/webm") []
              _ _ eq_refl Hrun) as [Hprod _].
  exact Hprod.
Defined.

Lemma api_translate_responses_witness :
  exists response log',
    ApiServer.postTranslate Fixture.steady (Some (lit "hello")) (Some (lit "xx")) None []
    = (Done response, log')
    /\ ApiServer.status response = 500%nat /\ log' = [].
Proof.
  destruct (api_translate_responses
              Fixture.steady (Some (lit "hello")) (Some (lit "xx")) None [])
    as (response & log' & Hrun & _ & _ & _ & Hbad & _).
  destruct Hbad as [Hlog Hresp]; [reflexivity|vm_compute; reflexivity|].
  exists response, log'. split; [exact Hrun|]. rewrite Hresp. split; [reflexivity|exact Hlog].
Defined.

Lemma api_transcribe_responses_witness :
  exists response log',
    ApiServer.postTranscribe Fixture.down (Some (lit "production"))
                             (Some Fixture.fragment1) (Some (lit "text/plain")) []
    = (Done response, log')
    /\ ApiServer.status response = 400%nat /\ log' = [].
Proof.
  destruct (api_transcribe_responses
              Fixture.down (Some (lit "production"))
              (Some Fixture.fragment1) (Some (lit "text/plain")) [])
    as (response & log' & Hrun & _ & Hbad & Hquiet & _).
  assert (H400 : ApiServer.status response = 400%nat) by (apply Hbad; reflexivity).
  exists response, log'. split; [exact Hrun|]. split; [exact H400|exact (Hquiet H400)].
Defined.

Lemma api_transcribe_passes_audio_through_witness :
  exists more,
    snd (ApiServer.postTranscribe Fixture.quota (Some (lit "production"))
           (Some Fixture.fragment1) (Some (lit "audio/ogg")) [])
    = [] ++ more
    /\ (length more <= 5)%nat
    /\ Forall (carries (lit "audio/ogg") (Js.base64 Fixture.fragment1)) more.
Proof.
  apply (api_transcribe_passes_audio_through
           Fixture.quota (Some (lit "production")) Fixture.fragment1 (lit "audio/ogg") []).
  reflexivity.
Defined.

Lemma stream_output_ends_once_witness :
  let steps := [Translators.Signal (Translators.OnData (lit "Hel"));
                Translators.Signal (Translators.OnData (lit "lo. "));
                Translators.Signal (Translators.OnData (lit "Bye"));
                Translators.Signal Translators.OnEnd;
                Translators.Resume 1; Translators.Resume 1; Translators.Resume 1;
                Translators.Resume 0; Translators.Resume 0] in
  let st' := Translators.run_stream Fixture.steady (lit "fr") (lit "auto") steps
                                    Fixture.empty_stream in
  Forall (fun ev => clean ev \/ ev = Translators.PushNull) (Translators.output st')
  /\ (end_markers (Translators.output st') <= 1)%nat
  /\ end_markers (Translators.output st') = 1%nat.
Proof.
  cbv zeta.
  destruct (stream_output_ends_once Fixture.steady (lit "fr") (lit "auto") []
              Fixture.empty_stream
              [Translators.Signal (Translators.OnData (lit "Hel"));
               Translators.Signal (Translators.OnData (lit "lo. "));
               Translators.Signal (Translators.OnData (lit "Bye"));
               Translators.Signal Translators.OnEnd;
               Translators.Resume 1; Translators.Resume 1; Translators.Resume 1;
               Translators.Resume 0; Translators.Resume 0]
              [lit "Hel"; lit "lo. "; lit "Bye"])
    as (_ & _ & Hallowed & Hmost & Honce).
  - vm_compute. reflexivity.
  - reflexivity.
  - split; [exact Hallowed|]. split; [exact Hmost|]. apply Honce.
    + repeat constructor.
    + vm_compute. intros message H. repeat (destruct H as [H|H]; [discriminate H|]).
      exact H.
Defined.

Lemma brace_fragment_is_taken_as_command_witness :
  let session := Fixture.session_with "en" [Fixture.fragment1] true in
  let w := Fixture.world_with session in
  let w' := snd (handleMessage Fixture.JSON_parse Fixture.Buffer_toString Fixture.steady
                   (BufferMsg [x7b; x1a]%byte) Fixture.sid w) in
  exists session',
    activeSessions w' !! Fixture.sid = Some session'
    /\ (audioChunks session' = audioChunks session \/ audioChunks session' = []).
Proof.
  cbv zeta.
  destruct (brace_fragment_is_taken_as_command
              Fixture.JSON_parse Fixture.Buffer_toString Fixture.steady
              [x7b; x1a]%byte Fixture.sid
              (Fixture.world_with (Fixture.session_with "en" [Fixture.fragment1] true))
              (Fixture.session_with "en" [Fixture.fragment1] true))
    as [_ Hkept].
  - vm_compute. reflexivity.
  - reflexivity.
  - exact Hkept.
Defined.
